(** * gcp-auto-lb-clean: a shallow embedding of the dangling load-balancer
      cleaner and the properties of its resolver, classifier, planner,
      deletion workers and firewall reconciler.

    Sources embedded: [autolbclean.go] (self-link parsers, resolver,
    [ListDanglingFirewalls]) and [app.go] (the HTTP handlers, the
    classifier/planner [checkAndDeleteTargetProxiesIfApplicable], the
    deletion workers and [handleJobError]).

    The cloud API, the clock, the work queue and the App Engine context
    are collaborators: the program is written over a [Runtime] that
    answers for them, and a run threads the outside world together with
    the trace of the API calls it made and the tasks it enqueued. *)

From Stdlib Require Import ZArith Lia.
From stdpp Require Import base option list strings gmap fin_maps.

Local Open Scope string_scope.
Local Open Scope Z_scope.

(** ** Go's [strings] package, on byte strings *)

Module strings.

(** [strings.HasPrefix(s, prefix)]. *)
Fixpoint HasPrefix (s prefix : string) : bool :=
  match prefix, s with
  | EmptyString, _ => true
  | String _ _, EmptyString => false
  | String p prefix', String c s' => Ascii.eqb c p && HasPrefix s' prefix'
  end.

(** [strings.Index(s, substr)]: the first position of [substr] in [s],
    or [-1]. *)
Fixpoint Index (s substr : string) : Z :=
  if HasPrefix s substr then 0
  else match s with
       | EmptyString => -1
       | String _ s' =>
           let i := Index s' substr in
           if i <? 0 then -1 else i + 1
       end.

(** [strings.LastIndex(s, substr)]: the last position of [substr] in
    [s], or [-1]. *)
Fixpoint LastIndex (s substr : string) : Z :=
  match s with
  | EmptyString => if HasPrefix s substr then 0 else -1
  | String _ s' =>
      let i := LastIndex s' substr in
      if 0 <=? i then i + 1
      else if HasPrefix s substr then 0 else -1
  end.

End strings.

(** [len(s)] *)
Definition len (s : string) : Z := Z.of_nat (String.length s).

(** The slice expressions [s[lo:hi]], [s[:hi]] and [s[lo:]].  Every use in
    the source has [0 <= lo <= hi <= len(s)], where Go does not panic. *)
Definition slice (s : string) (lo hi : Z) : string :=
  String.substring (Z.to_nat lo) (Z.to_nat (hi - lo)) s.
Definition slice_to (s : string) (hi : Z) : string := slice s 0 hi.
Definition slice_from (s : string) (lo : Z) : string := slice s lo (len s).

(** ** Go errors

    An [error] value is either a [*googleapi.Error] carrying the HTTP
    status code of the API response, an error made by [errors.New] /
    [errors.Errorf] (or any other non-API failure such as a transport
    error), or the result of [errors.Wrap].  A wrapped error is a value of
    another dynamic type: the type assertion to the googleapi error type
    fails on it. *)
Inductive error : Type :=
| googleapi_Error (Code : Z)
| errors_New (msg : string)
| errors_Wrap (cause : error) (msg : string).

(** A call that returns [(v, err)]. *)
Inductive result (A : Type) : Type :=
| Ok (v : A)
| Err (e : error).
Arguments Ok {A} v.
Arguments Err {A} e.

Definition StatusOK : Z := 200.
Definition StatusNoContent : Z := 204.
Definition StatusNotFound : Z := 404.
Definition StatusInternalServerError : Z := 500.

(** ** Self-link parsers ([autolbclean.go])

    The parsers have named results [(name, region, err)]; a [return] on an
    error path gives back whatever was assigned so far, the zero value
    (the empty string, [false]) otherwise. *)

Definition ParseTargetProxy (s : string)
  : string * string * bool * option error :=
  let find_rest (pos : Z) (isHTTPs : bool) :=
    let i := strings.LastIndex (slice_to s pos) "/" in
    if 0 <=? i then
      let region := slice s (i + 1) pos in
      let i := strings.LastIndex (slice_from s pos) "/" in
      if 0 <=? i then
        let name := slice_from s (pos + i + 1) in
        (name, region, isHTTPs, None)
      else ("", region, isHTTPs, Some (errors_New "failed to find name"))
    else ("", "", isHTTPs, Some (errors_New "failed to find region")) in
  let i := strings.Index s "/targetHttpProxies" in
  if 0 <=? i then find_rest i false
  else
    let i := strings.Index s "/targetHttpsProxies" in
    if 0 <=? i then find_rest i true
    else ("", "", false,
          Some (errors_New "failed to find keywords targetHttpProxies or targetHttpsProxies")).

Definition ParseUrlMap (s : string) : string * string * option error :=
  let i := strings.Index s "/urlMaps" in
  if 0 <=? i then
    let pos := i in
    let i := strings.LastIndex (slice_to s pos) "/" in
    if 0 <=? i then
      let region := slice s (i + 1) pos in
      let i := strings.LastIndex (slice_from s pos) "/" in
      if 0 <=? i then
        let name := slice_from s (pos + i + 1) in
        (name, region, None)
      else ("", region, Some (errors_New "failed to find name"))
    else ("", "", Some (errors_New "failed to find region"))
  else ("", "", Some (errors_New "failed to find keyword urlMaps")).

Definition parseURL (s keyword : string) : string * string * option error :=
  let i := strings.Index s ("/" ++ keyword) in
  if 0 <=? i then
    let pos := i in
    let i := strings.LastIndex (slice_to s pos) "/" in
    if 0 <=? i then
      let region := slice s (i + 1) pos in
      let i := strings.LastIndex (slice_from s pos) "/" in
      if 0 <=? i then
        let name := slice_from s (pos + i + 1) in
        (name, region, None)
      else ("", region, Some (errors_New "failed to find name"))
    else ("", "", Some (errors_New "failed to find region"))
  else ("", "", Some (errors_New ("failed to find keyword " ++ keyword))).

Definition ParseService (s : string) := parseURL s "backendServices".

Definition ParseInstanceGroup (s : string) : string * string * option error :=
  let i := strings.Index s "/instanceGroups" in
  if 0 <=? i then
    let pos := i in
    let i := strings.LastIndex (slice_to s pos) "/" in
    if 0 <=? i then
      let zone := slice s (i + 1) pos in
      let i := strings.LastIndex (slice_from s pos) "/" in
      if 0 <=? i then
        let name := slice_from s (pos + i + 1) in
        (name, zone, None)
      else ("", zone, Some (errors_New "failed to find name"))
    else ("", "", Some (errors_New "failed to find zone"))
  else ("", "", Some (errors_New "failed to find keyword instanceGroups")).

Definition ParseSslCertificates (s : string) := parseURL s "sslCertificates".
Definition ParseBackendServices (s : string) := parseURL s "backendServices".
Definition ParseHealthChecks (s : string) := parseURL s "healthChecks".


(** ** The slice of [google.golang.org/api/compute/v1] the program reads

    The fields the source reads are kept, and with them the default
    services of a url map and of its path matchers, which the source
    never reads.  The API hands out pointers to these structs; the
    program never mutates them, so values stand for the pointers. *)
Module compute.

Record ForwardingRule := {
  ForwardingRule_Name : string;
  ForwardingRule_Target : string }.

Record TargetHttpProxy := {
  TargetHttpProxy_Name : string;
  TargetHttpProxy_UrlMap : string;
  TargetHttpProxy_CreationTimestamp : string }.

Record TargetHttpsProxy := {
  TargetHttpsProxy_Name : string;
  TargetHttpsProxy_SslCertificates : list string;
  TargetHttpsProxy_UrlMap : string;
  TargetHttpsProxy_CreationTimestamp : string }.

Record PathRule := { PathRule_Service : string }.
Record PathMatcher := {
  PathMatcher_DefaultService : string;
  PathMatcher_PathRules : list PathRule }.
Record UrlMap := {
  UrlMap_DefaultService : string;
  UrlMap_PathMatchers : list PathMatcher }.

Record Backend := { Backend_Group : string }.

Record BackendService := {
  BackendService_Name : string;
  BackendService_SelfLink : string;
  BackendService_Backends : list Backend;
  BackendService_HealthChecks : list string }.

(** An item of [InstanceGroupsListInstances]. *)
Record InstanceWithNamedPorts := { InstanceWithNamedPorts_Instance : string }.

Record Firewall := {
  Firewall_Name : string;
  Firewall_TargetTags : list string }.

Record Zone := { Zone_Name : string }.

(** [Instance_Tags] is [instance.Tags.Items]; the source dereferences
    [Tags] without a nil check, the API sends it for every instance. *)
Record Instance := { Instance_Tags : list string }.

#[global] Instance Firewall_eq_dec : EqDecision Firewall.
Proof. solve_decision. Defined.

End compute.
Export compute.

(** ** Tasks and requests

    [url.Values] is a [map[string][]string]. *)
Abbreviation url_Values := (gmap string (list string)).

(** [taskqueue.NewPOSTTask(path, params)]. *)
Record Task := NewPOSTTask {
  Task_Path : string;
  Task_Params : url_Values }.

#[global] Instance Task_eq_dec : EqDecision Task.
Proof. solve_decision. Defined.

(** The part of [*http.Request] the handlers read. *)
Record Request := {
  Request_Path : string;
  Request_Form : url_Values }.

(** [r.FormValue(key)]: the first value of [key], or the empty string. *)
Definition FormValue (r : Request) (key : string) : string :=
  match Request_Form r !! key with
  | Some (v :: _) => v
  | _ => ""
  end.

(** The work queue delivers a task as a POST to its path with its
    parameters as the form. *)
Definition deliver (t : Task) : Request :=
  {| Request_Path := Task_Path t; Request_Form := Task_Params t |}.

(** [strconv.FormatBool] and [strconv.ParseBool]; the source drops
    [ParseBool]'s error and keeps its [false]. *)
Module strconv.

Definition FormatBool (b : bool) : string := if b then "true" else "false".

Definition ParseBool (str : string) : bool * option error :=
  if bool_decide (str ∈ ["1"; "t"; "T"; "TRUE"; "true"; "True"])
  then (true, None)
  else if bool_decide (str ∈ ["0"; "f"; "F"; "FALSE"; "false"; "False"])
  then (false, None)
  else (false, Some (errors_New "invalid syntax")).

End strconv.

(** ** Time

    A [time.Time] is modelled by its instant, in nanoseconds since the Unix
    epoch; a [time.Duration] is a count of nanoseconds. *)
Definition Time := Z.
Definition Duration := Z.

Module time.
Definition Second : Duration := 1000000000.
Definition Minute : Duration := 60 * Second.
Definition Hour : Duration := 60 * Minute.
(** The zero [Time]: January 1, year 1, 00:00:00 UTC. *)
Definition zero : Time := -62135596800 * Second.
Definition Add (t : Time) (d : Duration) : Time := t + d.
Definition After (t u : Time) : bool := u <? t.
(** [t.UTC()] changes the location, not the instant. *)
Definition UTC (t : Time) : Time := t.
End time.

(** ** Calls to the Cloud Resource API *)

Inductive ApiCall : Type :=
| ForwardingRules_AggregatedList (project : string)
| TargetHttpProxies_Get (project name : string)
| TargetHttpsProxies_Get (project name : string)
| TargetHttpProxies_List (project : string)
| TargetHttpsProxies_List (project : string)
| UrlMaps_Get (project name : string)
| BackendServices_Get (project name : string)
| InstanceGroups_ListInstances (project zone name InstanceState : string)
| Firewalls_List (project : string)
| Zones_List (project : string)
| Instances_List (project zone : string)
| GlobalForwardingRules_Delete (project name : string)
| ForwardingRules_Delete (project region name : string)
| UrlMaps_Delete (project name : string)
| BackendServices_Delete (project name : string)
| RegionBackendServices_Delete (project region name : string)
| SslCertificates_Delete (project name : string)
| TargetPools_Delete (project region name : string)
| HealthChecks_Delete (project name : string)
| TargetHttpsProxies_Delete (project name : string)
| TargetHttpProxies_Delete (project name : string)
| Firewalls_Delete (project name : string).

#[global] Instance ApiCall_eq_dec : EqDecision ApiCall.
Proof. solve_decision. Defined.

(** What [.Do()] returns next to the error.  A delete returns an
    operation handle that every caller drops.  The aggregated list of
    forwarding rules is a map from scope to a list of rules: its reply
    here is the lists in the order in which the source's range visits
    them. *)
Definition Reply (c : ApiCall) : Type :=
  match c with
  | ForwardingRules_AggregatedList _ => list (list ForwardingRule)
  | TargetHttpProxies_Get _ _ => TargetHttpProxy
  | TargetHttpsProxies_Get _ _ => TargetHttpsProxy
  | TargetHttpProxies_List _ => list TargetHttpProxy
  | TargetHttpsProxies_List _ => list TargetHttpsProxy
  | UrlMaps_Get _ _ => UrlMap
  | BackendServices_Get _ _ => BackendService
  | InstanceGroups_ListInstances _ _ _ _ => list InstanceWithNamedPorts
  | Firewalls_List _ => list Firewall
  | Zones_List _ => list Zone
  | Instances_List _ _ => list Instance
  | _ => unit
  end.

(** Is the call one of the [Delete] methods? *)
Definition is_delete (c : ApiCall) : bool :=
  match c with
  | GlobalForwardingRules_Delete _ _ | ForwardingRules_Delete _ _ _
  | UrlMaps_Delete _ _ | BackendServices_Delete _ _
  | RegionBackendServices_Delete _ _ _ | SslCertificates_Delete _ _
  | TargetPools_Delete _ _ _ | HealthChecks_Delete _ _
  | TargetHttpsProxies_Delete _ _ | TargetHttpProxies_Delete _ _
  | Firewalls_Delete _ _ => true
  | _ => false
  end.

(** What a run does to the outside, in order. *)
Inductive Event : Type :=
| Api (c : ApiCall)
| taskqueue_Add (t : Task) (queueName : string).

#[global] Instance Event_eq_dec : EqDecision Event.
Proof. solve_decision. Defined.

(** [App]: the project id; its [service] is the runtime's [Do]. *)
Record App := { project : string }.

(** ** The collaborators

    The cloud, the clock, the work queue and the process environment are
    consumed as given: every call may change the outside [World] and may
    fail. *)
Record Runtime (World : Type) := {
  (** [app.service.<Collection>.<Method>(...).Do()] *)
  Do : ∀ c : ApiCall, World → result (Reply c) * World;
  (** [time.Now()] *)
  time_Now : World → Time * World;
  (** [time.Parse(time.RFC3339, s)], [None] when it returns an error (its
      [Time] result is then the zero [Time]) *)
  time_Parse_RFC3339 : string → option Time;
  (** [t.Format(time.RFC3339)] *)
  Time_Format_RFC3339 : Time → string;
  (** [AppengineApp(ctx)] *)
  AppengineApp : World → result App * World;
  (** the queue's side of [taskqueue.Add(ctx, t, queueName)]; the source
      drops what it returns *)
  enqueue : Task → string → World → World;
  (** [os.Getenv] *)
  os_Getenv : string → string;
  (** the order in which [for ... := range tags2fws] visits the entries of
      the map; Go leaves it unspecified *)
  mapRange : gmap string (list Firewall) → list (string * list Firewall) }.
Arguments Do {World}.
Arguments time_Now {World}.
Arguments time_Parse_RFC3339 {World}.
Arguments Time_Format_RFC3339 {World}.
Arguments AppengineApp {World}.
Arguments enqueue {World}.
Arguments os_Getenv {World}.
Arguments mapRange {World}.

(** Whatever order the runtime picks, a [range] over a map visits every
    entry once. *)
Definition mapRange_visits_all {World} (rt : Runtime World) : Prop :=
  ∀ m, mapRange rt m ≡ₚ map_to_list m.

(** ** The program, over its collaborators *)

Section Program.

Context {World : Type} (rt : Runtime World).

(** The state a run threads: the outside world and the trace of what the
    run did to it. *)
Record State := {
  world : World;
  trace : list Event }.

Definition M (A : Type) : Type := State → A * State.

Definition ret {A} (a : A) : M A := λ st, (a, st).
Definition bind {A B} (m : M A) (k : A → M B) : M B :=
  λ st, let (a, st') := m st in k a st'.

#[global] Instance M_ret : MRet M := @ret.
#[global] Instance M_bind : MBind M := λ A B k m, bind m k.

(** One API call: recorded, then answered by the cloud. *)
Definition call (c : ApiCall) : M (result (Reply c)) :=
  λ st, let (r, w) := Do rt c (world st) in
        (r, {| world := w; trace := trace st ++ [Api c] |}).

Definition now : M Time :=
  λ st, let (t, w) := time_Now rt (world st) in
        (t, {| world := w; trace := trace st |}).

Definition getApp : M (result App) :=
  λ st, let (a, w) := AppengineApp rt (world st) in
        (a, {| world := w; trace := trace st |}).

Definition taskqueueAdd (t : Task) (queueName : string) : M unit :=
  λ st, (tt, {| world := enqueue rt t queueName (world st);
                trace := trace st ++ [taskqueue_Add t queueName] |}).

(** [queueName], as [init] leaves it. *)
Definition queueName : string :=
  let v := os_Getenv rt "QUEUE_NAME" in
  if 0 <? len v then v else "default".

(** *** [autolbclean.go]: the resolver *)

Definition GetTargetHttpsProxy (app : App) (name : string) :=
  call (TargetHttpsProxies_Get (project app) name).

Definition GetTargetHttpProxy (app : App) (name : string) :=
  call (TargetHttpProxies_Get (project app) name).

Definition GetUrlMap (app : App) (name : string) :=
  call (UrlMaps_Get (project app) name).

(** [ListIngressForwardingRules]: the forwarding rules whose names start
    with [k8s-fw]. *)
Definition ListIngressForwardingRules (app : App)
  : M (result (list ForwardingRule)) :=
  l ← call (ForwardingRules_AggregatedList (project app));
  match l with
  | Err err => ret (Err (errors_Wrap err "failed to list forwarding rules"))
  | Ok items =>
      ret (Ok (filter (λ fr, strings.HasPrefix (ForwardingRule_Name fr) "k8s-fw" = true)
                      (concat items)))
  end.

(** The inner loop of [FindBackendServices], over one path matcher's
    rules; [lst] is the [list] of the source. *)
Fixpoint FindBackendServices_rules (app : App) (prs : list PathRule)
    (lst : list BackendService) : M (result (list BackendService)) :=
  match prs with
  | [] => ret (Ok lst)
  | pr :: prs' =>
      let '(sname, _, err) := ParseService (PathRule_Service pr) in
      match err with
      | Some err => ret (Err (errors_Wrap err "failed to parse backend service url"))
      | None =>
          s ← call (BackendServices_Get (project app) sname);
          match s with
          | Err err => ret (Err (errors_Wrap err "failed to get backend service"))
          | Ok s => FindBackendServices_rules app prs' (lst ++ [s])
          end
      end
  end.

(** The outer loop of [FindBackendServices], over the path matchers. *)
Fixpoint FindBackendServices_matchers (app : App) (pms : list PathMatcher)
    (lst : list BackendService) : M (result (list BackendService)) :=
  match pms with
  | [] => ret (Ok lst)
  | pm :: pms' =>
      r ← FindBackendServices_rules app (PathMatcher_PathRules pm) lst;
      match r with
      | Err err => ret (Err err)
      | Ok lst => FindBackendServices_matchers app pms' lst
      end
  end.

Definition FindBackendServices (app : App) (um : UrlMap)
  : M (result (list BackendService)) :=
  FindBackendServices_matchers app (UrlMap_PathMatchers um) [].

(** The loop of [ListInstancesForService]; a failed listing of a group is
    skipped. *)
Fixpoint ListInstancesForService_loop (app : App) (backends : list Backend)
    (lst : list string) : M (result (list string)) :=
  match backends with
  | [] => ret (Ok lst)
  | backend :: backends' =>
      let '(name, zone, err) := ParseInstanceGroup (Backend_Group backend) in
      match err with
      | Some err => ret (Err (errors_Wrap err "failed to parse instance group url"))
      | None =>
          instances ← call (InstanceGroups_ListInstances (project app) zone name "ALL");
          match instances with
          | Err _ => ListInstancesForService_loop app backends' lst
          | Ok items =>
              ListInstancesForService_loop app backends'
                (lst ++ map InstanceWithNamedPorts_Instance items)
          end
      end
  end.

Definition ListInstancesForService (app : App) (s : BackendService)
  : M (result (list string)) :=
  ListInstancesForService_loop app (BackendService_Backends s) [].

(** The first loop of [ListDanglingFirewalls]: the firewalls that
    reference each [gke-] tag. *)
Definition tags2fws_add (tags2fws : gmap string (list Firewall)) (fw : Firewall)
  : gmap string (list Firewall) :=
  foldl (λ (tags2fws : gmap string (list Firewall)) tag,
           if strings.HasPrefix tag "gke-"
           then <[tag := (default [] (tags2fws !! tag) ++ [fw])%list]> tags2fws
           else tags2fws)
        tags2fws (Firewall_TargetTags fw).

Definition tags2fws_of (firewalls : list Firewall) : gmap string (list Firewall) :=
  foldl tags2fws_add ∅ firewalls.

(** The two inner loops of the zone scan: drop every [gke-] tag of every
    listed instance. *)
Definition tags2fws_drop (tags2fws : gmap string (list Firewall)) (instance : Instance)
  : gmap string (list Firewall) :=
  foldl (λ (tags2fws : gmap string (list Firewall)) tag,
           if strings.HasPrefix tag "gke-" then delete tag tags2fws else tags2fws)
        tags2fws (Instance_Tags instance).

(** The zone loop of [ListDanglingFirewalls]. *)
Fixpoint ListDanglingFirewalls_zones (app : App) (zones : list Zone)
    (tags2fws : gmap string (list Firewall))
  : M (result (gmap string (list Firewall))) :=
  match zones with
  | [] => ret (Ok tags2fws)
  | zone :: zones' =>
      if bool_decide (size tags2fws = 0%nat) then ret (Ok tags2fws)
      else
        instances ← call (Instances_List (project app) (Zone_Name zone));
        match instances with
        | Err err => ret (Err (errors_Wrap err "failed to list instances"))
        | Ok items =>
            ListDanglingFirewalls_zones app zones' (foldl tags2fws_drop tags2fws items)
        end
  end.

Definition ListDanglingFirewalls (app : App) : M (result (list Firewall)) :=
  firewalls ← call (Firewalls_List (project app));
  match firewalls with
  | Err err => ret (Err (errors_Wrap err "failed to list firewall rules"))
  | Ok items =>
      let tags2fws := tags2fws_of items in
      zones ← call (Zones_List (project app));
      match zones with
      | Err err => ret (Err (errors_Wrap err "faild to list zones"))
      | Ok zones =>
          tags2fws ← ListDanglingFirewalls_zones app zones tags2fws;
          match tags2fws with
          | Err err => ret (Err err)
          | Ok tags2fws => ret (Ok (concat (map snd (mapRange rt tags2fws))))
          end
      end
  end.

(** *** [app.go]: the job handlers

    A handler is modelled by the status code it writes; bodies and log
    lines are left out. *)

(** [handleJobError]: 204 for a [googleapi.Error] with code 404, 500 for
    anything else. *)
Definition handleJobError (e : error) : Z :=
  match e with
  | googleapi_Error Code =>
      if negb (Code =? StatusNotFound) then StatusInternalServerError
      else StatusNoContent
  | _ => StatusInternalServerError
  end.

(** What [checkAndDeleteTargetProxiesIfApplicable] reads off the proxy:
    [(tpName, certificates, urlMapURL, timestamp)]. *)
Definition getProxy (app : App) (tpname : string) (isHTTPs : bool)
  : M (result (string * list string * string * string)) :=
  if isHTTPs then
    tp ← GetTargetHttpsProxy app tpname;
    match tp with
    | Err err => ret (Err (errors_Wrap err "failed to get target https proxy"))
    | Ok tp => ret (Ok (TargetHttpsProxy_Name tp, TargetHttpsProxy_SslCertificates tp,
                        TargetHttpsProxy_UrlMap tp, TargetHttpsProxy_CreationTimestamp tp))
    end
  else
    tp ← GetTargetHttpProxy app tpname;
    match tp with
    | Err err => ret (Err (errors_Wrap err "failed to get target http proxy"))
    | Ok tp => ret (Ok (TargetHttpProxy_Name tp, [],
                        TargetHttpProxy_UrlMap tp, TargetHttpProxy_CreationTimestamp tp))
    end.

(** The loop that adds up [len(instances)] over the services. *)
Fixpoint countInstances (app : App) (services : list BackendService) (total : Z)
  : M (result Z) :=
  match services with
  | [] => ret (Ok total)
  | service :: services' =>
      instances ← ListInstancesForService app service;
      match instances with
      | Err err => ret (Err (errors_Wrap err "failed to list instances for service"))
      | Ok instances =>
          countInstances app services' (total + Z.of_nat (length instances))
      end
  end.

(** The certificate tasks; a certificate link that does not parse is
    skipped. *)
Definition certificateTasks (certificates : list string) (expires : string)
  : list Task :=
  flat_map (λ cert,
              let '(certName, _, err) := ParseSslCertificates cert in
              match err with
              | Some _ => []
              | None =>
                  [NewPOSTTask "/job/ssl-certificates/delete"
                     {[ "name" := [certName]; "expires" := [expires] ]}]
              end)
           certificates.

(** The tasks of one backend service: the service, then its health
    checks.  The parse errors are dropped here. *)
Definition serviceTasks (service : BackendService) (expires : string) : list Task :=
  let '(_, bsRegion, _) := ParseBackendServices (BackendService_SelfLink service) in
  NewPOSTTask "/job/backend-services/delete"
    {[ "name" := [BackendService_Name service];
       "region" := [bsRegion];
       "expires" := [expires] ]}
  :: map (λ hc,
            let '(name, _, _) := ParseHealthChecks hc in
            NewPOSTTask "/job/health-checks/delete"
              {[ "name" := [name]; "expires" := [expires] ]})
         (BackendService_HealthChecks service).

(** The task list [tasks] as the planner builds it, in order. *)
Definition deletionTasks (tpName : string) (isHTTPs : bool)
    (certificates : list string) (services : list BackendService)
    (umname fwname region expires : string) : list Task :=
  ([NewPOSTTask "/job/target-http-proxies/delete"
      {[ "name" := [tpName];
         "https" := [strconv.FormatBool isHTTPs];
         "expires" := [expires] ]}]
   ++ (if isHTTPs then certificateTasks certificates expires else [])
   ++ flat_map (λ service, serviceTasks service expires) services
   ++ [NewPOSTTask "/job/url-maps/delete"
         {[ "name" := [umname]; "expires" := [expires] ]}]
   ++ (if 0 <? len fwname
       then [NewPOSTTask "/job/forwarding-rules/delete"
               {[ "name" := [fwname];
                  "region" := [region];
                  "expires" := [expires] ]}]
       else []))%list.

(** [for _, t := range tasks { taskqueue.Add(ctx, t, queueName) }] *)
Fixpoint addTasks (tasks : list Task) : M unit :=
  match tasks with
  | [] => ret tt
  | t :: tasks' => taskqueueAdd t queueName;; addTasks tasks'
  end.

Definition checkAndDeleteTargetProxiesIfApplicable (app : App)
    (fwname region tpname : string) (isHTTPs : bool) : M (option error) :=
  tp ← getProxy app tpname isHTTPs;
  match tp with
  | Err err => ret (Some err)
  | Ok (tpName, certificates, urlMapURL, timestamp) =>
      let t := default time.zero (time_Parse_RFC3339 rt timestamp) in
      n ← now;
      if time.After t (time.Add n (-1 * time.Hour)) then ret None
      else
        let '(umname, _, err) := ParseUrlMap urlMapURL in
        match err with
        | Some err => ret (Some (errors_Wrap err "failed to parse url map selflink"))
        | None =>
            um ← GetUrlMap app umname;
            match um with
            | Err err => ret (Some (errors_Wrap err "failed to get url map"))
            | Ok um =>
                services ← FindBackendServices app um;
                match services with
                | Err err =>
                    ret (Some (errors_Wrap err "failed to find backend services"))
                | Ok services =>
                    total ← countInstances app services 0;
                    match total with
                    | Err err => ret (Some err)
                    | Ok total =>
                        if 0 <? total then ret None
                        else
                          n ← now;
                          let expires :=
                            Time_Format_RFC3339 rt
                              (time.Add (time.UTC n) (15 * time.Minute)) in
                          addTasks (deletionTasks tpName isHTTPs certificates
                                      services umname fwname region expires);;
                          ret None
                    end
                end
            end
        end
  end.

(** [isExpired]: the [expires] value does not parse, or lies before
    now. *)
Definition isExpired (r : Request) : M bool :=
  match time_Parse_RFC3339 rt (FormValue r "expires") with
  | None => ret true
  | Some expires => n ← now; ret (time.After (time.UTC n) expires)
  end.

(** The shape every delete handler shares: the expiry check, the app, then
    the handler's own [body]. *)
Definition deleteHandler (body : App → M Z) (r : Request) : M Z :=
  expired ← isExpired r;
  if (expired : bool) then ret StatusNoContent
  else
    app ← getApp;
    match app with
    | Err _ => ret StatusOK
    | Ok app => body app
    end.

(** [if _, err := <call>.Do(); err != nil { handleJobError(w, r, err); return }] *)
Definition deleteOr (c : ApiCall) (k : M Z) : M Z :=
  res ← call c;
  match res with
  | Err err => ret (handleJobError err)
  | Ok _ => k
  end.

Definition httpForwardingRulesDelete : Request → M Z :=
  λ r, deleteHandler (λ app,
    let name := FormValue r "name" in
    let region := FormValue r "region" in
    if String.eqb region "global" then
      deleteOr (GlobalForwardingRules_Delete (project app) name)
               (ret StatusNoContent)
    else
      deleteOr (ForwardingRules_Delete (project app) region name)
               (ret StatusNoContent)) r.

Definition httpUrlMapsDelete : Request → M Z :=
  λ r, deleteHandler (λ app,
    let name := FormValue r "name" in
    deleteOr (UrlMaps_Delete (project app) name) (ret StatusNoContent)) r.

Definition httpBackendServicesDelete : Request → M Z :=
  λ r, deleteHandler (λ app,
    let name := FormValue r "name" in
    let region := FormValue r "region" in
    if String.eqb region "global" then
      deleteOr (BackendServices_Delete (project app) name)
               (ret StatusNoContent)
    else
      deleteOr (RegionBackendServices_Delete (project app) region name)
               (ret StatusNoContent)) r.

Definition httpSslCertificatesDelete : Request → M Z :=
  λ r, deleteHandler (λ app,
    let name := FormValue r "name" in
    deleteOr (SslCertificates_Delete (project app) name) (ret StatusNoContent)) r.

Definition httpTargetPoolsDelete : Request → M Z :=
  λ r, deleteHandler (λ app,
    let name := FormValue r "name" in
    let region := FormValue r "region" in
    deleteOr (TargetPools_Delete (project app) region name)
             (ret StatusNoContent)) r.

Definition httpHealthChecksDelete : Request → M Z :=
  λ r, deleteHandler (λ app,
    let name := FormValue r "name" in
    deleteOr (HealthChecks_Delete (project app) name) (ret StatusNoContent)) r.

Definition httpTargetProxiesDelete : Request → M Z :=
  λ r, deleteHandler (λ app,
    let name := FormValue r "name" in
    let isHTTPs := fst (strconv.ParseBool (FormValue r "https")) in
    if isHTTPs then
      deleteOr (TargetHttpsProxies_Delete (project app) name)
               (ret StatusNoContent)
    else
      deleteOr (TargetHttpProxies_Delete (project app) name)
               (ret StatusNoContent)) r.

(** The delete loop of [httpFirewallsCheck]. *)
Fixpoint httpFirewallsCheck_loop (app : App) (firewalls : list Firewall) : M Z :=
  match firewalls with
  | [] => ret StatusNoContent
  | fw :: firewalls' =>
      deleteOr (Firewalls_Delete (project app) (Firewall_Name fw))
               (httpFirewallsCheck_loop app firewalls')
  end.

Definition httpFirewallsCheck : Request → M Z :=
  λ r,
    app ← getApp;
    match app with
    | Err _ => ret StatusOK
    | Ok app =>
        firewalls ← ListDanglingFirewalls app;
        match firewalls with
        | Err err => ret (handleJobError err)
        | Ok firewalls => httpFirewallsCheck_loop app firewalls
        end
    end.

Definition httpTargetPoolCheck : Request → M Z :=
  λ r,
    app ← getApp;
    match app with
    | Err _ => ret StatusOK
    | Ok app =>
        let tpname := FormValue r "tp_name" in
        let fwname := FormValue r "forwarding_rule" in
        let region := FormValue r "region" in
        let isHTTPs := fst (strconv.ParseBool (FormValue r "https")) in
        err ← checkAndDeleteTargetProxiesIfApplicable app fwname region tpname isHTTPs;
        match err with
        | Some _ => ret StatusNoContent
        | None => ret StatusNoContent
        end
    end.

(** The first loop of [httpForwardingRulesCheck]: one check job per
    forwarding rule whose target parses; the proxies seen are
    remembered. *)
Fixpoint httpForwardingRulesCheck_rules (fwrs : list ForwardingRule)
    (seenHttpProxies seenHttpsProxies : gset string)
  : M (gset string * gset string) :=
  match fwrs with
  | [] => ret (seenHttpProxies, seenHttpsProxies)
  | fwr :: fwrs' =>
      let '(tpname, region, isHTTPs, err) := ParseTargetProxy (ForwardingRule_Target fwr) in
      match err with
      | Some _ => httpForwardingRulesCheck_rules fwrs' seenHttpProxies seenHttpsProxies
      | None =>
          let seenHttpsProxies' :=
            if isHTTPs then {[ tpname ]} ∪ seenHttpsProxies else seenHttpsProxies in
          let seenHttpProxies' :=
            if isHTTPs then seenHttpProxies else {[ tpname ]} ∪ seenHttpProxies in
          taskqueueAdd
            (NewPOSTTask "/job/target-pools/check"
               {[ "forwarding_rule" := [ForwardingRule_Name fwr];
                  "tp_name" := [tpname];
                  "region" := [region];
                  "https" := [strconv.FormatBool isHTTPs] ]})
            queueName;;
          httpForwardingRulesCheck_rules fwrs' seenHttpProxies' seenHttpsProxies'
      end
  end.

(** The orphan-proxy loops: every [k8s-tp] proxy no forwarding rule
    targets is checked with an empty forwarding rule name and region. *)
Fixpoint httpForwardingRulesCheck_orphans (app : App) (names : list string)
    (seen : gset string) (isHTTPs : bool) : M unit :=
  match names with
  | [] => ret tt
  | name :: names' =>
      if negb (strings.HasPrefix name "k8s-tp")
      then httpForwardingRulesCheck_orphans app names' seen isHTTPs
      else if bool_decide (name ∈ seen)
      then httpForwardingRulesCheck_orphans app names' seen isHTTPs
      else
        checkAndDeleteTargetProxiesIfApplicable app "" "" name isHTTPs;;
        httpForwardingRulesCheck_orphans app names' seen isHTTPs
  end.

Definition httpForwardingRulesCheck : Request → M Z :=
  λ r,
    app ← getApp;
    match app with
    | Err _ => ret StatusOK
    | Ok app =>
        fwrs ← ListIngressForwardingRules app;
        match fwrs with
        | Err _ => ret StatusOK
        | Ok fwrs =>
            '(seenHttpProxies, seenHttpsProxies) ←
              httpForwardingRulesCheck_rules fwrs ∅ ∅;
            l ← call (TargetHttpProxies_List (project app));
            match l with
            | Ok items =>
                httpForwardingRulesCheck_orphans app
                  (map TargetHttpProxy_Name items) seenHttpProxies false
            | Err _ => ret tt
            end;;
            l ← call (TargetHttpsProxies_List (project app));
            match l with
            | Ok items =>
                httpForwardingRulesCheck_orphans app
                  (map TargetHttpsProxy_Name items) seenHttpsProxies true
            | Err _ => ret tt
            end;;
            ret StatusNoContent
        end
    end.

(** The routes [init] registers with [http.HandleFunc], in its order. *)
Definition routes : list (string * (Request → M Z)) :=
  [ ("/job/forwarding-rules/check", httpForwardingRulesCheck);
    ("/job/firewall-rules/check", httpFirewallsCheck);
    ("/job/forwarding-rules/delete", httpForwardingRulesDelete);
    ("/job/url-maps/delete", httpUrlMapsDelete);
    ("/job/ssl-certificates/delete", httpBackendServicesDelete);
    ("/job/backend-services/delete", httpBackendServicesDelete);
    ("/job/target-pools/check", httpTargetPoolCheck);
    ("/job/target-pools/delete", httpTargetPoolsDelete);
    ("/job/target-http-proxies/delete", httpTargetProxiesDelete);
    ("/job/health-checks/delete", httpHealthChecksDelete) ].

(** The handler registered for [path], if any. *)
Fixpoint route (rs : list (string * (Request → M Z))) (path : string)
  : option (Request → M Z) :=
  match rs with
  | [] => None
  | (pattern, h) :: rs' => if String.eqb pattern path then Some h else route rs' path
  end.

(** The server: a request goes to the handler registered for its path;
    the mux answers 404 where there is none. *)
Definition serve (r : Request) : M Z :=
  match route routes (Request_Path r) with
  | Some h => h r
  | None => ret StatusNotFound
  end.

(** The worker's side of one delivery of a task. *)
Definition worker (t : Task) : M Z := serve (deliver t).

End Program.

Arguments State : clear implicits.
Arguments M : clear implicits.

(** The work queue takes any 2xx status as the completion signal and
    redelivers on anything else. *)
Definition acknowledged (status : Z) : bool :=
  (200 <=? status) && (status <? 300).

(** ** Reading a run *)

(** The tasks a trace handed to the work queue, in order. *)
Definition enqueued (tr : list Event) : list Task :=
  omap (λ e, match e with taskqueue_Add t _ => Some t | Api _ => None end) tr.

(** The API calls of a trace, in order. *)
Definition apiCalls (tr : list Event) : list ApiCall :=
  omap (λ e, match e with Api c => Some c | taskqueue_Add _ _ => None end) tr.

(** The error of a call, if it failed. *)
Definition failure {A} (r : result A) : option error :=
  match r with
  | Ok _ => None
  | Err e => Some e
  end.

(** The paths of the deletion tasks the planner emits, and of the
    target-pool deletion the server also registers. *)
Definition deletePaths : list string :=
  [ "/job/forwarding-rules/delete";
    "/job/url-maps/delete";
    "/job/ssl-certificates/delete";
    "/job/backend-services/delete";
    "/job/target-pools/delete";
    "/job/target-http-proxies/delete";
    "/job/health-checks/delete" ].

(** Reading a link of the collection [keyword]: whether it parses, and
    the name and the region it gives. *)
Definition parses (keyword link : string) : Prop :=
  (parseURL link keyword).2 = None.

#[global] Instance parses_dec (keyword link : string) : Decision (parses keyword link).
Proof. unfold parses. apply _. Defined.

Definition linkName (keyword link : string) : string :=
  (parseURL link keyword).1.1.

Definition linkRegion (keyword link : string) : string :=
  (parseURL link keyword).1.2.

(** ** The resolved tree, as the cloud shows it during one check

    A snapshot says what the cloud answers about backend services and
    instance-group membership for the length of a run. *)
Record Snapshot := {
  snap_backendService : string → result BackendService;
  snap_instances : string → string → result (list InstanceWithNamedPorts) }.

Definition shows {World} (rt : Runtime World) (p : string) (snap : Snapshot) : Prop :=
  (∀ w name,
     (Do rt (BackendServices_Get p name) w).1 = snap_backendService snap name) ∧
  (∀ w zone name,
     (Do rt (InstanceGroups_ListInstances p zone name "ALL") w).1
     = snap_instances snap zone name).

(** The backend service a path rule names, when its link parses and the
    service exists. *)
Definition ruleService (snap : Snapshot) (pr : PathRule) : option BackendService :=
  let '(sname, _, err) := ParseService (PathRule_Service pr) in
  match err with
  | Some _ => None
  | None =>
      match snap_backendService snap sname with
      | Ok s => Some s
      | Err _ => None
      end
  end.

(** The backend services the path rules of the url map name, matcher by
    matcher, in order; [None] when one of them does not resolve. *)
Definition pathRuleServices (snap : Snapshot) (um : UrlMap)
  : option (list BackendService) :=
  mapM (ruleService snap) (concat (map PathMatcher_PathRules (UrlMap_PathMatchers um))).

(** Every backend service the url map reaches, as a routing table: the
    default service of the url map, then for each path matcher its
    default service and the services of its path rules; [None] when one
    of them does not resolve. *)
Definition reachableServices (snap : Snapshot) (um : UrlMap)
  : option (list BackendService) :=
  mapM (λ link, ruleService snap {| PathRule_Service := link |})
       (UrlMap_DefaultService um
        :: flat_map (λ pm, PathMatcher_DefaultService pm
                           :: map PathRule_Service (PathMatcher_PathRules pm))
             (UrlMap_PathMatchers um)).

(** The instance count of one instance group: the length of its listing,
    zero when the listing fails; [None] when the group link does not
    parse. *)
Definition groupInstanceCount (snap : Snapshot) (b : Backend) : option Z :=
  let '(name, zone, err) := ParseInstanceGroup (Backend_Group b) in
  match err with
  | Some _ => None
  | None =>
      match snap_instances snap zone name with
      | Ok items => Some (Z.of_nat (length items))
      | Err _ => Some 0
      end
  end.

Definition sumZ (l : list Z) : Z := foldr Z.add 0 l.

(** The sum of the instance counts over every instance group of every
    given backend service. *)
Definition instanceCount (snap : Snapshot) (services : list BackendService)
  : option Z :=
  sumZ <$> mapM (groupInstanceCount snap) (concat (map BackendService_Backends services)).

Section Resolution.

Context {World : Type} (rt : Runtime World).

(** The tasks a computation hands to the work queue when it runs from
    [st], and the API calls it makes. *)
Definition emitted {A} (m : M World A) (st : State World) : list Task :=
  drop (length (enqueued (trace st))) (enqueued (trace (m st).2)).

Definition called {A} (m : M World A) (st : State World) : list ApiCall :=
  drop (length (apiCalls (trace st))) (apiCalls (trace (m st).2)).

(** What a check knows once it has fetched the proxy and read the clock
    for the grace check. *)
Record Proxy := {
  proxy_tpName : string;
  proxy_certificates : list string;
  proxy_urlMapURL : string;
  proxy_created : Time;
  proxy_checkedAt : Time }.

(** From [st], the check finds the proxy and reads the clock, reaching
    [st']. *)
Definition findsProxy (app : App) (tpname : string) (isHTTPs : bool)
    (st : State World) (px : Proxy) (st' : State World) : Prop :=
  ∃ timestamp st1,
    getProxy rt app tpname isHTTPs st
      = (Ok (proxy_tpName px, proxy_certificates px, proxy_urlMapURL px, timestamp), st1)
    ∧ proxy_created px = default time.zero (time_Parse_RFC3339 rt timestamp)
    ∧ now rt st1 = (proxy_checkedAt px, st').

(** The rest of the tree under a proxy: the url map, its backend
    services and the number of instances counted under them. *)
Record Tree := {
  tree_umname : string;
  tree_um : UrlMap;
  tree_services : list BackendService;
  tree_total : Z }.

(** From [st], the url map link parses and the url map, the backend
    services and the instance listings resolve, reaching [st']. *)
Definition resolvesTree (app : App) (px : Proxy) (st : State World)
    (tr : Tree) (st' : State World) : Prop :=
  ∃ region st1 st2,
    ParseUrlMap (proxy_urlMapURL px) = (tree_umname tr, region, None)
    ∧ GetUrlMap rt app (tree_umname tr) st = (Ok (tree_um tr), st1)
    ∧ FindBackendServices rt app (tree_um tr) st1 = (Ok (tree_services tr), st2)
    ∧ countInstances rt app (tree_services tr) 0 st2 = (Ok (tree_total tr), st').

(** Created less than one hour before the clock reading. *)
Definition withinGrace (px : Proxy) : Prop :=
  proxy_checkedAt px - proxy_created px < time.Hour.

(** A computation is quiet when it hands nothing to the work queue. *)
Definition quiet {A} (m : M World A) : Prop :=
  ∀ st, enqueued (trace (m st).2) = enqueued (trace st).

(** The plan of a check: the task list for the resolved proxy and tree,
    stamped with the expiry computed from the clock reading [n]. *)
Definition planAt (px : Proxy) (tr : Tree) (isHTTPs : bool)
    (fwname region : string) (n : Time) : list Task :=
  deletionTasks (proxy_tpName px) isHTTPs (proxy_certificates px)
    (tree_services tr) (tree_umname tr) fwname region
    (Time_Format_RFC3339 rt (time.Add (time.UTC n) (15 * time.Minute))).

End Resolution.

(** The call that fetches the proxy. *)
Definition proxyGet (app : App) (tpname : string) (isHTTPs : bool) : ApiCall :=
  if isHTTPs then TargetHttpsProxies_Get (project app) tpname
  else TargetHttpProxies_Get (project app) tpname.

(** The task carries the expiry stamp [expires]. *)
Definition stamped (expires : string) (t : Task) : Prop :=
  Task_Params t !! "expires" = Some [expires].

(** ** Reading the firewall pass *)

(** A tag of the controller's naming convention. *)
Definition gke (tag : string) : Prop := strings.HasPrefix tag "gke-" = true.

(** The tag is on an instance listed in one of the zones; [instances]
    gives the listing of a zone by its name. *)
Definition observed (zones : list Zone) (instances : string → list Instance)
    (tag : string) : Prop :=
  ∃ zone instance,
    zone ∈ zones ∧ instance ∈ instances (Zone_Name zone)
    ∧ tag ∈ Instance_Tags instance.

(** A firewall rule with a [gke-] target tag that no listed instance
    carries. *)
Definition dangling (zones : list Zone) (instances : string → list Instance)
    (fw : Firewall) : Prop :=
  ∃ tag, tag ∈ Firewall_TargetTags fw ∧ gke tag ∧ ¬ observed zones instances tag.

(** The names of the firewall rules a trace asked the cloud to delete, in
    order. *)
Definition deletions (tr : list Event) : list string :=
  omap (λ e, match e with
             | Api (Firewalls_Delete _ name) => Some name
             | _ => None
             end) tr.

(** The firewall deletions a computation asks for when it runs from
    [st]. *)
Definition deleted {World A} (m : M World A) (st : State World) : list string :=
  drop (length (deletions (trace st))) (deletions (trace (m st).2)).

(** What the cloud shows of the network for the length of a pass: the
    firewall rules, the zones and the instances of every zone. *)
Definition showsNetwork {World} (rt : Runtime World) (p : string)
    (fws : list Firewall) (zones : list Zone)
    (instances : string → list Instance) : Prop :=
  (∀ w, (Do rt (Firewalls_List p) w).1 = Ok fws)
  ∧ (∀ w, (Do rt (Zones_List p) w).1 = Ok zones)
  ∧ (∀ w zone, zone ∈ zones →
       (Do rt (Instances_List p (Zone_Name zone)) w).1
       = Ok (instances (Zone_Name zone))).

(** Every firewall delete succeeds. *)
Definition deletesSucceed {World} (rt : Runtime World) (p : string) : Prop :=
  ∀ w name, failure (Do rt (Firewalls_Delete p name) w).1 = None.

(** [fw] is listed under [tag] in the map. *)
Definition keyed (m : gmap string (list Firewall)) (tag : string) (fw : Firewall)
  : Prop :=
  ∃ l, m !! tag = Some l ∧ fw ∈ l.

#[global] Instance gke_dec (tag : string) : Decision (gke tag).
Proof. unfold gke. apply _. Defined.

#[global] Instance observed_dec (zones : list Zone)
    (instances : string → list Instance) (tag : string) :
  Decision (observed zones instances tag).
Proof.
  refine (cast_if (decide (Exists (λ zone,
            Exists (λ instance, tag ∈ Instance_Tags instance)
                   (instances (Zone_Name zone))) zones))).
  - apply Exists_exists in e as (zone & Hz & He).
    apply Exists_exists in He as (instance & Hi & Ht). by exists zone, instance.
  - intros (zone & instance & Hz & Hi & Ht). apply n.
    apply Exists_exists. exists zone. split; [done|].
    apply Exists_exists. by exists instance.
Defined.

(** The [gke-] target tags of a rule that no listed instance carries, one
    for each time the rule names such a tag. *)
Definition danglingTags (zones : list Zone) (instances : string → list Instance)
    (fw : Firewall) : list string :=
  filter (λ tag, gke tag ∧ ¬ observed zones instances tag) (Firewall_TargetTags fw).

(** What the scan of the zones leaves of the map built from the rules
    [fws]: the entries whose tag no listed instance carries. *)
Definition scanned (fws : list Firewall) (zones : list Zone)
    (instances : string → list Instance) (m : gmap string (list Firewall)) : Prop :=
  ∀ tag l, m !! tag = Some l
           ↔ tags2fws_of fws !! tag = Some l
             ∧ ¬ (gke tag ∧ observed zones instances tag).

(** The map as a list of (tag, rule) entries. *)
Definition entries (m : gmap string (list Firewall)) : list (string * Firewall) :=
  flat_map (λ kl, map (pair kl.1) kl.2) (map_to_list m).

(** The entries a rule brings: one for each of its [gke-] target tags. *)
Definition ruleEntries (fw : Firewall) : list (string * Firewall) :=
  flat_map (λ tag, if strings.HasPrefix tag "gke-" then [(tag, fw)] else [])
           (Firewall_TargetTags fw).

(** ** Reading what a run adds *)

(** A computation adds only events that satisfy [P]: from any state, the
    trace it leaves is the trace it found followed by such events. *)
Definition adds {World A} (P : Event → Prop) (m : M World A) : Prop :=
  ∀ st, ∃ evs, trace (m st).2 = (trace st ++ evs)%list ∧ Forall P evs.

(** The event deletes nothing: a task handed to the queue, or a call of a
    [Get] or [List] method. *)
Definition reads (e : Event) : Prop :=
  match e with
  | Api c => is_delete c = false
  | taskqueue_Add _ _ => True
  end.

(** The event is one a check may add: a call that deletes nothing, or a
    check or deletion task handed to the queue [q]. *)
Definition checks (q : string) (e : Event) : Prop :=
  match e with
  | Api c => is_delete c = false
  | taskqueue_Add t q' =>
      q' = q ∧ Task_Path t ∈ "/job/target-pools/check" :: deletePaths
  end.

(** The link parses as a target proxy. *)
Definition targets (fwr : ForwardingRule) : Prop :=
  (ParseTargetProxy (ForwardingRule_Target fwr)).2 = None.

#[global] Instance targets_dec (fwr : ForwardingRule) : Decision (targets fwr).
Proof. unfold targets. apply _. Defined.

(** The check job [httpForwardingRulesCheck] hands to the queue for a
    forwarding rule. *)
Definition checkTask (fwr : ForwardingRule) : Task :=
  let '(tpname, region, isHTTPs, _) := ParseTargetProxy (ForwardingRule_Target fwr) in
  NewPOSTTask "/job/target-pools/check"
    {[ "forwarding_rule" := [ForwardingRule_Name fwr];
       "tp_name" := [tpname];
       "region" := [region];
       "https" := [strconv.FormatBool isHTTPs] ]}.

(** Delivered unexpired to a worker that has its app, the task makes the
    one API call [c app]. *)
Definition executes {World} (rt : Runtime World) (t : Task) (c : App → ApiCall)
  : Prop :=
  ∀ st st1 st2 app,
    isExpired rt (deliver t) st = (false, st1) →
    getApp rt st1 = (Ok app, st2) →
    trace (worker rt t st).2 = (trace st ++ [Api (c app)])%list.

(** ** [AppengineApp], past its cache

    [client] is what [google.DefaultClient] returns, [id] is
    [appengine.AppID(ctx)] and [service] is what [compute.New] returns for
    the client.  The package variable [app] is never assigned, so every
    call takes this path. *)
Definition New (project : string) (service : result unit) : result App :=
  match service with
  | Err err => Err (errors_Wrap err "failed to create compute.Service")
  | Ok _ => Ok {| project := project |}
  end.

Definition AppengineApp_new (client : result unit) (id : string)
    (service : result unit) : result App :=
  match client with
  | Err err => Err (errors_Wrap err "failed to create google default client")
  | Ok _ =>
      let i := strings.Index id ":" in
      let id := if 0 <? i then slice_from id i else id in
      New id service
  end.

(** ** A small project to run the program on *)

Module Fixture.

(** A clock format for the fixture: the UTC, whole-second form
    [YYYY-MM-DDTHH:MM:SSZ] of RFC 3339. *)
Definition digit (c : Ascii.ascii) : option Z :=
  let n := Z.of_N (Ascii.N_of_ascii c) in
  if (48 <=? n) && (n <=? 57) then Some (n - 48) else None.

Fixpoint number (s : string) (acc : Z) : option Z :=
  match s with
  | EmptyString => Some acc
  | String c s' => d ← digit c; number s' (10 * acc + d)
  end.

Definition days_from_civil (y m d : Z) : Z :=
  let y := if m <=? 2 then y - 1 else y in
  let era := y / 400 in
  let yoe := y - era * 400 in
  let doy := (153 * (if 2 <? m then m - 3 else m + 9) + 2) / 5 + d - 1 in
  let doe := yoe * 365 + yoe / 4 - yoe / 100 + doy in
  era * 146097 + doe - 719468.

Definition civil_from_days (z : Z) : Z * Z * Z :=
  let z := z + 719468 in
  let era := z / 146097 in
  let doe := z - era * 146097 in
  let yoe := (doe - doe / 1460 + doe / 36524 - doe / 146096) / 365 in
  let doy := doe - (365 * yoe + yoe / 4 - yoe / 100) in
  let mp := (5 * doy + 2) / 153 in
  let d := doy - (153 * mp + 2) / 5 + 1 in
  let m := if mp <? 10 then mp + 3 else mp - 9 in
  (yoe + era * 400 + (if m <=? 2 then 1 else 0), m, d).

Definition field (s : string) (from n : nat) : option Z :=
  number (String.substring from n s) 0.

Definition sep (s : string) (i : nat) (c : string) : option unit :=
  if String.eqb (String.substring i 1 s) c then Some tt else None.

Definition parse (s : string) : option Time :=
  if negb (String.length s =? 20)%nat then None
  else
    y ← field s 0 4; sep s 4 "-";; mo ← field s 5 2; sep s 7 "-";;
    d ← field s 8 2; sep s 10 "T";; h ← field s 11 2; sep s 13 ":";;
    mi ← field s 14 2; sep s 16 ":";; sec ← field s 17 2; sep s 19 "Z";;
    Some ((((days_from_civil y mo d * 24 + h) * 60 + mi) * 60 + sec) * time.Second).

Definition digits (width : nat) (n : Z) : string :=
  (fix go (w : nat) (n : Z) (acc : string) : string :=
     match w with
     | O => acc
     | S w' =>
         go w' (n / 10)
            (String (Ascii.ascii_of_N (Z.to_N (48 + n mod 10))) acc)
     end) width n "".

Definition format (t : Time) : string :=
  let secs := t / time.Second in
  let '(y, mo, d) := civil_from_days (secs / 86400) in
  let r := secs mod 86400 in
  digits 4 y ++ "-" ++ digits 2 mo ++ "-" ++ digits 2 d ++ "T"
  ++ digits 2 (r / 3600) ++ ":" ++ digits 2 (r / 60 mod 60) ++ ":"
  ++ digits 2 (r mod 60) ++ "Z".

(** The project. *)
Definition p : string := "builderscon-1248".

Definition link (scope collection name : string) : string :=
  "https://www.googleapis.com/compute/v1/projects/" ++ p ++ "/" ++ scope
  ++ "/" ++ collection ++ "/" ++ name.

Record Cloud := {
  httpProxies : list TargetHttpProxy;
  httpsProxies : list TargetHttpsProxy;
  urlMaps : list (string * UrlMap);
  backendServices : list BackendService;
  instanceGroups : list (string * string * result (list InstanceWithNamedPorts));
  forwardingRules : list (list ForwardingRule);
  firewalls : list Firewall;
  zones : list (string * list Instance);
  (** how the cloud answers a delete *)
  deletes : ApiCall → option error }.

Definition notFound {A} : result A := Err (googleapi_Error StatusNotFound).

Definition found {A} (o : option A) : result A :=
  match o with
  | Some a => Ok a
  | None => notFound
  end.

Definition answerDelete (cl : Cloud) (c : ApiCall) : result unit :=
  match deletes cl c with
  | Some e => Err e
  | None => Ok tt
  end.

Definition answer (cl : Cloud) (c : ApiCall) : result (Reply c) :=
  match c as c return result (Reply c) with
  | ForwardingRules_AggregatedList _ => Ok (forwardingRules cl)
  | TargetHttpProxies_Get _ name =>
      found (List.find (λ tp, String.eqb (TargetHttpProxy_Name tp) name) (httpProxies cl))
  | TargetHttpsProxies_Get _ name =>
      found (List.find (λ tp, String.eqb (TargetHttpsProxy_Name tp) name) (httpsProxies cl))
  | TargetHttpProxies_List _ => Ok (httpProxies cl)
  | TargetHttpsProxies_List _ => Ok (httpsProxies cl)
  | UrlMaps_Get _ name =>
      found (snd <$> List.find (λ um, String.eqb (fst um) name) (urlMaps cl))
  | BackendServices_Get _ name =>
      found (List.find (λ s, String.eqb (BackendService_Name s) name) (backendServices cl))
  | InstanceGroups_ListInstances _ zone name _ =>
      match List.find (λ g, String.eqb (fst (fst g)) zone && String.eqb (snd (fst g)) name)
                      (instanceGroups cl) with
      | Some g => snd g
      | None => notFound
      end
  | Firewalls_List _ => Ok (firewalls cl)
  | Zones_List _ => Ok (map (λ z, {| Zone_Name := fst z |}) (zones cl))
  | Instances_List _ zone =>
      found (snd <$> List.find (λ z, String.eqb (fst z) zone) (zones cl))
  | GlobalForwardingRules_Delete a b => answerDelete cl (GlobalForwardingRules_Delete a b)
  | ForwardingRules_Delete a b d => answerDelete cl (ForwardingRules_Delete a b d)
  | UrlMaps_Delete a b => answerDelete cl (UrlMaps_Delete a b)
  | BackendServices_Delete a b => answerDelete cl (BackendServices_Delete a b)
  | RegionBackendServices_Delete a b d => answerDelete cl (RegionBackendServices_Delete a b d)
  | SslCertificates_Delete a b => answerDelete cl (SslCertificates_Delete a b)
  | TargetPools_Delete a b d => answerDelete cl (TargetPools_Delete a b d)
  | HealthChecks_Delete a b => answerDelete cl (HealthChecks_Delete a b)
  | TargetHttpsProxies_Delete a b => answerDelete cl (TargetHttpsProxies_Delete a b)
  | TargetHttpProxies_Delete a b => answerDelete cl (TargetHttpProxies_Delete a b)
  | Firewalls_Delete a b => answerDelete cl (Firewalls_Delete a b)
  end.

(** The runtime over a cloud that does not change and a clock that
    stands at [clock]. *)
Definition runtime (cl : Cloud) (clock : Time) : Runtime unit := {|
  Do c w := (answer cl c, w);
  time_Now w := (clock, w);
  time_Parse_RFC3339 := parse;
  Time_Format_RFC3339 := format;
  AppengineApp w := (Ok {| project := p |}, w);
  enqueue _ _ w := w;
  os_Getenv _ := "";
  mapRange m := map_to_list m |}.

Definition start : State unit := {| world := tt; trace := [] |}.

Definition app : App := {| project := p |}.

(** noon, 1 December 2017 *)
Definition noon : Time := 1512129600 * time.Second.

(** An ingress load balancer: HTTPS proxy, url map, one backend service
    with one instance group and one health check, one certificate. *)
Definition service : BackendService := {|
  BackendService_Name := "k8s-be-30000";
  BackendService_SelfLink := link "global" "backendServices" "k8s-be-30000";
  BackendService_Backends :=
    [ {| Backend_Group := link "zones/us-central1-a" "instanceGroups" "k8s-ig" |} ];
  BackendService_HealthChecks := [ link "global" "healthChecks" "k8s-be-30000" ] |}.

Definition urlMap : UrlMap := {|
  UrlMap_DefaultService := link "global" "backendServices" "k8s-be-30000";
  UrlMap_PathMatchers :=
    [ {| PathMatcher_DefaultService := link "global" "backendServices" "k8s-be-30000";
         PathMatcher_PathRules :=
           [ {| PathRule_Service := link "global" "backendServices" "k8s-be-30000" |} ] |} ] |}.

Definition httpsProxy (created : string) : TargetHttpsProxy := {|
  TargetHttpsProxy_Name := "k8s-tps-default-app";
  TargetHttpsProxy_SslCertificates := [ link "global" "sslCertificates" "k8s-ssl-default-app" ];
  TargetHttpsProxy_UrlMap := link "global" "urlMaps" "k8s-um-default-app";
  TargetHttpsProxy_CreationTimestamp := created |}.

(** The balancer with its proxy created at [created] and [instances] in
    its instance group. *)
Definition balancer (created : string) (instances : list string) : Cloud := {|
  httpProxies := [];
  httpsProxies := [ httpsProxy created ];
  urlMaps := [ ("k8s-um-default-app", urlMap) ];
  backendServices := [ service ];
  instanceGroups :=
    [ ("us-central1-a", "k8s-ig",
       Ok (map (λ i, {| InstanceWithNamedPorts_Instance := i |}) instances)) ];
  forwardingRules :=
    [ [ {| ForwardingRule_Name := "k8s-fw-default-app";
           ForwardingRule_Target := link "global" "targetHttpsProxies" "k8s-tps-default-app" |} ] ];
  firewalls := [];
  zones := [];
  deletes := λ _, None |}.

(** The same cloud, with every delete failing with [e]. *)
Definition failing (cl : Cloud) (e : error) : Cloud := {|
  httpProxies := httpProxies cl;
  httpsProxies := httpsProxies cl;
  urlMaps := urlMaps cl;
  backendServices := backendServices cl;
  instanceGroups := instanceGroups cl;
  forwardingRules := forwardingRules cl;
  firewalls := firewalls cl;
  zones := zones cl;
  deletes := λ _, Some e |}.

(** A project with firewall rules and instances only. *)
Definition network (fws : list Firewall) (zs : list (string * list Instance)) : Cloud := {|
  httpProxies := [];
  httpsProxies := [];
  urlMaps := [];
  backendServices := [];
  instanceGroups := [];
  forwardingRules := [];
  firewalls := fws;
  zones := zs;
  deletes := λ _, None |}.

(** Three runs at noon: the balancer created three hours ago without
    instances, the same with one instance, and the balancer created half
    an hour ago without instances. *)
Definition dead : Runtime unit := runtime (balancer "2017-12-01T09:00:00Z" []) noon.
Definition live : Runtime unit := runtime (balancer "2017-12-01T09:00:00Z" ["i-1"]) noon.
Definition young : Runtime unit := runtime (balancer "2017-12-01T11:30:00Z" []) noon.

(** The balancer created two hours ago, and one whose creation
    timestamp is no timestamp. *)
Definition twoHours : Runtime unit := runtime (balancer "2017-12-01T10:00:00Z" []) noon.
Definition undated : Runtime unit := runtime (balancer "yesterday" []) noon.

(** What a cloud shows of its backend services and instance groups. *)
Definition snapshot (cl : Cloud) : Snapshot := {|
  snap_backendService name := answer cl (BackendServices_Get p name);
  snap_instances zone name := answer cl (InstanceGroups_ListInstances p zone name "ALL") |}.

(** The proxy of the balancer as a check at noon finds it. *)
Definition proxyFound (created : Time) : Proxy := {|
  proxy_tpName := "k8s-tps-default-app";
  proxy_certificates := [ link "global" "sslCertificates" "k8s-ssl-default-app" ];
  proxy_urlMapURL := link "global" "urlMaps" "k8s-um-default-app";
  proxy_created := created;
  proxy_checkedAt := noon |}.

Definition tree : Tree := {|
  tree_umname := "k8s-um-default-app";
  tree_um := urlMap;
  tree_services := [ service ];
  tree_total := 0 |}.

(** Deletion tasks with the expiry [expires]. *)
Definition urlMapTask (expires : string) : Task :=
  NewPOSTTask "/job/url-maps/delete"
    {[ "name" := ["k8s-um-default-app"]; "expires" := [expires] ]}.

(** A firewall rule with two [gke-] tags, and a zone with one instance
    that carries [tags]. *)
Definition rule : Firewall := {|
  Firewall_Name := "gke-cluster-1-vms";
  Firewall_TargetTags := ["gke-a"; "gke-b"] |}.

Definition zoneA : Zone := {| Zone_Name := "us-central1-a" |}.

Definition instancesOf (tags : list string) (zone : string) : list Instance :=
  if String.eqb zone "us-central1-a" then [ {| Instance_Tags := tags |} ] else [].

Definition cluster (tags : list string) : Runtime unit :=
  runtime (network [rule] [("us-central1-a", [ {| Instance_Tags := tags |} ])]) noon.

Definition request : Request := {| Request_Path := "/job/firewall-rules/check"; Request_Form := ∅ |}.

(** The state of a run from [start] that has made the calls [calls]. *)
Definition ran (calls : list ApiCall) : State unit :=
  {| world := tt; trace := map Api calls |}.

(** The calls of a check of the balancer: the proxy, then the tree. *)
Definition proxyCalls : list ApiCall :=
  [ TargetHttpsProxies_Get p "k8s-tps-default-app" ].

Definition treeCalls : list ApiCall :=
  [ TargetHttpsProxies_Get p "k8s-tps-default-app";
    UrlMaps_Get p "k8s-um-default-app";
    BackendServices_Get p "k8s-be-30000";
    InstanceGroups_ListInstances p "us-central1-a" "k8s-ig" "ALL" ].

End Fixture.

(** ** The fixture, with faults *)

Module Faults.

Import Fixture.

(** The runtime [rt], on an instance that has no default credentials:
    [AppengineApp] fails. *)
Definition withoutApp (rt : Runtime unit) : Runtime unit := {|
  Do := Do rt;
  time_Now := time_Now rt;
  time_Parse_RFC3339 := time_Parse_RFC3339 rt;
  Time_Format_RFC3339 := Time_Format_RFC3339 rt;
  AppengineApp w :=
    (AppengineApp_new (Err (errors_New "could not find default credentials"))
       p (Ok tt), w);
  enqueue := enqueue rt;
  os_Getenv := os_Getenv rt;
  mapRange := mapRange rt |}.

(** The runtime [rt], in a project whose instances cannot be listed. *)
Definition withoutInstances (rt : Runtime unit) : Runtime unit := {|
  Do c :=
    match c as c return unit → result (Reply c) * unit with
    | Instances_List _ _ => λ w, (notFound, w)
    | c => Do rt c
    end;
  time_Now := time_Now rt;
  time_Parse_RFC3339 := time_Parse_RFC3339 rt;
  Time_Format_RFC3339 := Time_Format_RFC3339 rt;
  AppengineApp := AppengineApp rt;
  enqueue := enqueue rt;
  os_Getenv := os_Getenv rt;
  mapRange := mapRange rt |}.

(** A firewall rule that is not the controller's, and a project with this
    rule only. *)
Definition plain : Firewall := {|
  Firewall_Name := "default-allow-ssh";
  Firewall_TargetTags := ["bastion"] |}.

Definition unmanaged : Runtime unit :=
  runtime (network [plain] [("us-central1-a", [ {| Instance_Tags := ["bastion"] |} ])]) noon.

(** The forwarding rule of the balancer. *)
Definition forwardingRule : ForwardingRule := {|
  ForwardingRule_Name := "k8s-fw-default-app";
  ForwardingRule_Target := link "global" "targetHttpsProxies" "k8s-tps-default-app" |}.

(** A url map that sends everything to its default service and has no
    path matcher, and the balancer with this url map: the proxy three
    hours old, one instance behind the service. *)
Definition defaultUrlMap : UrlMap := {|
  UrlMap_DefaultService := link "global" "backendServices" "k8s-be-30000";
  UrlMap_PathMatchers := [] |}.

Definition defaultOnly : Cloud := {|
  httpProxies := [];
  httpsProxies := [ httpsProxy "2017-12-01T09:00:00Z" ];
  urlMaps := [ ("k8s-um-default-app", defaultUrlMap) ];
  backendServices := [ service ];
  instanceGroups :=
    [ ("us-central1-a", "k8s-ig", Ok [ {| InstanceWithNamedPorts_Instance := "i-1" |} ]) ];
  forwardingRules := [ [ forwardingRule ] ];
  firewalls := [];
  zones := [];
  deletes := λ _, None |}.

(** A backend service that carries bare names where links are due. *)
Definition bare : BackendService := {|
  BackendService_Name := "k8s-be-30000";
  BackendService_SelfLink := "k8s-be-30000";
  BackendService_Backends := [];
  BackendService_HealthChecks := ["k8s-be-30000"] |}.

End Faults.

(** * Properties *)

(** ** Running the monad *)

Ltac run :=
  unfold mbind, M_bind, bind, mret, M_ret, ret, call, now, getApp,
    taskqueueAdd in *; simpl in *.

Section Traces.

Context {World : Type} (rt : Runtime World).

Lemma enqueued_app (tr1 tr2 : list Event) :
  enqueued (tr1 ++ tr2) = (enqueued tr1 ++ enqueued tr2)%list.
Proof. apply omap_app. Qed.

Lemma apiCalls_app (tr1 tr2 : list Event) :
  apiCalls (tr1 ++ tr2) = (apiCalls tr1 ++ apiCalls tr2)%list.
Proof. apply omap_app. Qed.

Lemma isExpired_trace (r : Request) (st : State World) :
  trace (isExpired rt r st).2 = trace st.
Proof.
  unfold isExpired. destruct (time_Parse_RFC3339 rt _); run; [|done].
  by destruct (time_Now rt (world st)).
Qed.

Lemma getApp_trace (st : State World) : trace (getApp rt st).2 = trace st.
Proof. run. by destruct (AppengineApp rt (world st)). Qed.

(** A handler past the expiry check and with its app runs its body. *)
Lemma deleteHandler_live (body : App → M World Z) (r : Request)
    (st st1 st2 : State World) (app : App) :
  isExpired rt r st = (false, st1) →
  getApp rt st1 = (Ok app, st2) →
  deleteHandler rt body r st = body app st2 ∧ trace st2 = trace st.
Proof.
  intros He Ha. split.
  - unfold deleteHandler. run. rewrite He. simpl. by rewrite Ha.
  - pose proof (isExpired_trace r st) as H1. pose proof (getApp_trace st1) as H2.
    rewrite He in H1. rewrite Ha in H2. simpl in *. congruence.
Qed.

(** A handler whose task has expired answers 204 and does nothing. *)
Lemma deleteHandler_expired (body : App → M World Z) (r : Request)
    (st : State World) (expires n : Time) (w : World) :
  time_Parse_RFC3339 rt (FormValue r "expires") = Some expires →
  time_Now rt (world st) = (n, w) →
  expires < n →
  deleteHandler rt body r st
  = (StatusNoContent, {| world := w; trace := trace st |}).
Proof.
  intros Hp Hn Hlt. unfold deleteHandler, isExpired. rewrite Hp. run.
  rewrite Hn. simpl. unfold time.After, time.UTC.
  by rewrite (proj2 (Z.ltb_lt _ _) Hlt).
Qed.

(** One delete call, answered by [handleJobError] when it fails. *)
Lemma deleteOr_done (c : ApiCall) (st : State World) :
  let out := deleteOr rt c (mret StatusNoContent) st in
  trace out.2 = (trace st ++ [Api c])%list ∧
  out.1 = match failure (Do rt c (world st)).1 with
          | Some e => handleJobError e
          | None => StatusNoContent
          end.
Proof.
  unfold deleteOr. run. destruct (Do rt c (world st)) as [[v|e] w]; simpl; auto.
Qed.

Lemma handleJobError_not_found :
  handleJobError (googleapi_Error StatusNotFound) = StatusNoContent.
Proof. reflexivity. Qed.

Lemma handleJobError_other (e : error) :
  e ≠ googleapi_Error StatusNotFound →
  handleJobError e = StatusInternalServerError.
Proof.
  destruct e as [code| |]; simpl; auto. intros Hne.
  destruct (Z.eqb_spec code StatusNotFound) as [->|]; [done|reflexivity].
Qed.

(** The handler a delete path is routed to is a [deleteHandler], and its
    body makes one delete call. *)
Lemma delete_route (t : Task) :
  Task_Path t ∈ deletePaths →
  ∃ body : App → M World Z,
    worker rt t = deleteHandler rt body (deliver t) ∧
    ∀ app, ∃ c, is_delete c = true ∧ body app = deleteOr rt c (mret StatusNoContent).
Proof.
  intros Hin. unfold worker, serve. simpl.
  unfold deletePaths in Hin.
  repeat (apply elem_of_cons in Hin as [-> | Hin]); [..|by apply elem_of_nil in Hin];
    simpl; eexists; (split; [reflexivity|]); intros app; simpl.
  - destruct (String.eqb _ _); eexists; (split; [|reflexivity]); reflexivity.
  - eexists; (split; [|reflexivity]); reflexivity.
  - destruct (String.eqb _ _); eexists; (split; [|reflexivity]); reflexivity.
  - destruct (String.eqb _ _); eexists; (split; [|reflexivity]); reflexivity.
  - eexists; (split; [|reflexivity]); reflexivity.
  - destruct (strconv.ParseBool _).1; eexists; (split; [|reflexivity]); reflexivity.
  - eexists; (split; [|reflexivity]); reflexivity.
Qed.

End Traces.

(** ** The classifier and the planner *)

Section Classifier.

Context {World : Type} (rt : Runtime World).

Lemma bind_eq {A B} (m : M World A) (k : A → M World B) st a st' :
  m st = (a, st') → (m ≫= k) st = k a st'.
Proof. intros H. unfold mbind, M_bind, bind. by rewrite H. Qed.

Lemma quiet_ret {A} (a : A) : quiet (World := World) (mret a).
Proof. by intros st. Qed.

Lemma quiet_bind {A B} (m : M World A) (k : A → M World B) :
  quiet m → (∀ a, quiet (k a)) → quiet (m ≫= k).
Proof.
  intros Hm Hk st. run. specialize (Hm st). destruct (m st) as [a st'].
  rewrite (Hk a st'). exact Hm.
Qed.

Lemma quiet_call (c : ApiCall) : quiet (call rt c).
Proof.
  intros st. run. destruct (Do rt c (world st)). simpl.
  rewrite enqueued_app. simpl. apply app_nil_r.
Qed.

Ltac quiet_call :=
  lazymatch goal with
  | |- quiet (call _ ?c) => exact (quiet_call c)
  end.

Lemma quiet_now : quiet (now rt).
Proof. intros st. run. by destruct (time_Now rt (world st)). Qed.

Lemma quiet_getProxy app tpname isHTTPs : quiet (getProxy rt app tpname isHTTPs).
Proof.
  unfold getProxy, GetTargetHttpsProxy, GetTargetHttpProxy. destruct isHTTPs;
    (apply quiet_bind; [quiet_call|intros [tp|e]; apply quiet_ret]).
Qed.

Lemma quiet_FindBackendServices_rules app prs :
  ∀ lst, quiet (FindBackendServices_rules rt app prs lst).
Proof.
  induction prs as [|pr prs IH]; intros lst; simpl; [apply quiet_ret|].
  destruct (ParseService _) as [[sname rg] [err|]]; [apply quiet_ret|].
  apply quiet_bind; [quiet_call|]. intros [s|e]; [apply IH|apply quiet_ret].
Qed.

Lemma quiet_FindBackendServices app um : quiet (FindBackendServices rt app um).
Proof.
  unfold FindBackendServices. generalize (@nil BackendService).
  induction (UrlMap_PathMatchers um) as [|pm pms IH]; intros lst; simpl;
    [apply quiet_ret|].
  apply quiet_bind; [apply quiet_FindBackendServices_rules|].
  intros [l|e]; [apply IH|apply quiet_ret].
Qed.

Lemma quiet_ListInstancesForService app s :
  quiet (ListInstancesForService rt app s).
Proof.
  unfold ListInstancesForService. generalize (@nil string).
  induction (BackendService_Backends s) as [|b bs IH]; intros lst; simpl;
    [apply quiet_ret|].
  destruct (ParseInstanceGroup _) as [[name zone] [err|]]; [apply quiet_ret|].
  apply quiet_bind; [quiet_call|]. intros [items|e]; apply IH.
Qed.

Lemma quiet_countInstances app services :
  ∀ total, quiet (countInstances rt app services total).
Proof.
  induction services as [|s ss IH]; intros total; simpl; [apply quiet_ret|].
  apply quiet_bind; [apply quiet_ListInstancesForService|].
  intros [l|e]; [apply IH|apply quiet_ret].
Qed.

(** The count only grows. *)
Lemma countInstances_ge app services :
  ∀ total st total' st',
    countInstances rt app services total st = (Ok total', st') → total <= total'.
Proof.
  induction services as [|s ss IH]; intros total st total' st'; simpl.
  - run. intros [= <- _]. lia.
  - run. destruct (ListInstancesForService rt app s st) as [[l|e] st1]; [|done].
    intros H. apply IH in H. lia.
Qed.

Lemma addTasks_trace (tasks : list Task) :
  ∀ st, trace (addTasks rt tasks st).2
        = (trace st ++ map (λ t, taskqueue_Add t (queueName rt)) tasks)%list.
Proof.
  induction tasks as [|t ts IH]; intros st; simpl.
  - by rewrite app_nil_r.
  - run. rewrite IH. simpl. by rewrite <- app_assoc.
Qed.

Lemma enqueued_adds (tasks : list Task) (q : string) :
  enqueued (map (λ t, taskqueue_Add t q) tasks) = tasks.
Proof. induction tasks as [|t ts IH]; simpl; [done|]. by f_equal. Qed.

Lemma findsProxy_quiet app tpname isHTTPs st px st' :
  findsProxy rt app tpname isHTTPs st px st' →
  enqueued (trace st') = enqueued (trace st).
Proof.
  intros (ts & st1 & Hp & _ & Hn).
  pose proof (quiet_getProxy app tpname isHTTPs st) as H1.
  pose proof (quiet_now st1) as H2. rewrite Hp in H1. rewrite Hn in H2.
  simpl in *. congruence.
Qed.

Lemma resolvesTree_quiet app px st tr st' :
  resolvesTree rt app px st tr st' →
  enqueued (trace st') = enqueued (trace st).
Proof.
  intros (rg & st1 & st2 & _ & Hg & Hs & Hc).
  pose proof (quiet_call (UrlMaps_Get (project app) (tree_umname tr)) st) as H1.
  pose proof (quiet_FindBackendServices app (tree_um tr) st1) as H2.
  pose proof (quiet_countInstances app (tree_services tr) 0 st2) as H3.
  unfold GetUrlMap in Hg. rewrite Hg in H1. rewrite Hs in H2. rewrite Hc in H3.
  simpl in *. congruence.
Qed.

Lemma resolvesTree_total app px st tr st' :
  resolvesTree rt app px st tr st' → 0 <= tree_total tr.
Proof. intros (rg & st1 & st2 & _ & _ & _ & Hc). by apply countInstances_ge in Hc. Qed.

(** Within the grace window the check stops right after reading the
    clock. *)
Lemma check_within_grace app fwname region tpname isHTTPs st px st' :
  findsProxy rt app tpname isHTTPs st px st' →
  withinGrace px →
  checkAndDeleteTargetProxiesIfApplicable rt app fwname region tpname isHTTPs st
  = (None, st').
Proof.
  intros (ts & st1 & Hp & Hc & Hn) Hy.
  unfold checkAndDeleteTargetProxiesIfApplicable.
  rewrite (bind_eq _ _ _ _ _ Hp). cbv beta iota.
  rewrite (bind_eq _ _ _ _ _ Hn). cbv beta iota. rewrite <- Hc.
  unfold withinGrace, time.After, time.Add in *.
  by rewrite (proj2 (Z.ltb_lt _ _)) by lia.
Qed.

(** Past the grace window, with the tree resolved, the check emits the
    plan when no instance was counted and nothing otherwise. *)
Lemma check_past_grace app fwname region tpname isHTTPs st px st2 tr st5 :
  findsProxy rt app tpname isHTTPs st px st2 →
  ¬ withinGrace px →
  resolvesTree rt app px st2 tr st5 →
  checkAndDeleteTargetProxiesIfApplicable rt app fwname region tpname isHTTPs st
  = if 0 <? tree_total tr then (None, st5)
    else (None,
          (addTasks rt (planAt rt px tr isHTTPs fwname region (now rt st5).1)
             (now rt st5).2).2).
Proof.
  intros (ts & st1 & Hp & Hc & Hn) Hold (rg & st3 & st4 & Hu & Hg & Hs & Hcnt).
  unfold checkAndDeleteTargetProxiesIfApplicable.
  rewrite (bind_eq _ _ _ _ _ Hp). cbv beta iota.
  rewrite (bind_eq _ _ _ _ _ Hn). cbv beta iota. rewrite <- Hc.
  unfold withinGrace, time.After, time.Add in *.
  rewrite (proj2 (Z.ltb_ge _ _)) by lia.
  rewrite Hu. cbv beta iota.
  rewrite (bind_eq _ _ _ _ _ Hg). cbv beta iota.
  rewrite (bind_eq _ _ _ _ _ Hs). cbv beta iota.
  rewrite (bind_eq _ _ _ _ _ Hcnt). cbv beta iota.
  destruct (0 <? tree_total tr); [done|].
  destruct (now rt st5) as [n2 st6] eqn:Hn2.
  rewrite (bind_eq _ _ _ _ _ Hn2). cbv beta iota.
  unfold planAt, time.Add. cbn [fst snd].
  unfold mbind, M_bind, bind.
  match goal with |- context [addTasks rt ?l st6] => by destruct (addTasks rt l st6) end.
Qed.

Lemma check_past_grace_emitted app fwname region tpname isHTTPs st px st2 tr st5 :
  findsProxy rt app tpname isHTTPs st px st2 →
  ¬ withinGrace px →
  resolvesTree rt app px st2 tr st5 →
  emitted (checkAndDeleteTargetProxiesIfApplicable rt app fwname region tpname isHTTPs) st
  = if 0 <? tree_total tr then []
    else planAt rt px tr isHTTPs fwname region (now rt st5).1.
Proof.
  intros Hf Hold Hr. unfold emitted.
  rewrite (check_past_grace _ _ _ _ _ _ _ _ _ _ Hf Hold Hr).
  pose proof (findsProxy_quiet _ _ _ _ _ _ Hf) as H1.
  pose proof (resolvesTree_quiet _ _ _ _ _ Hr) as H2.
  destruct (0 <? tree_total tr); cbn [fst snd].
  - rewrite H2, H1. apply drop_all.
  - rewrite addTasks_trace, enqueued_app, enqueued_adds.
    pose proof (quiet_now st5) as H3. rewrite H3, H2, H1.
    apply drop_app_length.
Qed.

End Classifier.

(** ** The tree the cloud shows *)

Section Snapshot.

Context {World : Type} (rt : Runtime World).

Lemma call_fst (c : ApiCall) (st : State World) :
  (call rt c st).1 = (Do rt c (world st)).1.
Proof. unfold call. by destruct (Do rt c (world st)). Qed.

Lemma sumZ_app (l k : list Z) : sumZ (l ++ k) = sumZ l + sumZ k.
Proof. unfold sumZ. induction l as [|x l IH]; simpl; lia. Qed.

Lemma FindBackendServices_rules_shows app snap prs ss :
  shows rt (project app) snap →
  Forall2 (λ pr s, ruleService snap pr = Some s) prs ss →
  ∀ lst st, ∃ st',
    FindBackendServices_rules rt app prs lst st = (Ok (lst ++ ss)%list, st').
Proof.
  intros [Hbs _]. induction 1 as [|pr s prs ss Hpr _ IH]; intros lst st; simpl.
  - eexists. by rewrite app_nil_r.
  - unfold ruleService in Hpr.
    destruct (ParseService _) as [[sname rg] [err|]]; [done|].
    destruct (snap_backendService snap sname) as [s'|] eqn:Hs; [|done].
    injection Hpr as ->.
    destruct (call rt (BackendServices_Get (project app) sname) st) as [r st1] eqn:Hc.
    pose proof (call_fst (BackendServices_Get (project app) sname) st) as Hf.
    rewrite Hc, Hbs, Hs in Hf. simpl in Hf. subst r.
    rewrite (bind_eq _ _ _ _ _ Hc). cbv beta iota.
    destruct (IH (lst ++ [s])%list st1) as [st' ->].
    eexists. by rewrite <- app_assoc.
Qed.

Lemma FindBackendServices_shows app snap um services :
  shows rt (project app) snap →
  pathRuleServices snap um = Some services →
  ∀ st, ∃ st', FindBackendServices rt app um st = (Ok services, st').
Proof.
  intros Hsh Hr. unfold pathRuleServices in Hr. apply mapM_Some in Hr.
  unfold FindBackendServices.
  enough (∀ lst st, ∃ st',
    FindBackendServices_matchers rt app (UrlMap_PathMatchers um) lst st
    = (Ok (lst ++ services)%list, st')) as H by (intros st; apply (H [] st)).
  revert services Hr.
  induction (UrlMap_PathMatchers um) as [|pm pms IH]; intros services Hr lst st; simpl in *.
  - apply Forall2_nil_inv_l in Hr as ->. eexists. by rewrite app_nil_r.
  - apply Forall2_app_inv_l in Hr as (ss1 & ss2 & H1 & H2 & ->).
    destruct (FindBackendServices_rules_shows app snap _ _ Hsh H1 lst st) as [st1 Hst1].
    rewrite (bind_eq _ _ _ _ _ Hst1). cbv beta iota.
    destruct (IH ss2 H2 (lst ++ ss1)%list st1) as [st' ->].
    eexists. by rewrite <- app_assoc.
Qed.

Lemma ListInstancesForService_loop_shows app snap bs ks :
  shows rt (project app) snap →
  Forall2 (λ b k, groupInstanceCount snap b = Some k) bs ks →
  ∀ lst st, ∃ lst' st',
    ListInstancesForService_loop rt app bs lst st = (Ok lst', st')
    ∧ Z.of_nat (length lst') = Z.of_nat (length lst) + sumZ ks.
Proof.
  intros [_ Hig]. induction 1 as [|b k bs ks Hb _ IH]; intros lst st; simpl.
  - do 2 eexists. split; [reflexivity|]. unfold sumZ. simpl. lia.
  - unfold groupInstanceCount in Hb.
    destruct (ParseInstanceGroup _) as [[name zone] [err|]]; [done|].
    destruct (call rt (InstanceGroups_ListInstances (project app) zone name "ALL") st)
      as [r st1] eqn:Hc.
    pose proof (call_fst (InstanceGroups_ListInstances (project app) zone name "ALL") st) as Hf.
    rewrite Hc, Hig in Hf. simpl in Hf. subst r.
    rewrite (bind_eq _ _ _ _ _ Hc).
    destruct (snap_instances snap zone name) as [items|e]; injection Hb as <-.
    + destruct (IH (lst ++ map InstanceWithNamedPorts_Instance items)%list st1)
        as (lst' & st' & -> & Hlen).
      do 2 eexists. split; [reflexivity|].
      rewrite Hlen, length_app, length_map. unfold sumZ. simpl. lia.
    + destruct (IH lst st1) as (lst' & st' & -> & Hlen).
      do 2 eexists. split; [reflexivity|]. rewrite Hlen. unfold sumZ. simpl. lia.
Qed.

Lemma countInstances_shows app snap services ks :
  shows rt (project app) snap →
  Forall2 (λ b k, groupInstanceCount snap b = Some k)
    (concat (map BackendService_Backends services)) ks →
  ∀ total st, ∃ st',
    countInstances rt app services total st = (Ok (total + sumZ ks), st').
Proof.
  intros Hsh. revert ks.
  induction services as [|s ss IH]; intros ks Hks total st; simpl in *.
  - apply Forall2_nil_inv_l in Hks as ->. eexists. unfold sumZ. simpl.
    by rewrite Z.add_0_r.
  - apply Forall2_app_inv_l in Hks as (k1 & k2 & H1 & H2 & ->).
    destruct (ListInstancesForService_loop_shows app snap _ _ Hsh H1 [] st)
      as (lst' & st1 & Hl & Hlen).
    fold (ListInstancesForService rt app s) in Hl.
    rewrite (bind_eq _ _ _ _ _ Hl). cbv beta iota.
    destruct (IH k2 H2 (total + Z.of_nat (length lst')) st1) as [st' ->].
    eexists. f_equal. f_equal. rewrite sumZ_app. simpl in Hlen. lia.
Qed.

Lemma sumZ_groupInstanceCount_nonneg snap bs ks :
  Forall2 (λ b k, groupInstanceCount snap b = Some k) bs ks → 0 <= sumZ ks.
Proof.
  induction 1 as [|b k bs ks Hb _ IH]; unfold sumZ in *; simpl; [lia|].
  unfold groupInstanceCount in Hb.
  destruct (ParseInstanceGroup _) as [[name zone] [err|]]; [done|].
  destruct (snap_instances snap zone name); injection Hb as <-; lia.
Qed.

(** When the cloud shows every backend service and instance group of the
    url map, the check resolves the tree, and the total it counts is the
    sum of the instance counts. *)
Lemma resolvesTree_shows app snap px st umname rg um st1 services count :
  shows rt (project app) snap →
  ParseUrlMap (proxy_urlMapURL px) = (umname, rg, None) →
  GetUrlMap rt app umname st = (Ok um, st1) →
  pathRuleServices snap um = Some services →
  instanceCount snap services = Some count →
  0 <= count ∧
  ∃ st',
    resolvesTree rt app px st
      {| tree_umname := umname; tree_um := um;
         tree_services := services; tree_total := count |} st'.
Proof.
  intros Hsh Hu Hg Hr Hc. unfold instanceCount in Hc.
  apply fmap_Some in Hc as (ks & Hks & ->). apply mapM_Some in Hks.
  split; [by eapply sumZ_groupInstanceCount_nonneg|].
  destruct (FindBackendServices_shows app snap um services Hsh Hr st1) as [st2 H2].
  destruct (countInstances_shows app snap services ks Hsh Hks 0 st2) as [st3 H3].
  exists st3, rg, st1, st2. simpl. by rewrite Z.add_0_l in H3.
Qed.

End Snapshot.

(** ** The deletion worker *)

Section Worker.

Context {World : Type} (rt : Runtime World).

(** C6.  A delivered deletion task whose expiry timestamp lies in the
    past is acknowledged at once, with status 204, and the delivery makes
    no call to the cloud resource API: the trace of the run is the trace
    it started from. *)
Theorem expired_task_acknowledged_without_api_call
    (t : Task) (st : State World) (expires n : Time) (w : World) :
  Task_Path t ∈ deletePaths →
  time_Parse_RFC3339 rt (FormValue (deliver t) "expires") = Some expires →
  time_Now rt (world st) = (n, w) →
  expires < n →
  worker rt t st = (StatusNoContent, {| world := w; trace := trace st |})
  ∧ acknowledged (worker rt t st).1 = true
  ∧ called (worker rt t) st = [].
Proof.
  intros Hin Hp Hn Hlt.
  destruct (delete_route rt t Hin) as (body & -> & _).
  rewrite (deleteHandler_expired rt body _ st expires n w Hp Hn Hlt).
  repeat split. unfold called.
  rewrite (deleteHandler_expired rt body _ st expires n w Hp Hn Hlt). simpl.
  apply drop_all.
Qed.

(** C5.  For the deletion task of every resource kind, delivered
    unexpired to a worker that has its app: the worker makes one delete
    call, and when that call fails, the delivery is acknowledged (status
    204) if the failure is the API's NotFound, and is not acknowledged
    (status 500, left for redelivery) for any other failure. *)
Theorem delete_failure_acknowledged_iff_not_found
    (t : Task) (st st1 st2 : State World) (app : App) :
  Task_Path t ∈ deletePaths →
  isExpired rt (deliver t) st = (false, st1) →
  getApp rt st1 = (Ok app, st2) →
  ∃ c : ApiCall,
    is_delete c = true ∧
    trace (worker rt t st).2 = (trace st ++ [Api c])%list ∧
    ∀ e, failure (Do rt c (world st2)).1 = Some e →
      (e = googleapi_Error StatusNotFound →
         (worker rt t st).1 = StatusNoContent
         ∧ acknowledged (worker rt t st).1 = true) ∧
      (e ≠ googleapi_Error StatusNotFound →
         (worker rt t st).1 = StatusInternalServerError
         ∧ acknowledged (worker rt t st).1 = false).
Proof.
  intros Hin He Ha.
  destruct (delete_route rt t Hin) as (body & -> & Hbody).
  destruct (Hbody app) as (c & Hdel & Hc).
  destruct (deleteHandler_live rt body _ st st1 st2 app He Ha) as [-> Htr].
  rewrite Hc. destruct (deleteOr_done rt c st2) as [Ht Hs].
  exists c. split; [done|]. split; [by rewrite Ht, Htr|].
  intros e Hf. rewrite Hs, Hf. split.
  - intros ->. by rewrite handleJobError_not_found.
  - intros Hne. by rewrite handleJobError_other.
Qed.

(** The handler written for certificates, which no route reaches, deletes
    the certificate of the task. *)
Lemma httpSslCertificatesDelete_deletes_certificate
    (r : Request) (st st1 st2 : State World) (app : App) :
  isExpired rt r st = (false, st1) →
  getApp rt st1 = (Ok app, st2) →
  trace (httpSslCertificatesDelete rt r st).2
  = (trace st ++ [Api (SslCertificates_Delete (project app) (FormValue r "name"))])%list.
Proof.
  intros He Ha. unfold httpSslCertificatesDelete.
  match goal with
  | |- context [deleteHandler rt ?b ?r st] =>
      destruct (deleteHandler_live rt b r st st1 st2 app He Ha) as [Heq Htr]
  end.
  rewrite Heq. cbv beta zeta.
  destruct (deleteOr_done rt (SslCertificates_Delete (project app) (FormValue r "name")) st2)
    as [Ht _].
  unfold mret, M_ret in Ht. by rewrite Ht, Htr.
Qed.

(** C1.  The delivery of an unexpired ssl-certificate deletion task runs
    the backend-service handler: the one API call it makes is the delete
    of a regional backend service of that name in the region with the
    empty name, and no certificate is deleted. *)
Theorem ssl_certificate_task_deletes_backend_service
    (name expires : string) (st st1 st2 : State World) (app : App) :
  isExpired rt
    (deliver (NewPOSTTask "/job/ssl-certificates/delete"
                {[ "name" := [name]; "expires" := [expires] ]})) st
    = (false, st1) →
  getApp rt st1 = (Ok app, st2) →
  trace (worker rt (NewPOSTTask "/job/ssl-certificates/delete"
                      {[ "name" := [name]; "expires" := [expires] ]}) st).2
  = (trace st ++ [Api (RegionBackendServices_Delete (project app) "" name)])%list
  ∧ Api (SslCertificates_Delete (project app) name)
    ∉ drop (length (trace st))
        (trace (worker rt (NewPOSTTask "/job/ssl-certificates/delete"
                             {[ "name" := [name]; "expires" := [expires] ]}) st).2).
Proof.
  intros He Ha.
  set (t := NewPOSTTask _ _) in *.
  assert (Hw : worker rt t = httpBackendServicesDelete rt (deliver t)) by reflexivity.
  assert (Hname : FormValue (deliver t) "name" = name) by (vm_compute; reflexivity).
  assert (Hregion : FormValue (deliver t) "region" = "") by (vm_compute; reflexivity).
  rewrite Hw. unfold httpBackendServicesDelete.
  match goal with
  | |- context [deleteHandler rt ?b ?r st] =>
      destruct (deleteHandler_live rt b r st st1 st2 app He Ha) as [Heq Htr]
  end.
  rewrite Heq.
  simpl. rewrite Hname, Hregion. simpl.
  destruct (deleteOr_done rt (RegionBackendServices_Delete (project app) "" name) st2)
    as [Ht _].
  unfold mret, M_ret in Ht. rewrite Ht, Htr. split; [done|].
  rewrite drop_app_length. intros Hin. apply list_elem_of_singleton in Hin. discriminate.
Qed.

End Worker.

(** ** Classification and the plan *)

Section Verdicts.

Context {World : Type} (rt : Runtime World).

Lemma getProxy_trace app tpname isHTTPs st :
  trace (getProxy rt app tpname isHTTPs st).2
  = (trace st ++ [Api (proxyGet app tpname isHTTPs)])%list.
Proof.
  unfold getProxy, proxyGet, GetTargetHttpsProxy, GetTargetHttpProxy.
  destruct isHTTPs; run;
    match goal with |- context [Do rt ?c ?w] => by destruct (Do rt c w) as [[?|?] ?] end.
Qed.

Lemma findsProxy_called app tpname isHTTPs st px st' :
  findsProxy rt app tpname isHTTPs st px st' →
  apiCalls (trace st') = (apiCalls (trace st) ++ [proxyGet app tpname isHTTPs])%list.
Proof.
  intros (ts & st1 & Hp & _ & Hn).
  pose proof (getProxy_trace app tpname isHTTPs st) as H1. rewrite Hp in H1.
  unfold now in Hn. destruct (time_Now rt (world st1)). injection Hn as _ <-.
  simpl in *. rewrite H1. by rewrite apiCalls_app.
Qed.

Lemma deletionTasks_nonempty tpName isHTTPs certs services umname fwname region expires :
  deletionTasks tpName isHTTPs certs services umname fwname region expires ≠ [].
Proof. done. Qed.

Lemma len_pos (s : string) : (0 <? len s) = bool_decide (s ≠ "").
Proof.
  destruct s; [done|]. rewrite bool_decide_eq_true_2 by done.
  apply Z.ltb_lt. unfold len. simpl String.length. lia.
Qed.


(** C3.  A proxy created less than one hour before the clock reading is
    left alone whatever its instance count: the check returns right after
    reading the clock, having made no call but the fetch of the proxy,
    and emits no task.  A proxy created two hours before, whose tree
    resolves with zero instances, has a deletion plan emitted. *)
Theorem grace_window
    (app : App) (fwname region tpname : string) (isHTTPs : bool)
    (st st2 : State World) (px : Proxy) :
  findsProxy rt app tpname isHTTPs st px st2 →
  (withinGrace px →
     checkAndDeleteTargetProxiesIfApplicable rt app fwname region tpname isHTTPs st
     = (None, st2)
     ∧ emitted (checkAndDeleteTargetProxiesIfApplicable rt app fwname region tpname isHTTPs) st
       = []
     ∧ called (checkAndDeleteTargetProxiesIfApplicable rt app fwname region tpname isHTTPs) st
       = [proxyGet app tpname isHTTPs])
  ∧ (proxy_checkedAt px - proxy_created px = 2 * time.Hour →
     ∀ tr st5,
       resolvesTree rt app px st2 tr st5 →
       tree_total tr = 0 →
       emitted (checkAndDeleteTargetProxiesIfApplicable rt app fwname region tpname isHTTPs) st
       ≠ []).
Proof.
  intros Hf. split.
  - intros Hy. unfold emitted, called.
    rewrite (check_within_grace rt _ fwname region _ _ _ _ _ Hf Hy). simpl.
    rewrite (findsProxy_quiet rt _ _ _ _ _ _ Hf), (findsProxy_called _ _ _ _ _ _ Hf).
    split; [done|]. split; [apply drop_all|apply drop_app_length].
  - intros Hage tr st5 Hres Hz.
    assert (Hold : ¬ withinGrace px).
    { unfold withinGrace. rewrite Hage. unfold time.Hour, time.Minute, time.Second. lia. }
    rewrite (check_past_grace_emitted rt _ fwname region _ _ _ _ _ _ _ Hf Hold Hres).
    rewrite Hz. simpl. apply deletionTasks_nonempty.
Qed.

(** C9.  When the creation timestamp of a proxy does not parse, the check
    goes on with the zero time: at any clock reading from one hour after
    the zero time on, the proxy is past the grace window, and when its
    tree resolves with zero instances the deletion plan is emitted. *)
Theorem unparsable_creation_time_passes_grace
    (app : App) (fwname region tpname : string) (isHTTPs : bool)
    (st st1 st2 : State World)
    (tpName : string) (certificates : list string) (urlMapURL timestamp : string)
    (n : Time) :
  getProxy rt app tpname isHTTPs st
    = (Ok (tpName, certificates, urlMapURL, timestamp), st1) →
  time_Parse_RFC3339 rt timestamp = None →
  now rt st1 = (n, st2) →
  time.zero + time.Hour <= n →
  findsProxy rt app tpname isHTTPs st
    {| proxy_tpName := tpName; proxy_certificates := certificates;
       proxy_urlMapURL := urlMapURL; proxy_created := time.zero;
       proxy_checkedAt := n |} st2
  ∧ ∀ tr st5,
      resolvesTree rt app
        {| proxy_tpName := tpName; proxy_certificates := certificates;
           proxy_urlMapURL := urlMapURL; proxy_created := time.zero;
           proxy_checkedAt := n |} st2 tr st5 →
      tree_total tr = 0 →
      (checkAndDeleteTargetProxiesIfApplicable rt app fwname region tpname isHTTPs st).1
      = None
      ∧ emitted (checkAndDeleteTargetProxiesIfApplicable rt app fwname region tpname isHTTPs) st
        = deletionTasks tpName isHTTPs certificates (tree_services tr)
            (tree_umname tr) fwname region
            (Time_Format_RFC3339 rt
               (time.Add (time.UTC (now rt st5).1) (15 * time.Minute)))
      ∧ emitted (checkAndDeleteTargetProxiesIfApplicable rt app fwname region tpname isHTTPs) st
        ≠ [].
Proof.
  intros Hp Hparse Hn Hlate.
  set (px := {| proxy_tpName := tpName |}).
  assert (Hf : findsProxy rt app tpname isHTTPs st px st2).
  { exists timestamp, st1. simpl. by rewrite Hparse. }
  split; [done|]. intros tr st5 Hres Hz.
  assert (Hold : ¬ withinGrace px) by (unfold withinGrace; simpl; lia).
  rewrite (check_past_grace_emitted rt _ fwname region _ _ _ _ _ _ _ Hf Hold Hres).
  rewrite (check_past_grace rt _ fwname region _ _ _ _ _ _ _ Hf Hold Hres).
  rewrite Hz. simpl. split; [done|]. split; [done|]. apply deletionTasks_nonempty.
Qed.

End Verdicts.

Section Plan.

Context {World : Type} (rt : Runtime World).

Lemma certificateTasks_shape certs expires :
  Forall (λ t, Task_Path t = "/job/ssl-certificates/delete" ∧ stamped expires t)
         (certificateTasks certs expires).
Proof.
  unfold certificateTasks. induction certs as [|c cs IH]; simpl; [constructor|].
  apply Forall_app. split; [|exact IH].
  destruct (ParseSslCertificates c) as [[certName rg] [err|]]; repeat constructor.
Qed.

Lemma serviceTasks_paths service expires :
  map Task_Path (serviceTasks service expires)
  = "/job/backend-services/delete"
    :: map (λ _, "/job/health-checks/delete") (BackendService_HealthChecks service).
Proof.
  unfold serviceTasks. destruct (ParseBackendServices _) as [[nm rg] err]. simpl.
  f_equal. rewrite map_map. apply map_ext. intros hc.
  by destruct (ParseHealthChecks hc) as [[name rg'] err'].
Qed.

Lemma serviceTasks_stamped service expires :
  Forall (stamped expires) (serviceTasks service expires).
Proof.
  unfold serviceTasks. destruct (ParseBackendServices _) as [[nm rg] err].
  constructor; [done|]. apply Forall_map, Forall_forall. intros hc _.
  by destruct (ParseHealthChecks hc) as [[name rg'] err'].
Qed.

(** The certificate tasks, link by link: one for each link that parses,
    under the name the link gives. *)
Lemma certificateTasks_named certs expires :
  certificateTasks certs expires
  = map (λ cert,
           NewPOSTTask "/job/ssl-certificates/delete"
             {[ "name" := [linkName "sslCertificates" cert]; "expires" := [expires] ]})
      (filter (parses "sslCertificates") certs).
Proof.
  unfold certificateTasks. induction certs as [|c cs IH]; [done|].
  rewrite filter_cons. cbn [flat_map]. rewrite IH. clear IH.
  destruct (decide (parses "sslCertificates" c)) as [Hp|Hp];
    unfold parses in Hp; cbn [map]; unfold linkName, ParseSslCertificates;
    destruct (parseURL c "sslCertificates") as [[name rg] [err|]];
    cbn [fst snd] in *; done.
Qed.

(** The tasks of a service: the service under its name and the region of
    its link, then its health checks under the names of their links. *)
Lemma serviceTasks_named service expires :
  serviceTasks service expires
  = NewPOSTTask "/job/backend-services/delete"
      {[ "name" := [BackendService_Name service];
         "region" := [linkRegion "backendServices" (BackendService_SelfLink service)];
         "expires" := [expires] ]}
    :: map (λ hc,
              NewPOSTTask "/job/health-checks/delete"
                {[ "name" := [linkName "healthChecks" hc]; "expires" := [expires] ]})
         (BackendService_HealthChecks service).
Proof.
  unfold serviceTasks, linkRegion, linkName, ParseBackendServices, ParseHealthChecks.
  destruct (parseURL (BackendService_SelfLink service) "backendServices")
    as [[nm rg] err]. cbn [fst snd]. f_equal. apply map_ext. intros hc.
  by destruct (parseURL hc "healthChecks") as [[name rg'] err'].
Qed.

(** C4.  For a dead tree (proxy past the grace window, tree resolved, no
    instance counted) the tasks handed to the queue are, in this order:
    the proxy; for an HTTPS proxy, one certificate task for each
    certificate link of the proxy that parses, under the name the link
    gives (none for an HTTP proxy); each backend service of the tree,
    under its name and the region its link gives, followed by one
    health-check task for each of its health checks, under the name the
    link gives; the url map; and the forwarding rule exactly when a
    forwarding rule name was given (none on the orphan-proxy path, where
    the name is empty).  Every task carries the same expiry: the clock
    reading at plan creation plus 15 minutes, formatted. *)
Theorem plan_order_and_expiry
    (app : App) (fwname region tpname : string) (isHTTPs : bool)
    (st st2 st5 : State World) (px : Proxy) (tr : Tree) (n : Time) (w : World) :
  findsProxy rt app tpname isHTTPs st px st2 →
  ¬ withinGrace px →
  resolvesTree rt app px st2 tr st5 →
  tree_total tr = 0 →
  time_Now rt (world st5) = (n, w) →
  ∃ certs svcs fwd : list Task,
    emitted (checkAndDeleteTargetProxiesIfApplicable rt app fwname region tpname isHTTPs) st
    = (NewPOSTTask "/job/target-http-proxies/delete"
         {[ "name" := [proxy_tpName px];
            "https" := [strconv.FormatBool isHTTPs];
            "expires" := [Time_Format_RFC3339 rt (time.Add n (15 * time.Minute))] ]}
       :: certs ++ svcs
       ++ NewPOSTTask "/job/url-maps/delete"
            {[ "name" := [tree_umname tr];
               "expires" := [Time_Format_RFC3339 rt (time.Add n (15 * time.Minute))] ]}
       :: fwd)%list
    ∧ certs
      = (if isHTTPs
         then map (λ cert,
                     NewPOSTTask "/job/ssl-certificates/delete"
                       {[ "name" := [linkName "sslCertificates" cert];
                          "expires" := [Time_Format_RFC3339 rt
                                          (time.Add n (15 * time.Minute))] ]})
                (filter (parses "sslCertificates") (proxy_certificates px))
         else [])
    ∧ svcs
      = flat_map (λ s,
                    NewPOSTTask "/job/backend-services/delete"
                      {[ "name" := [BackendService_Name s];
                         "region" := [linkRegion "backendServices"
                                        (BackendService_SelfLink s)];
                         "expires" := [Time_Format_RFC3339 rt
                                         (time.Add n (15 * time.Minute))] ]}
                    :: map (λ hc,
                              NewPOSTTask "/job/health-checks/delete"
                                {[ "name" := [linkName "healthChecks" hc];
                                   "expires" := [Time_Format_RFC3339 rt
                                                   (time.Add n (15 * time.Minute))] ]})
                         (BackendService_HealthChecks s))
                 (tree_services tr)
    ∧ Forall (λ t, Task_Path t = "/job/ssl-certificates/delete") certs
    ∧ (isHTTPs = false → certs = [])
    ∧ map Task_Path svcs
      = flat_map (λ s, "/job/backend-services/delete"
                       :: map (λ _, "/job/health-checks/delete")
                            (BackendService_HealthChecks s))
                 (tree_services tr)
    ∧ fwd = (if decide (fwname = "") then []
             else [NewPOSTTask "/job/forwarding-rules/delete"
                     {[ "name" := [fwname];
                        "region" := [region];
                        "expires" := [Time_Format_RFC3339 rt
                                        (time.Add n (15 * time.Minute))] ]}])
    ∧ Forall (stamped (Time_Format_RFC3339 rt (time.Add n (15 * time.Minute))))
        (emitted (checkAndDeleteTargetProxiesIfApplicable rt app fwname region tpname isHTTPs) st).
Proof.
  intros Hf Hold Hres Hz Hn.
  rewrite (check_past_grace_emitted rt _ fwname region _ _ _ _ _ _ _ Hf Hold Hres).
  rewrite Hz. change (0 <? 0) with false. cbv iota.
  unfold now. rewrite Hn. cbn [fst]. unfold planAt, deletionTasks, time.UTC.
  set (expires := Time_Format_RFC3339 rt (time.Add n (15 * time.Minute))).
  exists (if isHTTPs then certificateTasks (proxy_certificates px) expires else []),
    (flat_map (λ service, serviceTasks service expires) (tree_services tr)),
    (if decide (fwname = "") then []
     else [NewPOSTTask "/job/forwarding-rules/delete"
             {[ "name" := [fwname]; "region" := [region]; "expires" := [expires] ]}]).
  assert (Hfw : (if 0 <? len fwname
                 then [NewPOSTTask "/job/forwarding-rules/delete"
                         {[ "name" := [fwname]; "region" := [region];
                            "expires" := [expires] ]}]
                 else [])
                = (if decide (fwname = "") then []
                   else [NewPOSTTask "/job/forwarding-rules/delete"
                           {[ "name" := [fwname]; "region" := [region];
                              "expires" := [expires] ]}])).
  { rewrite len_pos. destruct (decide (fwname = "")) as [->|Hne]; [done|].
    by rewrite bool_decide_eq_true_2. }
  rewrite Hfw. clear Hfw.
  split; [reflexivity|]. split.
  { destruct isHTTPs; [|done]. apply certificateTasks_named. }
  split.
  { apply flat_map_ext. intros s. apply serviceTasks_named. }
  split.
  { destruct isHTTPs; [|constructor].
    eapply Forall_impl; [apply certificateTasks_shape|]. by intros t [? _]. }
  split; [by intros ->|]. split.
  { induction (tree_services tr) as [|s ss IH]; simpl; [done|].
    by rewrite map_app, serviceTasks_paths, IH. }
  split; [done|].
  simpl. constructor; [done|]. apply Forall_app. split.
  { destruct isHTTPs; [|constructor].
    eapply Forall_impl; [apply certificateTasks_shape|]. by intros t [_ ?]. }
  apply Forall_app. split.
  { apply Forall_flat_map, Forall_forall. intros s _. apply serviceTasks_stamped. }
  constructor; [done|]. destruct (decide (fwname = "")); repeat constructor.
Qed.

End Plan.

(** ** The firewall reconciler *)

Section Firewalls.

Context {World : Type} (rt : Runtime World).

Lemma keyed_insert m tag tag' fw fw' :
  keyed (<[tag' := (default [] (m !! tag') ++ [fw'])%list]> m) tag fw
  ↔ keyed m tag fw ∨ (tag = tag' ∧ fw = fw').
Proof.
  unfold keyed. destruct (decide (tag' = tag)) as [->|Hne].
  - rewrite lookup_insert_eq. split.
    + intros (l & [= <-] & Hin). apply elem_of_app in Hin as [Hin|Hin].
      * left. destruct (m !! tag) as [l|]; [eauto|]. by apply elem_of_nil in Hin.
      * right. by apply list_elem_of_singleton in Hin.
    + intros [(l & Hl & Hin)|[_ ->]]; eexists; (split; [reflexivity|]).
      * rewrite Hl. simpl. apply elem_of_app. by left.
      * apply elem_of_app. right. by apply list_elem_of_singleton.
  - rewrite lookup_insert_ne by done. split; [by left|].
    intros [H|[-> _]]; done.
Qed.

Lemma keyed_tags2fws_add m fw' tag fw :
  keyed (tags2fws_add m fw') tag fw
  ↔ keyed m tag fw ∨ (fw = fw' ∧ tag ∈ Firewall_TargetTags fw' ∧ gke tag).
Proof.
  unfold tags2fws_add. revert m.
  induction (Firewall_TargetTags fw') as [|t ts IH]; intros m; simpl.
  - split; [by left|]. intros [H|(_ & H & _)]; [done|]. by apply elem_of_nil in H.
  - rewrite IH. destruct (strings.HasPrefix t "gke-") eqn:Hg.
    + rewrite keyed_insert. split.
      * intros [[H|[-> ->]]|(-> & Hin & Hgk)]; auto.
        -- right. split; [done|]. split; [left|done].
        -- right. split; [done|]. split; [by right|done].
      * intros [H|(-> & Hin & Hgk)]; [by left; left|].
        apply elem_of_cons in Hin as [->|Hin]; [left; by right|right; done].
    + split.
      * intros [H|(-> & Hin & Hgk)]; [by left|]. right. split; [done|].
        split; [by right|done].
      * intros [H|(-> & Hin & Hgk)]; [by left|].
        apply elem_of_cons in Hin as [->|Hin]; [|right; done].
        unfold gke in Hgk. congruence.
Qed.

Lemma keyed_tags2fws_of fws tag fw :
  keyed (tags2fws_of fws) tag fw
  ↔ fw ∈ fws ∧ tag ∈ Firewall_TargetTags fw ∧ gke tag.
Proof.
  unfold tags2fws_of.
  enough (∀ m, keyed (foldl tags2fws_add m fws) tag fw
               ↔ keyed m tag fw ∨ (fw ∈ fws ∧ tag ∈ Firewall_TargetTags fw ∧ gke tag)) as H.
  { rewrite H. split; [|by right]. intros [(l & Hl & _)|H']; [|done].
    by rewrite lookup_empty in Hl. }
  induction fws as [|fw' fws IH]; intros m; simpl.
  - split; [by left|]. intros [H|(H & _)]; [done|]. by apply elem_of_nil in H.
  - rewrite IH, keyed_tags2fws_add. split.
    + intros [[H|(-> & H1 & H2)]|(H & H1 & H2)]; auto.
      * right. split; [left|done].
      * right. split; [by right|done].
    + intros [H|(H & H1 & H2)]; [by left; left|].
      apply elem_of_cons in H as [->|H]; [left; right; done|right; done].
Qed.

(** Every key of the map is a [gke-] tag. *)
Lemma tags2fws_of_gke fws tag l : tags2fws_of fws !! tag = Some l → gke tag.
Proof.
  unfold tags2fws_of.
  enough (∀ m, (∀ t l, m !! t = Some l → gke t) →
               ∀ t l, foldl tags2fws_add m fws !! t = Some l → gke t) as H.
  { apply H. intros t l'. by rewrite lookup_empty. }
  clear tag l. induction fws as [|fw fws IH]; intros m Hm; simpl; [done|].
  apply IH. unfold tags2fws_add. revert m Hm.
  induction (Firewall_TargetTags fw) as [|t ts IHt]; intros m Hm; simpl; [done|].
  apply IHt. destruct (strings.HasPrefix t "gke-") eqn:Hg; [|done].
  intros t' l'. destruct (decide (t = t')) as [->|Hne].
  - by intros _.
  - rewrite lookup_insert_ne by done. apply Hm.
Qed.

Lemma tags2fws_drop_lookup m instance tag :
  tags2fws_drop m instance !! tag
  = if decide (tag ∈ Instance_Tags instance ∧ gke tag) then None else m !! tag.
Proof.
  unfold tags2fws_drop. revert m.
  induction (Instance_Tags instance) as [|t ts IH]; intros m; cbn [foldl].
  - destruct (decide (tag ∈ [] ∧ gke tag)) as [[H _]|]; [|done].
    by apply elem_of_nil in H.
  - rewrite IH.
    destruct (decide (tag ∈ ts ∧ gke tag)) as [[H1 H2]|Hn];
      destruct (decide (tag ∈ t :: ts ∧ gke tag)) as [[H3 H4]|Hn']; try done.
    + destruct Hn'. split; [by right|done].
    + apply elem_of_cons in H3 as [->|H3]; [|by destruct Hn].
      unfold gke in H4. rewrite H4. apply lookup_delete_eq.
    + destruct (strings.HasPrefix t "gke-") eqn:Hg; [|done].
      destruct (decide (t = tag)) as [->|Hne].
      * destruct Hn'. split; [left|done].
      * by rewrite lookup_delete_ne.
Qed.

Lemma tags2fws_drop_all_lookup items m tag l :
  foldl tags2fws_drop m items !! tag = Some l
  ↔ m !! tag = Some l
    ∧ ¬ (gke tag ∧ ∃ instance, instance ∈ items ∧ tag ∈ Instance_Tags instance).
Proof.
  revert m. induction items as [|i items IH]; intros m; cbn [foldl].
  - split; [|by intros [? _]]. intros H. split; [done|].
    intros (_ & i & Hi & _). by apply elem_of_nil in Hi.
  - rewrite IH, tags2fws_drop_lookup.
    destruct (decide (tag ∈ Instance_Tags i ∧ gke tag)) as [[H1 H2]|Hn].
    + split; [by intros [? _]|]. intros [_ []]. split; [done|]. exists i. split; [left|done].
    + split.
      * intros [Hm Hno]. split; [done|]. intros (Hg & i' & Hi' & Ht).
        apply elem_of_cons in Hi' as [->|Hi']; [by destruct Hn|].
        apply Hno. split; [done|]. by exists i'.
      * intros [Hm Hno]. split; [done|]. intros (Hg & i' & Hi' & Ht).
        apply Hno. split; [done|]. exists i'. split; [by right|done].
Qed.

End Firewalls.

Section Reconciler.

Context {World : Type} (rt : Runtime World).

Lemma deletions_app (tr1 tr2 : list Event) :
  deletions (tr1 ++ tr2) = (deletions tr1 ++ deletions tr2)%list.
Proof. apply omap_app. Qed.

(** A call that is not a firewall delete adds no deletion. *)
Lemma deletions_call (c : ApiCall) (st : State World) :
  deletions [Api c] = [] →
  deletions (trace (call rt c st).2) = deletions (trace st).
Proof.
  intros Hc. unfold call. destruct (Do rt c (world st)). simpl.
  by rewrite deletions_app, Hc, app_nil_r.
Qed.

Lemma elem_of_concat {A} (x : A) (ls : list (list A)) :
  x ∈ concat ls ↔ ∃ l, l ∈ ls ∧ x ∈ l.
Proof.
  induction ls as [|l ls IH]; simpl.
  - split; [by intros ?%elem_of_nil|]. by intros (l & ?%elem_of_nil & _).
  - rewrite elem_of_app, IH. split.
    + intros [H|(l' & H1 & H2)]; [exists l; split; [left|done]|].
      exists l'. split; [by right|done].
    + intros (l' & [->|H1]%elem_of_cons & H2); [by left|]. right. eauto.
Qed.

Lemma zones_scan app zones instances :
  (∀ w zone, zone ∈ zones →
     (Do rt (Instances_List (project app) (Zone_Name zone)) w).1
     = Ok (instances (Zone_Name zone))) →
  ∀ m st, ∃ m' st',
    ListDanglingFirewalls_zones rt app zones m st = (Ok m', st')
    ∧ (∀ tag l, m' !! tag = Some l
                ↔ m !! tag = Some l ∧ ¬ (gke tag ∧ observed zones instances tag))
    ∧ deletions (trace st') = deletions (trace st).
Proof.
  induction zones as [|zone zones IH]; intros Hinst m st; simpl.
  - exists m, st. split; [done|]. split; [|done]. intros tag l.
    split; [|by intros [? _]]. intros H. split; [done|].
    intros (_ & z & i & Hz & _). by apply elem_of_nil in Hz.
  - case_bool_decide as Hsize.
    + apply map_size_empty_inv in Hsize as ->. exists ∅, st. split; [done|].
      split; [|done]. intros tag l. rewrite lookup_empty. split; [done|by intros [? _]].
    + destruct (call rt (Instances_List (project app) (Zone_Name zone)) st)
        as [r st1] eqn:Hc.
      pose proof (call_fst rt (Instances_List (project app) (Zone_Name zone)) st) as Hf.
      rewrite Hc, Hinst in Hf by left. simpl in Hf. subst r.
      rewrite (bind_eq _ _ _ _ _ Hc). cbv beta iota.
      destruct (IH (λ w z Hz, Hinst w z (list_elem_of_further _ _ _ Hz))
                  (foldl tags2fws_drop m (instances (Zone_Name zone))) st1)
        as (m' & st' & -> & Hm' & Hd).
      exists m', st'. split; [done|]. split.
      * intros tag l. rewrite Hm', tags2fws_drop_all_lookup. split.
        -- intros [[Hm Hno] Hno']. split; [done|]. intros (Hg & z & i & Hz & Hi & Ht).
           apply elem_of_cons in Hz as [->|Hz].
           ++ apply Hno. split; [done|]. by exists i.
           ++ apply Hno'. split; [done|]. by exists z, i.
        -- intros [Hm Hno]. split; [split; [done|]|].
           ++ intros (Hg & i & Hi & Ht). apply Hno. split; [done|].
              exists zone, i. split; [left|done].
           ++ intros (Hg & z & i & Hz & Hi & Ht). apply Hno. split; [done|].
              exists z, i. split; [by right|done].
      * rewrite Hd.
        pose proof (deletions_call (Instances_List (project app) (Zone_Name zone)) st eq_refl) as H.
        by rewrite Hc in H.
Qed.

(** What [ListDanglingFirewalls] returns: the lists of the map that is
    left after the scan, in the order of the range; a rule is listed
    under a tag exactly when the tag is a dangling [gke-] target tag of
    the rule. *)
Lemma ListDanglingFirewalls_shows app fws zones instances st :
  showsNetwork rt (project app) fws zones instances →
  ∃ m' st',
    ListDanglingFirewalls rt app st = (Ok (concat (map snd (mapRange rt m'))), st')
    ∧ scanned fws zones instances m'
    ∧ deletions (trace st') = deletions (trace st).
Proof.
  intros (Hfw & Hz & Hi). unfold ListDanglingFirewalls.
  destruct (call rt (Firewalls_List (project app)) st) as [r st1] eqn:Hc1.
  pose proof (call_fst rt (Firewalls_List (project app)) st) as Hf1.
  rewrite Hc1, Hfw in Hf1. simpl in Hf1. subst r.
  rewrite (bind_eq _ _ _ _ _ Hc1). cbv beta iota zeta.
  destruct (call rt (Zones_List (project app)) st1) as [r st2] eqn:Hc2.
  pose proof (call_fst rt (Zones_List (project app)) st1) as Hf2.
  rewrite Hc2, Hz in Hf2. simpl in Hf2. subst r.
  rewrite (bind_eq _ _ _ _ _ Hc2). cbv beta iota.
  destruct (zones_scan app zones instances Hi (tags2fws_of fws) st2)
    as (m' & st' & Hscan & Hm' & Hd).
  rewrite (bind_eq _ _ _ _ _ Hscan). cbv beta iota.
  exists m', st'. split; [done|]. split; [exact Hm'|].
  rewrite Hd.
  pose proof (deletions_call (Zones_List (project app)) st1 eq_refl) as H2.
  pose proof (deletions_call (Firewalls_List (project app)) st eq_refl) as H1.
  rewrite Hc2 in H2. rewrite Hc1 in H1. simpl in *. congruence.
Qed.

(** A rule is left under a tag exactly when the tag is a [gke-] target tag
    of the rule that no listed instance carries. *)
Lemma scanned_keyed fws zones instances m' :
  scanned fws zones instances m' →
  ∀ tag fw, keyed m' tag fw
            ↔ fw ∈ fws ∧ tag ∈ Firewall_TargetTags fw ∧ gke tag
              ∧ ¬ observed zones instances tag.
Proof.
  intros Hm' tag fw. unfold keyed. split.
  - intros (l & Hl & Hin). apply Hm' in Hl as [Hl Hno].
    assert (Hk : keyed (tags2fws_of fws) tag fw) by (by exists l).
    apply keyed_tags2fws_of in Hk as (H1 & H2 & H3).
    repeat (split; [done|]). intros Ho. by apply Hno.
  - intros (H1 & H2 & H3 & H4).
    destruct (proj2 (keyed_tags2fws_of fws tag fw)) as (l & Hl & Hin); [done|].
    exists l. split; [|done]. apply Hm'. split; [done|]. by intros [_ Ho].
Qed.

Lemma httpFirewallsCheck_loop_succeeds app fws :
  deletesSucceed rt (project app) →
  ∀ st, ∃ st',
    httpFirewallsCheck_loop rt app fws st = (StatusNoContent, st')
    ∧ deletions (trace st')
      = (deletions (trace st) ++ map Firewall_Name fws)%list.
Proof.
  intros Hdel. induction fws as [|fw fws IH]; intros st; simpl.
  - exists st. by rewrite app_nil_r.
  - unfold deleteOr.
    destruct (call rt (Firewalls_Delete (project app) (Firewall_Name fw)) st)
      as [r st1] eqn:Hc.
    pose proof (call_fst rt (Firewalls_Delete (project app) (Firewall_Name fw)) st) as Hf.
    rewrite Hc in Hf. simpl in Hf.
    assert (Hr : failure r = None) by (rewrite Hf; apply Hdel).
    destruct r as [[]|e]; [|done].
    rewrite (bind_eq _ _ _ _ _ Hc). cbv beta iota.
    destruct (IH st1) as (st' & -> & Hd). exists st'. split; [done|].
    rewrite Hd. unfold call in Hc.
    destruct (Do rt _ (world st)). injection Hc as _ <-. simpl.
    by rewrite deletions_app, <- app_assoc.
Qed.

(** The whole pass, when nothing fails: status 204, and the deletions
    are the names of the listed rules, in order. *)
Lemma httpFirewallsCheck_shows r app fws zones instances st st1 :
  getApp rt st = (Ok app, st1) →
  showsNetwork rt (project app) fws zones instances →
  deletesSucceed rt (project app) →
  ∃ m',
    (httpFirewallsCheck rt r st).1 = StatusNoContent
    ∧ deleted (httpFirewallsCheck rt r) st
      = map Firewall_Name (concat (map snd (mapRange rt m')))
    ∧ scanned fws zones instances m'.
Proof.
  intros Ha Hsh Hdel.
  destruct (ListDanglingFirewalls_shows app fws zones instances st1 Hsh)
    as (m' & st2 & Hl & Hk & Hd).
  destruct (httpFirewallsCheck_loop_succeeds app (concat (map snd (mapRange rt m')))
              Hdel st2) as (st3 & Hloop & Hd3).
  exists m'. unfold deleted, httpFirewallsCheck.
  rewrite (bind_eq _ _ _ _ _ Ha). cbv beta iota.
  rewrite (bind_eq _ _ _ _ _ Hl). cbv beta iota. rewrite Hloop. simpl.
  split; [done|]. split; [|done].
  pose proof (getApp_trace rt st) as Ht. rewrite Ha in Ht. simpl in Ht.
  rewrite Hd3, Hd, Ht. apply drop_app_length.
Qed.

End Reconciler.

Section Dangling.

Context {World : Type} (rt : Runtime World).

Lemma ranged_iff_lookup (m : gmap string (list Firewall)) tag l :
  mapRange_visits_all rt →
  (tag, l) ∈ mapRange rt m ↔ m !! tag = Some l.
Proof. intros Hv. by rewrite (Hv m), elem_of_map_to_list. Qed.

Lemma listed_iff_keyed (m : gmap string (list Firewall)) fw :
  mapRange_visits_all rt →
  fw ∈ concat (map snd (mapRange rt m)) ↔ ∃ tag, keyed m tag fw.
Proof.
  intros Hv. rewrite elem_of_concat. split.
  - intros (l & Hl & Hin). apply list_elem_of_fmap in Hl as ([tag l'] & -> & Hl).
    apply ranged_iff_lookup in Hl; [|done]. exists tag, l'. done.
  - intros (tag & l & Hl & Hin). exists l. split; [|done].
    apply list_elem_of_fmap. exists (tag, l). split; [done|].
    by apply ranged_iff_lookup.
Qed.

(** C8, as the code has it.  When the pass lists the firewall rules, the
    zones and the instances of every zone, and its delete calls succeed:
    it answers 204; for a [gke-] tag that no listed instance in any zone
    carries, every firewall rule with that target tag is deleted; and a
    rule is deleted exactly when it has such a tag, so a rule all of
    whose [gke-] tags are on instances is left alone, while a tag that is
    on an instance does not keep a rule that also has a dangling [gke-]
    tag. *)
Theorem firewall_deleted_iff_dangling
    (r : Request) (app : App) (fws : list Firewall) (zones : list Zone)
    (instances : string → list Instance) (st st1 : State World) :
  mapRange_visits_all rt →
  getApp rt st = (Ok app, st1) →
  showsNetwork rt (project app) fws zones instances →
  deletesSucceed rt (project app) →
  (httpFirewallsCheck rt r st).1 = StatusNoContent
  ∧ (∀ tag fw,
       gke tag → ¬ observed zones instances tag →
       fw ∈ fws → tag ∈ Firewall_TargetTags fw →
       Firewall_Name fw ∈ deleted (httpFirewallsCheck rt r) st)
  ∧ (∀ name,
       name ∈ deleted (httpFirewallsCheck rt r) st
       ↔ ∃ fw, fw ∈ fws ∧ Firewall_Name fw = name ∧ dangling zones instances fw).
Proof.
  intros Hv Ha Hsh Hdel.
  destruct (httpFirewallsCheck_shows rt r app fws zones instances st st1 Ha Hsh Hdel)
    as (m' & Hst & -> & Hsc).
  pose proof (scanned_keyed fws zones instances m' Hsc) as Hk.
  assert (Hiff : ∀ name,
    name ∈ map Firewall_Name (concat (map snd (mapRange rt m')))
    ↔ ∃ fw, fw ∈ fws ∧ Firewall_Name fw = name ∧ dangling zones instances fw).
  { intros name. rewrite list_elem_of_fmap. split.
    - intros (fw & -> & Hin). apply listed_iff_keyed in Hin as (tag & Hkey); [|done].
      apply Hk in Hkey as (H1 & H2 & H3 & H4). exists fw. split; [done|].
      split; [done|]. by exists tag.
    - intros (fw & H1 & <- & tag & H2 & H3 & H4). exists fw. split; [done|].
      apply listed_iff_keyed; [done|]. exists tag. by apply Hk. }
  split; [done|]. split; [|done].
  intros tag fw Hg Hno Hin Htag. apply Hiff. exists fw. split; [done|].
  split; [done|]. by exists tag.
Qed.

End Dangling.

(** ** How often a rule is listed *)

Section Listing.

Context {World : Type} (rt : Runtime World).

Lemma entries_Permutation (l k : list (string * list Firewall)) :
  l ≡ₚ k →
  flat_map (λ kl, map (pair kl.1) kl.2) l ≡ₚ flat_map (λ kl, map (pair kl.1) kl.2) k.
Proof. intros H. by apply Permutation_flat_map. Qed.

(** Appending a rule under a tag adds one entry. *)
Lemma entries_insert (m : gmap string (list Firewall)) tag fw :
  entries (<[tag := (default [] (m !! tag) ++ [fw])%list]> m) ≡ₚ (tag, fw) :: entries m.
Proof.
  unfold entries. destruct (m !! tag) as [l|] eqn:Hl; simpl.
  - rewrite <- insert_delete_eq.
    rewrite (entries_Permutation _ _
               (map_to_list_insert (delete tag m) tag (l ++ [fw])%list
                  (lookup_delete_eq m tag))).
    rewrite <- (entries_Permutation _ _ (map_to_list_delete m tag l Hl)).
    simpl. rewrite map_app. simpl.
    rewrite <- app_assoc. simpl. by rewrite <- Permutation_middle.
  - by rewrite (entries_Permutation _ _ (map_to_list_insert m tag [fw] Hl)).
Qed.

Lemma entries_tags2fws_add m fw :
  entries (tags2fws_add m fw) ≡ₚ (entries m ++ ruleEntries fw)%list.
Proof.
  unfold tags2fws_add, ruleEntries. revert m.
  induction (Firewall_TargetTags fw) as [|t ts IH]; intros m; cbn [foldl flat_map].
  - by rewrite app_nil_r.
  - rewrite IH. destruct (strings.HasPrefix t "gke-"); [|done].
    rewrite entries_insert. simpl. by rewrite <- Permutation_middle.
Qed.

Lemma entries_tags2fws_of fws :
  entries (tags2fws_of fws) ≡ₚ flat_map ruleEntries fws.
Proof.
  unfold tags2fws_of.
  enough (∀ m, entries (foldl tags2fws_add m fws)
               ≡ₚ (entries m ++ flat_map ruleEntries fws)%list) as H.
  { rewrite H. unfold entries. by rewrite map_to_list_empty. }
  induction fws as [|fw fws IH]; intros m; cbn [foldl flat_map].
  - by rewrite app_nil_r.
  - by rewrite IH, entries_tags2fws_add, <- app_assoc.
Qed.

(** Dropping the keys that fail [K] drops their entries. *)
Lemma entries_scanned (K : string → Prop) `{!∀ t, Decision (K t)}
    (m m' : gmap string (list Firewall)) :
  (∀ tag l, m' !! tag = Some l ↔ m !! tag = Some l ∧ K tag) →
  entries m' ≡ₚ filter (λ e, K e.1) (entries m).
Proof.
  intros Hm'. unfold entries.
  assert (Hl : map_to_list m' ≡ₚ filter (λ kl, K kl.1) (map_to_list m)).
  { apply NoDup_Permutation.
    - apply NoDup_map_to_list.
    - apply NoDup_filter, NoDup_map_to_list.
    - intros [tag l]. rewrite list_elem_of_filter, !elem_of_map_to_list, Hm'. simpl.
      tauto. }
  rewrite (entries_Permutation _ _ Hl). clear Hl Hm'.
  induction (map_to_list m) as [|[tag l] kls IH]; [done|].
  rewrite filter_cons. simpl. rewrite filter_app, <- IH.
  destruct (decide (K tag)) as [Hk|Hk]; simpl.
  - assert (Hall : filter (λ e, K e.1) (map (pair tag) l) = map (pair tag) l).
    { clear IH. induction l as [|fw l IHl]; [done|]. simpl.
      rewrite filter_cons. simpl. rewrite decide_True by done. by rewrite IHl. }
    by rewrite Hall.
  - assert (Hnone : filter (λ e, K e.1) (map (pair tag) l) = []).
    { clear IH. induction l as [|fw l IHl]; [done|]. simpl.
      rewrite filter_cons. simpl. by rewrite decide_False. }
    by rewrite Hnone.
Qed.

Lemma concat_snd_entries (l : list (string * list Firewall)) :
  concat (map snd l) = map snd (flat_map (λ kl, map (pair kl.1) kl.2) l).
Proof.
  induction l as [|[tag fws] l IH]; [done|]. simpl.
  rewrite map_app, <- IH. f_equal. rewrite map_map. simpl. by rewrite map_id.
Qed.

(** Of the entries of a rule, those under tags no instance carries are as
    many as the dangling tags of the rule. *)
Lemma ruleEntries_dangling zones instances fw :
  map snd (filter (λ e, ¬ (gke e.1 ∧ observed zones instances e.1)) (ruleEntries fw))
  = replicate (length (danglingTags zones instances fw)) fw.
Proof.
  unfold ruleEntries, danglingTags.
  induction (Firewall_TargetTags fw) as [|t ts IH]; [done|].
  cbn [flat_map]. rewrite filter_app, map_app, IH, (filter_cons _ t). clear IH.
  destruct (strings.HasPrefix t "gke-") eqn:Hg.
  - rewrite filter_cons, filter_nil. simpl.
    destruct (decide (observed zones instances t)) as [Ho|Ho].
    + rewrite decide_False by (intros H; by apply H).
      rewrite decide_False by (by intros [_ ?]). done.
    + rewrite decide_True by (by intros [_ ?]).
      rewrite decide_True by done. done.
  - rewrite filter_nil. simpl.
    rewrite decide_False; [done|]. intros [H _]. unfold gke in H. congruence.
Qed.

(** What [ListDanglingFirewalls] returns, up to the order of the range:
    each rule once for each of its dangling tags. *)
Lemma listing_Permutation fws zones instances m' :
  mapRange_visits_all rt →
  scanned fws zones instances m' →
  concat (map snd (mapRange rt m'))
  ≡ₚ flat_map (λ fw, replicate (length (danglingTags zones instances fw)) fw) fws.
Proof.
  intros Hv Hsc. rewrite concat_snd_entries.
  rewrite (entries_Permutation _ _ (Hv m')). fold (entries m').
  rewrite (entries_scanned (λ tag, ¬ (gke tag ∧ observed zones instances tag))
             (tags2fws_of fws) m' Hsc).
  rewrite entries_tags2fws_of. clear Hsc.
  induction fws as [|fw fws IH]; [done|].
  cbn [flat_map]. rewrite filter_app, map_app, ruleEntries_dangling.
  by f_equiv.
Qed.

End Listing.

Section Repeated.

Context {World : Type} (rt : Runtime World).

Lemma map_flat_map_replicate {A B} (f : A → B) (n : A → nat) (l : list A) :
  map f (flat_map (λ x, replicate (n x) x) l)
  = flat_map (λ x, replicate (n x) (f x)) l.
Proof.
  induction l as [|x l IH]; [done|]. cbn [flat_map].
  rewrite map_app, IH. f_equal. apply (fmap_replicate f).
Qed.

Lemma replicate_submseteq_flat_map {A B} (f : A → B) (n : A → nat) (l : list A) x :
  x ∈ l → replicate (n x) (f x) ⊆+ flat_map (λ x, replicate (n x) (f x)) l.
Proof.
  intros (l1 & l2 & ->)%list_elem_of_split.
  rewrite flat_map_app. cbn [flat_map]. apply submseteq_middle.
Qed.

(** C10.  When nothing fails, [ListDanglingFirewalls] returns each
    firewall rule once for each of its [gke-] target tags that no listed
    instance carries (in the order in which the map is ranged over), and
    the pass asks for the deletion of the rule as many times: a rule with
    two such tags is deleted twice in one pass. *)
Theorem rule_listed_once_per_dangling_tag
    (r : Request) (app : App) (fws : list Firewall) (zones : list Zone)
    (instances : string → list Instance) (st st1 : State World) :
  mapRange_visits_all rt →
  getApp rt st = (Ok app, st1) →
  showsNetwork rt (project app) fws zones instances →
  deletesSucceed rt (project app) →
  (∃ ret st2,
     ListDanglingFirewalls rt app st1 = (Ok ret, st2)
     ∧ ret ≡ₚ flat_map (λ fw, replicate (length (danglingTags zones instances fw)) fw) fws)
  ∧ deleted (httpFirewallsCheck rt r) st
    ≡ₚ flat_map (λ fw, replicate (length (danglingTags zones instances fw))
                         (Firewall_Name fw)) fws
  ∧ ∀ fw, fw ∈ fws →
      replicate (length (danglingTags zones instances fw)) (Firewall_Name fw)
      ⊆+ deleted (httpFirewallsCheck rt r) st.
Proof.
  intros Hv Ha Hsh Hdel.
  assert (Hdeleted : deleted (httpFirewallsCheck rt r) st
    ≡ₚ flat_map (λ fw, replicate (length (danglingTags zones instances fw))
                         (Firewall_Name fw)) fws).
  { destruct (httpFirewallsCheck_shows rt r app fws zones instances st st1 Ha Hsh Hdel)
      as (m' & _ & -> & Hsc).
    rewrite (listing_Permutation rt fws zones instances m' Hv Hsc).
    by rewrite (map_flat_map_replicate Firewall_Name). }
  split; [|split; [exact Hdeleted|]].
  - destruct (ListDanglingFirewalls_shows rt app fws zones instances st1 Hsh)
      as (m' & st2 & Hl & Hsc & _).
    eexists _, st2. split; [exact Hl|].
    by apply listing_Permutation.
  - intros fw Hin. rewrite Hdeleted.
    apply (replicate_submseteq_flat_map Firewall_Name
             (λ fw, length (danglingTags zones instances fw))), Hin.
Qed.

End Repeated.

(** ** Self-link parsing *)

Section Parsing.

Lemma substring_all (s : string) : String.substring 0 (String.length s) s = s.
Proof. induction s as [|c s IH]; simpl; [done|]. by rewrite IH. Qed.

Lemma slice_from_0 (s : string) : slice_from s 0 = s.
Proof.
  unfold slice_from, slice, len. rewrite Z.sub_0_r, Nat2Z.id. apply substring_all.
Qed.

Lemma slice_from_succ (c : Ascii.ascii) (s : string) (i : Z) :
  0 <= i → slice_from (String c s) (i + 1) = slice_from s i.
Proof.
  intros Hi. unfold slice_from, slice, len. simpl String.length.
  replace (Z.to_nat (i + 1)) with (S (Z.to_nat i)) by lia.
  replace (Z.of_nat (S (String.length s)) - (i + 1))
    with (Z.of_nat (String.length s) - i) by lia.
  reflexivity.
Qed.

(** Where [Index] finds the substring, the string goes on with it. *)
Lemma Index_found (s sub : string) :
  0 <= strings.Index s sub →
  strings.HasPrefix (slice_from s (strings.Index s sub)) sub = true.
Proof.
  induction s as [|c s IH]; cbn [strings.Index].
  - destruct (strings.HasPrefix "" sub) eqn:Hp; [|lia]. intros _.
    by rewrite slice_from_0.
  - destruct (strings.HasPrefix (String c s) sub) eqn:Hp.
    + intros _. by rewrite slice_from_0.
    + destruct (Z.ltb_spec (strings.Index s sub) 0) as [Hlt|Hge]; [lia|].
      intros _. rewrite slice_from_succ by done. by apply IH.
Qed.

Lemma HasPrefix_LastIndex (s sub : string) :
  strings.HasPrefix s sub = true → 0 <= strings.LastIndex s sub.
Proof.
  destruct s as [|c s]; cbn [strings.LastIndex].
  - by intros ->.
  - intros ->. destruct (Z.leb_spec 0 (strings.LastIndex s sub)); lia.
Qed.

Lemma HasPrefix_slash (s keyword : string) :
  strings.HasPrefix s ("/" ++ keyword) = true → strings.HasPrefix s "/" = true.
Proof.
  cbv beta iota delta [String.append]. destruct s as [|c s]; cbn; [done|].
  destruct (Ascii.eqb c _); [|by intros [=]]. intros _. by destruct s.
Qed.

(** The search for the name starts at the slash before the keyword, so
    it always finds a slash: no parser ever reports a missing name. *)
Lemma name_always_found (s keyword : string) :
  0 <= strings.Index s ("/" ++ keyword) →
  0 <= strings.LastIndex (slice_from s (strings.Index s ("/" ++ keyword))) "/".
Proof.
  intros Hi. apply HasPrefix_LastIndex, (HasPrefix_slash _ keyword).
  by apply Index_found.
Qed.

Lemma parseURL_finds_name (s keyword : string) :
  (parseURL s keyword).2 ≠ Some (errors_New "failed to find name").
Proof.
  unfold parseURL.
  destruct (Z.leb_spec 0 (strings.Index s ("/" ++ keyword))) as [Hi|]; [|done].
  destruct (0 <=? strings.LastIndex (slice_to s _) "/"); [|done].
  pose proof (name_always_found s keyword Hi) as Hn.
  by rewrite (proj2 (Z.leb_le _ _) Hn).
Qed.

(** C7.  A link that ends with the collection keyword, with no separator
    and no name after it, is parsed without an error, and the keyword
    itself comes back as the name. *)
Theorem link_without_name_parses :
  ParseUrlMap
    "https://www.googleapis.com/compute/v1/projects/builderscon-1248/global/urlMaps"
  = ("urlMaps", "global", None)
  ∧ ParseTargetProxy
      "https://www.googleapis.com/compute/v1/projects/builderscon-1248/global/targetHttpsProxies"
    = ("targetHttpsProxies", "global", true, None)
  ∧ parseURL
      "https://www.googleapis.com/compute/v1/projects/builderscon-1248/global/backendServices"
      "backendServices"
    = ("backendServices", "global", None)
  ∧ ∀ s keyword, (parseURL s keyword).2 ≠ Some (errors_New "failed to find name").
Proof.
  split; [vm_compute; reflexivity|]. split; [vm_compute; reflexivity|].
  split; [vm_compute; reflexivity|]. apply parseURL_finds_name.
Qed.

End Parsing.

(** ** Well-formed links *)

Section WellFormed.

Lemma app_cons (c : Ascii.ascii) (a s : string) :
  String c a ++ s = String c (a ++ s).
Proof. reflexivity. Qed.

Lemma len_app (a b : string) : len (a ++ b) = len a + len b.
Proof.
  unfold len. induction a as [|c a IH]; [reflexivity|].
  rewrite app_cons. simpl String.length. lia.
Qed.

Lemma len_nonneg (s : string) : 0 <= len s.
Proof. unfold len. lia. Qed.

Lemma app_assoc_string (a b c : string) : (a ++ b) ++ c = a ++ b ++ c.
Proof. induction a as [|x a IH]; [reflexivity|]. by rewrite !app_cons, IH. Qed.

Lemma substring_app_l (a b : string) :
  String.substring 0 (String.length a) (a ++ b) = a.
Proof.
  induction a as [|c a IH]; simpl String.length.
  - by destruct b.
  - rewrite app_cons. simpl. by rewrite IH.
Qed.

Lemma substring_app_drop (a b : string) (n m : nat) :
  String.substring (String.length a + n) m (a ++ b) = String.substring n m b.
Proof. induction a as [|c a IH]; [reflexivity|]. rewrite app_cons. exact IH. Qed.

Lemma slice_to_app (a b : string) : slice_to (a ++ b) (len a) = a.
Proof.
  unfold slice_to, slice, len. rewrite Z.sub_0_r, Nat2Z.id. apply substring_app_l.
Qed.

Lemma slice_from_app (a b : string) : slice_from (a ++ b) (len a) = b.
Proof.
  unfold slice_from, slice. rewrite len_app. unfold len.
  replace (Z.to_nat (Z.of_nat (String.length a)))
    with (String.length a + 0)%nat by lia.
  rewrite substring_app_drop.
  replace (Z.to_nat _) with (String.length b) by lia.
  apply substring_all.
Qed.

Lemma slice_app_middle (a b c : string) :
  slice (a ++ b ++ c) (len a) (len a + len b) = b.
Proof.
  unfold slice, len.
  replace (Z.to_nat (Z.of_nat (String.length a)))
    with (String.length a + 0)%nat by lia.
  rewrite substring_app_drop.
  replace (Z.to_nat _) with (String.length b) by lia.
  apply substring_app_l.
Qed.

Lemma HasPrefix_nil (s : string) : strings.HasPrefix s "" = true.
Proof. by destruct s. Qed.

Lemma LastIndex_ge (s sub : string) : -1 <= strings.LastIndex s sub.
Proof.
  induction s as [|c s IH]; cbn [strings.LastIndex].
  - destruct (strings.HasPrefix "" sub); lia.
  - destruct (Z.leb_spec 0 (strings.LastIndex s sub)); [lia|].
    destruct (strings.HasPrefix (String c s) sub); lia.
Qed.

(** A string without the substring has no last occurrence of it either. *)
Lemma Index_none_LastIndex (s sub : string) :
  strings.Index s sub = -1 → strings.LastIndex s sub = -1.
Proof.
  induction s as [|c s IH]; cbn [strings.Index strings.LastIndex].
  - by destruct (strings.HasPrefix "" sub).
  - destruct (strings.HasPrefix (String c s) sub); [done|].
    destruct (Z.ltb_spec (strings.Index s sub) 0) as [Hlt|Hge]; [|lia].
    intros _. rewrite IH; [done|].
    assert (-1 <= strings.Index s sub); [|lia].
    clear. induction s as [|c s IH]; cbn [strings.Index].
    + destruct (strings.HasPrefix "" sub); lia.
    + destruct (strings.HasPrefix (String c s) sub); [lia|].
      destruct (Z.ltb_spec (strings.Index s sub) 0); lia.
Qed.

Lemma LastIndex_app (a t sub : string) :
  0 <= strings.LastIndex t sub →
  strings.LastIndex (a ++ t) sub = len a + strings.LastIndex t sub.
Proof.
  intros Ht. induction a as [|c a IH]; [reflexivity|].
  rewrite app_cons. cbn [strings.LastIndex]. rewrite IH.
  rewrite (proj2 (Z.leb_le _ _)) by (pose proof (len_nonneg a); lia).
  unfold len. simpl String.length. lia.
Qed.

Lemma LastIndex_slash (b : string) :
  strings.Index b "/" = -1 → strings.LastIndex ("/" ++ b) "/" = 0.
Proof.
  intros Hb. rewrite app_cons. cbn [strings.LastIndex].
  change ("" ++ b) with b. rewrite (Index_none_LastIndex _ _ Hb).
  cbn. by rewrite HasPrefix_nil.
Qed.

(** X1.  For a link [prefix/scope/keyword/name] whose scope and name hold
    no slash and in which the keyword first occurs after the scope,
    [parseURL] gives back the name and the scope. *)
Lemma parseURL_well_formed (prefix scope keyword name : string) :
  strings.Index (prefix ++ "/" ++ scope ++ "/" ++ keyword ++ "/" ++ name) ("/" ++ keyword)
  = len prefix + 1 + len scope →
  strings.Index scope "/" = -1 →
  strings.Index name "/" = -1 →
  parseURL (prefix ++ "/" ++ scope ++ "/" ++ keyword ++ "/" ++ name) keyword
  = (name, scope, None).
Proof.
  intros Hpos Hscope Hname. unfold parseURL. rewrite Hpos.
  pose proof (len_nonneg prefix). pose proof (len_nonneg scope).
  pose proof (len_nonneg keyword).
  rewrite (proj2 (Z.leb_le 0 _)) by lia.
  set (s := prefix ++ "/" ++ scope ++ "/" ++ keyword ++ "/" ++ name).
  assert (Hs1 : s = (prefix ++ "/" ++ scope) ++ ("/" ++ keyword) ++ "/" ++ name).
  { unfold s. by rewrite !app_assoc_string. }
  assert (Hl1 : len (prefix ++ "/" ++ scope) = len prefix + 1 + len scope).
  { rewrite !len_app. change (len "/") with 1. lia. }
  assert (Hto : slice_to s (len prefix + 1 + len scope) = prefix ++ "/" ++ scope).
  { rewrite Hs1, <- Hl1. apply slice_to_app. }
  assert (Hfrom : slice_from s (len prefix + 1 + len scope)
                  = ("/" ++ keyword) ++ "/" ++ name).
  { rewrite Hs1, <- Hl1. apply slice_from_app. }
  rewrite Hto, Hfrom.
  rewrite (LastIndex_app prefix ("/" ++ scope) "/")
    by (rewrite (LastIndex_slash _ Hscope); lia).
  rewrite (LastIndex_slash _ Hscope), Z.add_0_r.
  rewrite (proj2 (Z.leb_le 0 _)) by lia.
  rewrite (LastIndex_app ("/" ++ keyword) ("/" ++ name) "/")
    by (rewrite (LastIndex_slash _ Hname); lia).
  rewrite (LastIndex_slash _ Hname), Z.add_0_r.
  rewrite (proj2 (Z.leb_le 0 _)) by (pose proof (len_nonneg ("/" ++ keyword)); lia).
  do 2 f_equal.
  - assert (Hs2 : s = ((prefix ++ "/" ++ scope) ++ ("/" ++ keyword) ++ "/") ++ name).
    { unfold s. by rewrite !app_assoc_string. }
    replace (len prefix + 1 + len scope + len ("/" ++ keyword) + 1)
      with (len ((prefix ++ "/" ++ scope) ++ ("/" ++ keyword) ++ "/")).
    + rewrite Hs2 at 1. apply slice_from_app.
    + rewrite !len_app. change (len "/") with 1. lia.
  - assert (Hs3 : s = (prefix ++ "/") ++ scope ++ ("/" ++ keyword ++ "/" ++ name)).
    { unfold s. by rewrite !app_assoc_string. }
    replace (len prefix + 1) with (len (prefix ++ "/"))
      by (rewrite len_app; reflexivity).
    replace (len prefix + 1 + len scope) with (len (prefix ++ "/") + len scope)
      by (rewrite len_app; change (len "/") with 1; lia).
    rewrite Hs3. apply slice_app_middle.
Qed.

(** [ParseUrlMap] is [parseURL] at the keyword [urlMaps], up to the text
    of the error for a missing keyword. *)
Lemma ParseUrlMap_parseURL (s : string) :
  0 <= strings.Index s "/urlMaps" → ParseUrlMap s = parseURL s "urlMaps".
Proof.
  intros Hi. unfold ParseUrlMap, parseURL. change ("/" ++ "urlMaps") with "/urlMaps".
  by rewrite (proj2 (Z.leb_le 0 _) Hi).
Qed.

End WellFormed.

(** The cases of the repository's parser tests. *)
Example ParseTargetProxy_test1 :
  ParseTargetProxy "https://www.googleapis.com/compute/v1/projects/builderscon-1248/global/targetHttpProxies/k8s-tp-default-apiserver--c4f34d3824aedd50"
  = ("k8s-tp-default-apiserver--c4f34d3824aedd50", "global", false, None).
Proof. vm_compute. reflexivity. Qed.

Example ParseTargetProxy_test2 :
  ParseTargetProxy "https://www.googleapis.com/compute/v1/projects/builderscon-1248/global/targetHttpsProxies/k8s-tps-default-builderscon--c4f34d3824aedd50"
  = ("k8s-tps-default-builderscon--c4f34d3824aedd50", "global", true, None).
Proof. vm_compute. reflexivity. Qed.

Example ParseUrlMap_test1 :
  ParseUrlMap "https://www.googleapis.com/compute/v1/projects/builderscon-1248/global/urlMaps/k8s-um-default-builderscon--c4f34d3824aedd50"
  = ("k8s-um-default-builderscon--c4f34d3824aedd50", "global", None).
Proof. vm_compute. reflexivity. Qed.

(** ** What a successful parse says about the link *)

Section Links.

Lemma Index_lower (s sub : string) : -1 <= strings.Index s sub.
Proof.
  induction s as [|c s IH]; cbn [strings.Index].
  - destruct (strings.HasPrefix "" sub); lia.
  - destruct (strings.HasPrefix (String c s) sub); [lia|].
    destruct (Z.ltb_spec (strings.Index s sub) 0); lia.
Qed.

Lemma HasPrefix_len (s sub : string) :
  strings.HasPrefix s sub = true → len sub <= len s.
Proof.
  revert sub. induction s as [|c s IH]; intros [|p sub]; cbn [strings.HasPrefix];
    unfold len in *; simpl String.length; try done; try lia.
  intros [_ H]%andb_true_iff. specialize (IH _ H). lia.
Qed.

Lemma Index_upper (s sub : string) :
  0 <= strings.Index s sub → strings.Index s sub + len sub <= len s.
Proof.
  induction s as [|c s IH]; cbn [strings.Index].
  - destruct (strings.HasPrefix "" sub) eqn:Hp; [|lia]. intros _.
    apply HasPrefix_len in Hp. lia.
  - destruct (strings.HasPrefix (String c s) sub) eqn:Hp.
    + intros _. apply HasPrefix_len in Hp. lia.
    + destruct (Z.ltb_spec (strings.Index s sub) 0); [lia|]. intros _.
      specialize (IH ltac:(lia)). unfold len in *. simpl String.length. lia.
Qed.

Lemma LastIndex_upper (s sub : string) :
  0 <= strings.LastIndex s sub → strings.LastIndex s sub + len sub <= len s.
Proof.
  induction s as [|c s IH]; cbn [strings.LastIndex].
  - destruct (strings.HasPrefix "" sub) eqn:Hp; [|lia]. intros _.
    apply HasPrefix_len in Hp. lia.
  - destruct (Z.leb_spec 0 (strings.LastIndex s sub)).
    + intros _. specialize (IH ltac:(lia)). unfold len in *. simpl String.length. lia.
    + destruct (strings.HasPrefix (String c s) sub) eqn:Hp; [|lia]. intros _.
      apply HasPrefix_len in Hp. lia.
Qed.

(** Where [LastIndex] finds the substring, the string goes on with it. *)
Lemma LastIndex_found (s sub : string) :
  0 <= strings.LastIndex s sub →
  strings.HasPrefix (slice_from s (strings.LastIndex s sub)) sub = true.
Proof.
  induction s as [|c s IH]; cbn [strings.LastIndex].
  - destruct (strings.HasPrefix "" sub) eqn:Hp; [|lia]. intros _.
    by rewrite slice_from_0.
  - destruct (Z.leb_spec 0 (strings.LastIndex s sub)) as [Hi|Hi].
    + intros _. rewrite slice_from_succ by done. by apply IH.
    + destruct (strings.HasPrefix (String c s) sub) eqn:Hp; [|lia]. intros _.
      by rewrite slice_from_0.
Qed.

Lemma LastIndex_none_Index (s sub : string) :
  strings.LastIndex s sub = -1 → strings.Index s sub = -1.
Proof.
  induction s as [|c s IH]; cbn [strings.Index strings.LastIndex].
  - by destruct (strings.HasPrefix "" sub).
  - destruct (Z.leb_spec 0 (strings.LastIndex s sub)) as [Hi|Hi]; [lia|].
    destruct (strings.HasPrefix (String c s) sub); [lia|]. intros _.
    rewrite IH by (pose proof (LastIndex_ge s sub); lia). done.
Qed.

Lemma Index_LastIndex_found (s sub : string) :
  0 <= strings.LastIndex s sub ↔ 0 <= strings.Index s sub.
Proof.
  pose proof (LastIndex_ge s sub). pose proof (Index_lower s sub). split; intros Hi.
  - destruct (decide (strings.Index s sub = -1)) as [Hn|]; [|lia].
    apply Index_none_LastIndex in Hn. lia.
  - destruct (decide (strings.LastIndex s sub = -1)) as [Hn|]; [|lia].
    apply LastIndex_none_Index in Hn. lia.
Qed.

(** After its last occurrence the substring does not occur again. *)
Lemma LastIndex_last (s sub : string) :
  sub ≠ "" →
  0 <= strings.LastIndex s sub →
  strings.Index (slice_from s (strings.LastIndex s sub + 1)) sub = -1.
Proof.
  intros Hsub. induction s as [|c s IH]; cbn [strings.LastIndex].
  - destruct (strings.HasPrefix "" sub) eqn:Hp; [|lia]. by destruct sub.
  - destruct (Z.leb_spec 0 (strings.LastIndex s sub)) as [Hi|Hi].
    + intros _. rewrite slice_from_succ by lia. by apply IH.
    + destruct (strings.HasPrefix (String c s) sub) eqn:Hp; [|lia]. intros _.
      rewrite (slice_from_succ c s 0) by lia. rewrite slice_from_0.
      apply LastIndex_none_Index. pose proof (LastIndex_ge s sub). lia.
Qed.

Lemma substring_split (s : string) (n : nat) :
  (n <= String.length s)%nat →
  s = String.substring 0 n s ++ String.substring n (String.length s - n) s.
Proof.
  revert n. induction s as [|c s IH]; intros [|n] Hn; simpl in *; try lia.
  - done.
  - f_equal. by rewrite substring_all.
  - rewrite app_cons. f_equal. apply IH. lia.
Qed.

(** [s = s[:k] + s[k:]] *)
Lemma slice_split (s : string) (k : Z) :
  0 <= k <= len s → s = slice_to s k ++ slice_from s k.
Proof.
  intros Hk. unfold slice_to, slice_from, slice, len in *.
  rewrite Z.sub_0_r. change (Z.to_nat 0) with 0%nat.
  replace (Z.to_nat (Z.of_nat (String.length s) - k))
    with (String.length s - Z.to_nat k)%nat by lia.
  apply substring_split. lia.
Qed.

Lemma len_slice_to (s : string) (k : Z) : 0 <= k <= len s → len (slice_to s k) = k.
Proof.
  intros Hk. unfold slice_to, slice, len in *. rewrite Z.sub_0_r.
  change (Z.to_nat 0) with 0%nat.
  assert (∀ (t : string) (n : nat), (n <= String.length t)%nat →
            String.length (String.substring 0 n t) = n) as H.
  { induction t as [|c t IH]; intros [|n] Hn; simpl in *; try lia. by rewrite IH by lia. }
  rewrite H by lia. lia.
Qed.

(** [s[a:][b:] = s[a+b:]] *)
Lemma slice_from_from (s : string) (a b : Z) :
  0 <= a <= len s → 0 <= b → slice_from (slice_from s a) b = slice_from s (a + b).
Proof.
  intros Ha Hb.
  rewrite (slice_split s a Ha) at 2.
  assert (Hl : len (slice_to s a) = a) by (by apply len_slice_to).
  set (pre := slice_to s a) in *. set (t := slice_from s a).
  clearbody pre t. subst a. clear Ha.
  unfold slice_from at 2. unfold slice. rewrite len_app.
  unfold len. replace (Z.to_nat (Z.of_nat (String.length pre) + b))
    with (String.length pre + Z.to_nat b)%nat by lia.
  rewrite substring_app_drop. unfold slice_from, slice, len. f_equal. lia.
Qed.

(** [s[:b][a:] = s[a:b]] *)
Lemma slice_to_from (s : string) (a b : Z) :
  0 <= a → 0 <= b <= len s → slice_from (slice_to s b) a = slice s a b.
Proof.
  intros Ha Hb. unfold slice_from. rewrite len_slice_to by done.
  unfold slice_to, slice. rewrite Z.sub_0_r. change (Z.to_nat 0) with 0%nat.
  assert (∀ (t : string) (n m k : nat),
            String.substring n m (String.substring 0 (n + m + k) t)
            = String.substring n m t) as H.
  { assert (∀ n m, String.substring n m "" = "") as Hnil by (by intros [|?] [|?]).
    induction t as [|c t IH]; intros n m k.
    - by rewrite !Hnil.
    - destruct n as [|n]; simpl.
      + destruct m as [|m]; simpl; [by destruct k|]. f_equal.
        apply (IH 0%nat m k).
      + apply (IH n m k). }
  destruct (Z.le_gt_cases a b) as [Hab|Hab].
  - replace (Z.to_nat b) with (Z.to_nat a + Z.to_nat (b - a) + 0)%nat by lia.
    apply H.
  - replace (Z.to_nat (b - a)) with 0%nat by lia.
    assert (∀ (t : string) (n : nat), String.substring n 0 t = "") as H0.
    { induction t as [|c t IH]; intros [|n]; simpl; auto. }
    by rewrite !H0.
Qed.

Lemma HasPrefix_head (s : string) :
  strings.HasPrefix s "/" = true → ∃ t, s = "/" ++ t.
Proof.
  destruct s as [|c s]; cbn; [done|].
  match goal with |- context [Ascii.eqb c ?x] => destruct (Ascii.eqb_spec c x) as [->|] end;
    [|done].
  intros _. by exists s.
Qed.

End Links.

Section Shapes.

(** A string with a slash, cut at its last slash. *)
Lemma cut_at_last_slash (t : string) :
  0 <= strings.LastIndex t "/" →
  t = slice_to t (strings.LastIndex t "/") ++ "/"
      ++ slice_from t (strings.LastIndex t "/" + 1)
  ∧ strings.Index (slice_from t (strings.LastIndex t "/" + 1)) "/" = -1.
Proof.
  intros Hi. pose proof (LastIndex_upper t "/" Hi) as Hu. change (len "/") with 1 in Hu.
  split; [|by apply LastIndex_last].
  destruct (HasPrefix_head _ (LastIndex_found t "/" Hi)) as [x Hx].
  rewrite <- (slice_from_from t _ 1) by lia. rewrite Hx.
  rewrite (slice_from_app "/" x : slice_from ("/" ++ x) 1 = x).
  rewrite <- Hx. apply slice_split. lia.
Qed.

(** X2.  When [parseURL] succeeds, the link has the shape it was parsed
    for: it is [a/region] followed by a part that starts with [/keyword]
    and ends with [/name], and neither the region nor the name holds a
    slash. *)
Theorem parseURL_shape (s keyword name region : string) :
  parseURL s keyword = (name, region, None) →
  ∃ a b,
    s = a ++ "/" ++ region ++ b ++ "/" ++ name
    ∧ strings.HasPrefix (b ++ "/" ++ name) ("/" ++ keyword) = true
    ∧ strings.Index region "/" = -1
    ∧ strings.Index name "/" = -1.
Proof.
  unfold parseURL. set (pos := strings.Index s ("/" ++ keyword)).
  destruct (Z.leb_spec 0 pos) as [Hpos|]; [|done].
  destruct (Z.leb_spec 0 (strings.LastIndex (slice_to s pos) "/")) as [H1|]; [|done].
  destruct (Z.leb_spec 0 (strings.LastIndex (slice_from s pos) "/")) as [H2|]; [|done].
  intros [= <- <-].
  pose proof (Index_upper s _ Hpos) as Hu. fold pos in Hu.
  pose proof (len_nonneg ("/" ++ keyword)) as Hk.
  assert (Hps : 0 <= pos <= len s) by lia.
  destruct (cut_at_last_slash _ H1) as [Hc1 Hn1].
  destruct (cut_at_last_slash _ H2) as [Hc2 Hn2].
  rewrite slice_to_from in Hc1, Hn1 by lia.
  rewrite slice_from_from in Hc2, Hn2 by lia.
  rewrite Z.add_assoc in Hc2, Hn2.
  exists (slice_to (slice_to s pos) (strings.LastIndex (slice_to s pos) "/")),
    (slice_to (slice_from s pos) (strings.LastIndex (slice_from s pos) "/")).
  split; [|split; [|done]].
  - rewrite (slice_split s pos Hps) at 1. rewrite Hc1 at 1. rewrite Hc2 at 1.
    by rewrite !app_assoc_string.
  - rewrite <- Hc2. by apply Index_found.
Qed.

(** A failed [parseURL] gives back no name and no region. *)
Lemma parseURL_failure (s keyword : string) :
  (parseURL s keyword).2 ≠ None → (parseURL s keyword).1 = ("", "").
Proof.
  unfold parseURL. set (pos := strings.Index s ("/" ++ keyword)).
  destruct (Z.leb_spec 0 pos) as [Hpos|Hpos]; [|done].
  destruct (0 <=? strings.LastIndex (slice_to s pos) "/"); [|done].
  pose proof (name_always_found s keyword Hpos) as Hn. fold pos in Hn.
  rewrite (proj2 (Z.leb_le _ _) Hn). by intros [].
Qed.

(** X3.  [parseURL] succeeds exactly when the link holds [/keyword] and a
    slash before it; whenever it fails, both the name and the region it
    gives back are empty. *)
Theorem parseURL_errors (s keyword : string) :
  ((parseURL s keyword).2 = None
   ↔ 0 <= strings.Index s ("/" ++ keyword)
     ∧ 0 <= strings.Index (slice_to s (strings.Index s ("/" ++ keyword))) "/")
  ∧ ((parseURL s keyword).2 ≠ None → (parseURL s keyword).1 = ("", "")).
Proof.
  split; [|apply parseURL_failure].
  unfold parseURL. set (pos := strings.Index s ("/" ++ keyword)).
  destruct (Z.leb_spec 0 pos) as [Hpos|Hpos]; [|split; [done|lia]].
  rewrite <- Index_LastIndex_found.
  destruct (Z.leb_spec 0 (strings.LastIndex (slice_to s pos) "/")) as [H1|H1];
    [|split; [done|lia]].
  pose proof (name_always_found s keyword Hpos) as Hn. fold pos in Hn.
  by rewrite (proj2 (Z.leb_le _ _) Hn).
Qed.

(** X4.  The parsers written out by hand are [parseURL] at their keyword:
    [ParseUrlMap] in every case, [ParseInstanceGroup] up to the text of
    the error for a missing zone, and [ParseTargetProxy] at the HTTP
    keyword when the link holds it and at the HTTPS keyword otherwise,
    with the protocol flag set accordingly. *)
Theorem parsers_agree_with_parseURL (s : string) :
  ParseUrlMap s = parseURL s "urlMaps"
  ∧ (ParseInstanceGroup s = parseURL s "instanceGroups"
     ∨ (ParseInstanceGroup s = ("", "", Some (errors_New "failed to find zone"))
        ∧ parseURL s "instanceGroups"
          = ("", "", Some (errors_New "failed to find region"))))
  ∧ (0 <= strings.Index s "/targetHttpProxies" →
     ParseTargetProxy s
     = ((parseURL s "targetHttpProxies").1, false, (parseURL s "targetHttpProxies").2))
  ∧ (strings.Index s "/targetHttpProxies" < 0 →
     0 <= strings.Index s "/targetHttpsProxies" →
     ParseTargetProxy s
     = ((parseURL s "targetHttpsProxies").1, true, (parseURL s "targetHttpsProxies").2))
  ∧ (strings.Index s "/targetHttpProxies" < 0 →
     strings.Index s "/targetHttpsProxies" < 0 →
     (ParseTargetProxy s).2 ≠ None ∧ (ParseTargetProxy s).1 = ("", "", false)).
Proof.
  split; [|split; [|split; [|split]]].
  - unfold ParseUrlMap, parseURL. change ("/" ++ "urlMaps") with "/urlMaps".
    by destruct (0 <=? strings.Index s "/urlMaps").
  - unfold ParseInstanceGroup, parseURL.
    change ("/" ++ "instanceGroups") with "/instanceGroups".
    destruct (0 <=? strings.Index s "/instanceGroups"); [|by left].
    destruct (0 <=? strings.LastIndex (slice_to s _) "/"); [by left|by right].
  - intros Hi. unfold ParseTargetProxy, parseURL.
    change ("/" ++ "targetHttpProxies") with "/targetHttpProxies".
    rewrite (proj2 (Z.leb_le _ _) Hi).
    destruct (0 <=? strings.LastIndex (slice_to s _) "/"); [|done].
    by destruct (0 <=? strings.LastIndex (slice_from s _) "/").
  - intros Hn Hi. unfold ParseTargetProxy, parseURL.
    change ("/" ++ "targetHttpsProxies") with "/targetHttpsProxies".
    rewrite (proj2 (Z.leb_gt _ _) Hn), (proj2 (Z.leb_le _ _) Hi).
    destruct (0 <=? strings.LastIndex (slice_to s _) "/"); [|done].
    by destruct (0 <=? strings.LastIndex (slice_from s _) "/").
  - intros Hn Hn'. unfold ParseTargetProxy.
    by rewrite (proj2 (Z.leb_gt _ _) Hn), (proj2 (Z.leb_gt _ _) Hn').
Qed.

End Shapes.

(** ** What a run adds to the trace *)

Section Adds.

Context {World : Type} (rt : Runtime World).

Lemma adds_ret {A} (P : Event → Prop) (a : A) : adds (World := World) P (mret a).
Proof. intros st. exists []. by rewrite app_nil_r. Qed.

Lemma adds_bind {A B} (P : Event → Prop) (m : M World A) (k : A → M World B) :
  adds P m → (∀ a, adds P (k a)) → adds P (m ≫= k).
Proof.
  intros Hm Hk st. unfold mbind, M_bind, bind.
  destruct (Hm st) as (evs & Ht & Hp). destruct (m st) as [a st1].
  destruct (Hk a st1) as (evs' & Ht' & Hp'). destruct (k a st1) as [b st2].
  exists (evs ++ evs')%list. simpl in *. rewrite Ht', Ht, <- app_assoc.
  split; [done|]. by apply Forall_app.
Qed.

Lemma adds_mono {A} (P Q : Event → Prop) (m : M World A) :
  (∀ e, P e → Q e) → adds P m → adds Q m.
Proof.
  intros HPQ Hm st. destruct (Hm st) as (evs & Ht & Hp). exists evs.
  split; [done|]. eapply Forall_impl; eauto.
Qed.

Lemma adds_call (P : Event → Prop) (c : ApiCall) : P (Api c) → adds P (call rt c).
Proof.
  intros Hc st. exists [Api c]. unfold call. destruct (Do rt c (world st)).
  split; [done|]. by constructor.
Qed.

Lemma adds_now (P : Event → Prop) : adds P (now rt).
Proof.
  intros st. exists []. unfold now. destruct (time_Now rt (world st)).
  simpl. by rewrite app_nil_r.
Qed.

Lemma adds_getApp (P : Event → Prop) : adds P (getApp rt).
Proof.
  intros st. exists []. unfold getApp. destruct (AppengineApp rt (world st)).
  simpl. by rewrite app_nil_r.
Qed.

Lemma adds_taskqueueAdd (P : Event → Prop) (t : Task) (q : string) :
  P (taskqueue_Add t q) → adds P (taskqueueAdd rt t q).
Proof. intros Ht st. exists [taskqueue_Add t q]. split; [done|]. by constructor. Qed.

Lemma adds_addTasks (P : Event → Prop) (tasks : list Task) :
  (∀ t, t ∈ tasks → P (taskqueue_Add t (queueName rt))) → adds P (addTasks rt tasks).
Proof.
  induction tasks as [|t ts IH]; intros Hp; simpl; [apply adds_ret|].
  apply adds_bind.
  - apply adds_taskqueueAdd, Hp. by left.
  - intros _. apply IH. intros t' Hin. apply Hp. by right.
Qed.

(** A computation that adds only API calls hands nothing to the queue,
    and one that adds only tasks makes no call. *)
Lemma adds_enqueued {A} (m : M World A) :
  adds (λ e, ∃ c, e = Api c) m → quiet m.
Proof.
  intros Hm st. destruct (Hm st) as (evs & -> & Hp). rewrite enqueued_app.
  rewrite <- (app_nil_r (enqueued (trace st))) at 2. f_equal.
  induction Hp as [|e evs [c ->] _ IH]; [done|exact IH].
Qed.

End Adds.

Ltac adds_call rt :=
  lazymatch goal with
  | |- adds ?P (call _ ?c) => refine (adds_call rt P c _); first [done|eauto]
  end.

(** Membership in a list that is written out. *)
Ltac listed :=
  repeat first [apply list_elem_of_here|apply list_elem_of_further].

(** ** The check handlers *)

Section Checks.

Context {World : Type} (rt : Runtime World).

Lemma adds_called {A} (P : Event → Prop) (m : M World A) (st : State World) c :
  adds P m → c ∈ called m st → P (Api c).
Proof.
  intros Hm. unfold called. destruct (Hm st) as (evs & -> & Hp).
  rewrite apiCalls_app, drop_app_length. intros Hin.
  apply list_elem_of_omap in Hin as (e & He & Hc).
  destruct e as [c'|]; [|done]. injection Hc as ->.
  by apply (proj1 (Forall_forall _ _) Hp).
Qed.

Lemma adds_added {A} (P : Event → Prop) (m : M World A) (st : State World) e :
  adds P m → e ∈ drop (length (trace st)) (trace (m st).2) → P e.
Proof.
  intros Hm. destruct (Hm st) as (evs & -> & Hp). rewrite drop_app_length.
  apply (proj1 (Forall_forall _ _) Hp).
Qed.

Lemma adds_emitted {A} (P : Event → Prop) (m : M World A) (st : State World) t :
  adds P m → t ∈ emitted m st → ∃ q, P (taskqueue_Add t q).
Proof.
  intros Hm. unfold emitted. destruct (Hm st) as (evs & -> & Hp).
  rewrite enqueued_app, drop_app_length. intros Hin.
  apply list_elem_of_omap in Hin as (e & He & Ht).
  destruct e as [c|t' q]; [done|]. injection Ht as ->. exists q.
  by apply (proj1 (Forall_forall _ _) Hp).
Qed.

Lemma adds_getProxy (P : Event → Prop) app tpname isHTTPs :
  P (Api (proxyGet app tpname isHTTPs)) → adds P (getProxy rt app tpname isHTTPs).
Proof.
  unfold getProxy, proxyGet, GetTargetHttpsProxy, GetTargetHttpProxy.
  intros Hp. destruct isHTTPs;
    (apply adds_bind; [adds_call rt|intros [tp|e]; apply adds_ret]).
Qed.

Lemma adds_FindBackendServices_rules (P : Event → Prop) app prs :
  (∀ name, P (Api (BackendServices_Get (project app) name))) →
  ∀ lst, adds P (FindBackendServices_rules rt app prs lst).
Proof.
  intros Hp. induction prs as [|pr prs IH]; intros lst; simpl; [apply adds_ret|].
  destruct (ParseService _) as [[sname rg] [err|]]; [apply adds_ret|].
  apply adds_bind; [adds_call rt|]. intros [s|e]; [apply IH|apply adds_ret].
Qed.

Lemma adds_FindBackendServices (P : Event → Prop) app um :
  (∀ name, P (Api (BackendServices_Get (project app) name))) →
  adds P (FindBackendServices rt app um).
Proof.
  intros Hp. unfold FindBackendServices. generalize (@nil BackendService).
  induction (UrlMap_PathMatchers um) as [|pm pms IH]; intros lst; simpl;
    [apply adds_ret|].
  apply adds_bind; [by apply adds_FindBackendServices_rules|].
  intros [l|e]; [apply IH|apply adds_ret].
Qed.

Lemma adds_ListInstancesForService (P : Event → Prop) app s :
  (∀ zone name, P (Api (InstanceGroups_ListInstances (project app) zone name "ALL"))) →
  adds P (ListInstancesForService rt app s).
Proof.
  intros Hp. unfold ListInstancesForService. generalize (@nil string).
  induction (BackendService_Backends s) as [|b bs IH]; intros lst; simpl;
    [apply adds_ret|].
  destruct (ParseInstanceGroup _) as [[name zone] [err|]]; [apply adds_ret|].
  apply adds_bind; [adds_call rt|]. intros [items|e]; apply IH.
Qed.

Lemma adds_countInstances (P : Event → Prop) app services :
  (∀ zone name, P (Api (InstanceGroups_ListInstances (project app) zone name "ALL"))) →
  ∀ total, adds P (countInstances rt app services total).
Proof.
  intros Hp. induction services as [|s ss IH]; intros total; simpl; [apply adds_ret|].
  apply adds_bind; [by apply adds_ListInstancesForService|].
  intros [l|e]; [apply IH|apply adds_ret].
Qed.

(** What a check can add to the trace: the fetch of its proxy, the
    fetches of the url map and the backend services, the listings of the
    instance groups, and tasks for the queue. *)
Lemma adds_check (P : Event → Prop) app fwname region tpname isHTTPs :
  P (Api (proxyGet app tpname isHTTPs)) →
  (∀ name, P (Api (UrlMaps_Get (project app) name))) →
  (∀ name, P (Api (BackendServices_Get (project app) name))) →
  (∀ zone name, P (Api (InstanceGroups_ListInstances (project app) zone name "ALL"))) →
  (∀ t tpName certificates services umname expires,
     t ∈ deletionTasks tpName isHTTPs certificates services umname
           fwname region expires →
     P (taskqueue_Add t (queueName rt))) →
  adds P (checkAndDeleteTargetProxiesIfApplicable rt app fwname region tpname isHTTPs).
Proof.
  intros Hproxy Hum Hbs Hig Htask.
  unfold checkAndDeleteTargetProxiesIfApplicable.
  apply adds_bind; [by apply adds_getProxy|].
  intros [[[[tpName certs] url] ts]|e]; [|apply adds_ret].
  apply adds_bind; [apply adds_now|]. intros n.
  destruct (time.After _ _); [apply adds_ret|].
  destruct (ParseUrlMap url) as [[umname rg] [err|]]; [apply adds_ret|].
  apply adds_bind; [unfold GetUrlMap; adds_call rt|].
  intros [um|e]; [|apply adds_ret].
  apply adds_bind; [by apply adds_FindBackendServices|].
  intros [services|e]; [|apply adds_ret].
  apply adds_bind; [by apply adds_countInstances|].
  intros [total|e]; [|apply adds_ret].
  destruct (0 <? total); [apply adds_ret|].
  apply adds_bind; [apply adds_now|]. intros n'.
  apply adds_bind; [|intros _; apply adds_ret].
  apply adds_addTasks. intros t Hin. by eapply Htask.
Qed.

(** Every task of a plan goes to a deletion path. *)
Lemma deletionTasks_paths tpName isHTTPs certs services umname fwname region expires t :
  t ∈ deletionTasks tpName isHTTPs certs services umname fwname region expires →
  Task_Path t ∈ deletePaths.
Proof.
  unfold deletionTasks, deletePaths. rewrite !elem_of_app.
  intros [Hin|[Hin|[Hin|[Hin|Hin]]]].
  - apply list_elem_of_singleton in Hin as ->. listed.
  - destruct isHTTPs; [|by apply elem_of_nil in Hin].
    pose proof (certificateTasks_shape certs expires) as Hc.
    destruct (proj1 (Forall_forall _ _) Hc t Hin) as [-> _]. listed.
  - apply list_elem_of_In, in_flat_map in Hin as (service & _ & Hin).
    apply list_elem_of_In in Hin.
    assert (Hp : Task_Path t ∈ map Task_Path (serviceTasks service expires))
      by (apply list_elem_of_fmap; eauto).
    rewrite serviceTasks_paths in Hp. apply elem_of_cons in Hp as [->|Hp]; [listed|].
    apply list_elem_of_fmap in Hp as (hc & -> & _). listed.
  - apply list_elem_of_singleton in Hin as ->. listed.
  - destruct (0 <? len fwname); [|by apply elem_of_nil in Hin].
    apply list_elem_of_singleton in Hin as ->. listed.
Qed.

Lemma checks_check app fwname region tpname isHTTPs :
  adds (checks (queueName rt)) (checkAndDeleteTargetProxiesIfApplicable rt app fwname region tpname isHTTPs).
Proof.
  apply adds_check; try done; [by destruct isHTTPs|].
  intros t tpName certs services umname expires Hin. split; [done|]. right.
  by eapply deletionTasks_paths.
Qed.

Lemma checks_rules fwrs :
  ∀ h hs, adds (checks (queueName rt)) (httpForwardingRulesCheck_rules rt fwrs h hs).
Proof.
  induction fwrs as [|fwr fwrs IH]; intros h hs; simpl; [apply adds_ret|].
  destruct (ParseTargetProxy _) as [[[tpname rg] isHTTPs] [err|]]; [apply IH|].
  apply adds_bind; [|intros _; apply IH].
  apply adds_taskqueueAdd. split; [done|left].
Qed.

Lemma checks_orphans app names seen isHTTPs :
  adds (checks (queueName rt)) (httpForwardingRulesCheck_orphans rt app names seen isHTTPs).
Proof.
  induction names as [|name names IH]; simpl; [apply adds_ret|].
  destruct (negb _); [exact IH|]. destruct (bool_decide _); [exact IH|].
  apply adds_bind; [apply checks_check|]. intros _. exact IH.
Qed.

Lemma checks_ListIngressForwardingRules app :
  adds (checks (queueName rt)) (ListIngressForwardingRules rt app).
Proof.
  unfold ListIngressForwardingRules. apply adds_bind; [adds_call rt|].
  intros [items|e]; apply adds_ret.
Qed.

Lemma checks_httpForwardingRulesCheck r : adds (checks (queueName rt)) (httpForwardingRulesCheck rt r).
Proof.
  unfold httpForwardingRulesCheck. apply adds_bind; [apply adds_getApp|].
  intros [app|e]; [|apply adds_ret].
  apply adds_bind; [apply checks_ListIngressForwardingRules|].
  intros [fwrs|e]; [|apply adds_ret].
  apply adds_bind; [apply checks_rules|]. intros [h hs].
  apply adds_bind; [adds_call rt|]. intros l. apply adds_bind.
  { destruct l as [items|e]; [apply checks_orphans|apply adds_ret]. }
  intros _. apply adds_bind; [adds_call rt|]. intros l'. apply adds_bind.
  { destruct l' as [items|e]; [apply checks_orphans|apply adds_ret]. }
  intros _. apply adds_ret.
Qed.

Lemma checks_httpTargetPoolCheck r : adds (checks (queueName rt)) (httpTargetPoolCheck rt r).
Proof.
  unfold httpTargetPoolCheck. apply adds_bind; [apply adds_getApp|].
  intros [app|e]; [|apply adds_ret].
  apply adds_bind; [apply checks_check|]. intros [e|]; apply adds_ret.
Qed.

(** X5.  The classifier never deletes: no API call made by a check, or by
    either of the two check handlers, is a call of a [Delete] method. *)
Theorem checks_never_delete
    (app : App) (fwname region tpname : string) (isHTTPs : bool)
    (r : Request) (st : State World) (c : ApiCall) :
  c ∈ called (checkAndDeleteTargetProxiesIfApplicable rt app fwname region tpname isHTTPs) st
  ∨ c ∈ called (httpTargetPoolCheck rt r) st
  ∨ c ∈ called (httpForwardingRulesCheck rt r) st →
  is_delete c = false.
Proof.
  intros [Hin|[Hin|Hin]]; revert Hin; apply (adds_called (checks (queueName rt))).
  - apply checks_check.
  - apply checks_httpTargetPoolCheck.
  - apply checks_httpForwardingRulesCheck.
Qed.

(** X6.  Every task a check handler hands over goes to one queue: the
    one named by the environment variable [QUEUE_NAME], or [default] when
    the variable is unset or empty. *)
Theorem tasks_go_to_configured_queue
    (r : Request) (st : State World) (t : Task) (q : string) :
  taskqueue_Add t q
    ∈ drop (length (trace st)) (trace (httpForwardingRulesCheck rt r st).2)
  ∨ taskqueue_Add t q
      ∈ drop (length (trace st)) (trace (httpTargetPoolCheck rt r st).2) →
  q = if 0 <? len (os_Getenv rt "QUEUE_NAME")
      then os_Getenv rt "QUEUE_NAME" else "default".
Proof.
  intros [Hin|Hin].
  - exact (proj1 (adds_added (checks (queueName rt)) _ st (taskqueue_Add t q)
                    (checks_httpForwardingRulesCheck r) Hin)).
  - exact (proj1 (adds_added (checks (queueName rt)) _ st (taskqueue_Add t q)
                    (checks_httpTargetPoolCheck r) Hin)).
Qed.

(** X7.  Every task a check handler hands to the queue has a handler
    waiting for it: its path is the check path or one of the deletion
    paths, all of which [init] registers, so that no task of the program
    is ever answered by the mux's 404. *)
Theorem enqueued_tasks_are_routed (r : Request) (st : State World) (t : Task) :
  t ∈ emitted (httpForwardingRulesCheck rt r) st
  ∨ t ∈ emitted (httpTargetPoolCheck rt r) st →
  Task_Path t ∈ "/job/target-pools/check" :: deletePaths
  ∧ ∃ h, route (routes rt) (Task_Path t) = Some h.
Proof.
  intros Hin.
  assert (Hp : Task_Path t ∈ "/job/target-pools/check" :: deletePaths).
  { destruct Hin as [Hin|Hin].
    - by destruct (adds_emitted (checks (queueName rt)) _ st t
                     (checks_httpForwardingRulesCheck r) Hin) as [q [_ Hp]].
    - by destruct (adds_emitted (checks (queueName rt)) _ st t
                     (checks_httpTargetPoolCheck r) Hin) as [q [_ Hp]]. }
  split; [exact Hp|]. unfold deletePaths in Hp.
  repeat (apply elem_of_cons in Hp as [->|Hp]); [..|by apply elem_of_nil in Hp];
    eexists; reflexivity.
Qed.

(** X8.  The check handlers always answer with a 2xx status, so the queue
    never redelivers a check: the target-pool check answers 204 once it
    has its app, whether the check failed or not, and the
    forwarding-rules check answers 204 once the rules are listed; without
    the app, or without the listing, the answer is 200. *)
Theorem checks_always_acknowledged (r : Request) (st : State World) :
  (httpTargetPoolCheck rt r st).1
  = match (getApp rt st).1 with
    | Ok _ => StatusNoContent
    | Err _ => StatusOK
    end
  ∧ (httpForwardingRulesCheck rt r st).1
    = match (getApp rt st).1 with
      | Ok app =>
          match (ListIngressForwardingRules rt app (getApp rt st).2).1 with
          | Ok _ => StatusNoContent
          | Err _ => StatusOK
          end
      | Err _ => StatusOK
      end
  ∧ acknowledged (httpTargetPoolCheck rt r st).1 = true
  ∧ acknowledged (httpForwardingRulesCheck rt r st).1 = true.
Proof.
  assert (H1 : (httpTargetPoolCheck rt r st).1
               = match (getApp rt st).1 with
                 | Ok _ => StatusNoContent
                 | Err _ => StatusOK
                 end).
  { unfold httpTargetPoolCheck, mbind, M_bind, bind.
    destruct (getApp rt st) as [[app|e] st1]; [|done]. cbn [fst].
    destruct (checkAndDeleteTargetProxiesIfApplicable _ _ _ _ _ _ _) as [[e|] st2]; done. }
  assert (H2 : (httpForwardingRulesCheck rt r st).1
               = match (getApp rt st).1 with
                 | Ok app =>
                     match (ListIngressForwardingRules rt app (getApp rt st).2).1 with
                     | Ok _ => StatusNoContent
                     | Err _ => StatusOK
                     end
                 | Err _ => StatusOK
                 end).
  { unfold httpForwardingRulesCheck, mbind, M_bind, bind.
    destruct (getApp rt st) as [[app|e] st1]; [|done]. cbn [fst snd].
    destruct (ListIngressForwardingRules rt app st1) as [[fwrs|e] st2]; [|done].
    cbn [fst].
    destruct (httpForwardingRulesCheck_rules rt fwrs ∅ ∅ st2) as [[h hs] st3].
    destruct (call rt (TargetHttpProxies_List (project app)) st3) as [[items|e] st4].
    - destruct (httpForwardingRulesCheck_orphans rt app _ h false st4) as [[] st5].
      destruct (call rt (TargetHttpsProxies_List (project app)) st5) as [[items'|e] st6].
      + by destruct (httpForwardingRulesCheck_orphans rt app _ hs true st6).
      + done.
    - cbn [mret M_ret ret].
      destruct (call rt (TargetHttpsProxies_List (project app)) st4) as [[items'|e'] st6].
      + by destruct (httpForwardingRulesCheck_orphans rt app _ hs true st6).
      + done. }
  split; [exact H1|]. split; [exact H2|]. rewrite H1, H2.
  destruct (getApp rt st) as [[app|e] st1]; [|done]. cbn [fst snd].
  by destruct (ListIngressForwardingRules rt app st1) as [[fwrs|e] st2].
Qed.

(** The orphan loop fetches no proxy but the ones it is to check. *)
Lemma adds_orphans app names seen isHTTPs :
  adds (λ e, ∀ prj n,
          e = Api (TargetHttpProxies_Get prj n) ∨ e = Api (TargetHttpsProxies_Get prj n) →
          e = Api (proxyGet app n isHTTPs)
          ∧ n ∈ names ∧ strings.HasPrefix n "k8s-tp" = true ∧ n ∉ seen)
       (httpForwardingRulesCheck_orphans rt app names seen isHTTPs).
Proof.
  induction names as [|name names IH]; simpl; [apply adds_ret|].
  assert (Hrest : adds (λ e, ∀ prj n,
            e = Api (TargetHttpProxies_Get prj n) ∨ e = Api (TargetHttpsProxies_Get prj n) →
            e = Api (proxyGet app n isHTTPs)
            ∧ n ∈ name :: names ∧ strings.HasPrefix n "k8s-tp" = true ∧ n ∉ seen)
          (httpForwardingRulesCheck_orphans rt app names seen isHTTPs)).
  { eapply adds_mono; [|exact IH]. intros e He prj n Hn.
    destruct (He prj n Hn) as (H1 & H2 & H3 & H4). split; [done|].
    split; [by right|done]. }
  destruct (strings.HasPrefix name "k8s-tp") eqn:Hpre; cbn [negb]; [|exact Hrest].
  case_bool_decide as Hseen; [exact Hrest|].
  apply adds_bind; [|intros _; exact Hrest].
  apply adds_check.
  - intros prj n Hn.
    assert (n = name) as ->.
    { unfold proxyGet in Hn. destruct isHTTPs, Hn as [Hn|Hn]; congruence. }
    split; [|split; [by left|done]].
    unfold proxyGet in *. destruct isHTTPs, Hn as [Hn|Hn]; congruence.
  - intros name' prj n [Hn|Hn]; discriminate.
  - intros name' prj n [Hn|Hn]; discriminate.
  - intros zone name' prj n [Hn|Hn]; discriminate.
  - intros t ? ? ? ? ? _ prj n [Hn|Hn]; discriminate.
Qed.

(** X9.  The orphan pass of the forwarding-rules check fetches only the
    proxies it is to check: every proxy [Get] it makes is for a listed
    name that starts with [k8s-tp] and is not in the seen set, from the
    collection of the pass's protocol.  A proxy that a forwarding rule
    targets is thus left to the check job of that rule. *)
Theorem orphans_fetch_only_unseen_proxies
    (app : App) (names : list string) (seen : gset string) (isHTTPs : bool)
    (st : State World) (c : ApiCall) (prj n : string) :
  c ∈ called (httpForwardingRulesCheck_orphans rt app names seen isHTTPs) st →
  c = TargetHttpProxies_Get prj n ∨ c = TargetHttpsProxies_Get prj n →
  c = proxyGet app n isHTTPs
  ∧ n ∈ names ∧ strings.HasPrefix n "k8s-tp" = true ∧ n ∉ seen.
Proof.
  intros Hin Hc.
  pose proof (adds_called _ _ st c (adds_orphans app names seen isHTTPs) Hin) as H.
  cbv beta in H. destruct (H prj n) as (H1 & H2); [destruct Hc; [left|right]; congruence|].
  split; [congruence|done].
Qed.

End Checks.

(** ** A check emits a whole plan or nothing *)

Section Outcome.

Context {World : Type} (rt : Runtime World).

Lemma quiet_at {A} (m : M World A) (st : State World) a st' :
  quiet m → m st = (a, st') → enqueued (trace st') = enqueued (trace st).
Proof. intros Hq Hm. specialize (Hq st). by rewrite Hm in Hq. Qed.

(** Where a check ends: with the queue as it found it, or with no error
    and one plan added to the queue. *)
Lemma check_outcome app fwname region tpname isHTTPs (st : State World) :
  let out := checkAndDeleteTargetProxiesIfApplicable rt app fwname region tpname isHTTPs st in
  enqueued (trace out.2) = enqueued (trace st)
  ∨ (out.1 = None
     ∧ ∃ tpName certificates services umname expires,
         enqueued (trace out.2)
         = (enqueued (trace st)
            ++ deletionTasks tpName isHTTPs certificates services umname
                 fwname region expires)%list).
Proof.
  unfold checkAndDeleteTargetProxiesIfApplicable. cbv zeta.
  destruct (getProxy rt app tpname isHTTPs st)
    as [[[[[tpName certs] url] ts]|e] st1] eqn:Hp;
    rewrite (bind_eq _ _ _ _ _ Hp); cbv beta iota;
    pose proof (quiet_at _ _ _ _ (quiet_getProxy rt app tpname isHTTPs) Hp) as Q1;
    [|by left].
  destruct (now rt st1) as [n st2] eqn:Hn.
  rewrite (bind_eq _ _ _ _ _ Hn); cbv beta iota.
  pose proof (quiet_at _ _ _ _ (quiet_now rt) Hn) as Q2.
  destruct (time.After _ _); [left; unfold mret, M_ret, ret; cbn [snd]; congruence|].
  destruct (ParseUrlMap url) as [[umname rg] [err|]]; [left; unfold mret, M_ret, ret; cbn [snd]; congruence|].
  destruct (GetUrlMap rt app umname st2) as [[um|e] st3] eqn:Hg;
    rewrite (bind_eq _ _ _ _ _ Hg); cbv beta iota;
    pose proof (quiet_at _ _ _ _ (quiet_call rt _) Hg) as Q3;
    [|left; unfold mret, M_ret, ret; cbn [snd]; congruence].
  destruct (FindBackendServices rt app um st3) as [[services|e] st4] eqn:Hs;
    rewrite (bind_eq _ _ _ _ _ Hs); cbv beta iota;
    pose proof (quiet_at _ _ _ _ (quiet_FindBackendServices rt app um) Hs) as Q4;
    [|left; unfold mret, M_ret, ret; cbn [snd]; congruence].
  destruct (countInstances rt app services 0 st4) as [[total|e] st5] eqn:Hc;
    rewrite (bind_eq _ _ _ _ _ Hc); cbv beta iota;
    pose proof (quiet_at _ _ _ _ (quiet_countInstances rt app services 0) Hc) as Q5;
    [|left; unfold mret, M_ret, ret; cbn [snd]; congruence].
  destruct (0 <? total); [left; unfold mret, M_ret, ret; cbn [snd]; congruence|].
  destruct (now rt st5) as [n' st6] eqn:Hn'.
  rewrite (bind_eq _ _ _ _ _ Hn'); cbv beta iota.
  pose proof (quiet_at _ _ _ _ (quiet_now rt) Hn') as Q6.
  right. unfold mbind, M_bind, bind, mret, M_ret, ret.
  match goal with
  | |- context [addTasks rt ?l st6] =>
      pose proof (addTasks_trace rt l st6) as Ht; destruct (addTasks rt l st6) as [[] st7]
  end.
  cbn [fst snd] in *. split; [done|].
  exists tpName, certs, services, umname. eexists.
  rewrite Ht, enqueued_app, enqueued_adds, Q6, Q5, Q4, Q3, Q2, Q1. reflexivity.
Qed.

(** X10.  A check hands the queue a whole plan or nothing: when it returns
    an error it has enqueued no task, and whatever it enqueues is the
    complete, ordered task list of one plan, for the forwarding rule name
    and region it was given. *)
Theorem check_all_or_nothing
    (app : App) (fwname region tpname : string) (isHTTPs : bool)
    (st : State World) :
  ((checkAndDeleteTargetProxiesIfApplicable rt app fwname region tpname isHTTPs st).1
   ≠ None →
   emitted (checkAndDeleteTargetProxiesIfApplicable rt app fwname region tpname isHTTPs) st
   = [])
  ∧ (emitted (checkAndDeleteTargetProxiesIfApplicable rt app fwname region tpname isHTTPs) st
     = []
     ∨ ∃ tpName certificates services umname expires,
         emitted (checkAndDeleteTargetProxiesIfApplicable rt app fwname region tpname isHTTPs) st
         = deletionTasks tpName isHTTPs certificates services umname
             fwname region expires).
Proof.
  unfold emitted.
  destruct (check_outcome app fwname region tpname isHTTPs st)
    as [Hq|[Hn (tpName & certs & services & umname & expires & Hp)]].
  - rewrite Hq, drop_all. split; [done|by left].
  - rewrite Hp, drop_app_length. split; [done|]. right. by eexists _, _, _, _, _.
Qed.

End Outcome.

(** ** The resolver, call by call *)

Section Resolver.

Context {World : Type} (rt : Runtime World).

Lemma call_trace (c : ApiCall) (st : State World) :
  trace (call rt c st).2 = (trace st ++ [Api c])%list.
Proof. unfold call. by destruct (Do rt c (world st)). Qed.

Lemma call_apiCalls (c : ApiCall) (st : State World) r st' :
  call rt c st = (r, st') → apiCalls (trace st') = (apiCalls (trace st) ++ [c])%list.
Proof.
  intros H. pose proof (call_trace c st) as Ht. rewrite H in Ht. simpl in Ht.
  by rewrite Ht, apiCalls_app.
Qed.

Lemma FindBackendServices_rules_calls app prs :
  ∀ lst st,
    match (FindBackendServices_rules rt app prs lst st).1 with
    | Ok l =>
        apiCalls (trace (FindBackendServices_rules rt app prs lst st).2)
        = (apiCalls (trace st)
           ++ map (λ pr, BackendServices_Get (project app)
                           (ParseService (PathRule_Service pr)).1.1) prs)%list
        ∧ length l = (length lst + length prs)%nat
    | Err e =>
        ∃ cause, e = errors_Wrap cause "failed to parse backend service url"
                 ∨ e = errors_Wrap cause "failed to get backend service"
    end.
Proof.
  induction prs as [|pr prs IH]; intros lst st; simpl.
  - rewrite app_nil_r. split; [done|lia].
  - destruct (ParseService (PathRule_Service pr)) as [[sname rg] [err|]] eqn:Hp.
    + exists err. by left.
    + destruct (call rt (BackendServices_Get (project app) sname) st)
        as [[s|e] st1] eqn:Hc; rewrite (bind_eq _ _ _ _ _ Hc); cbv beta iota.
      * match goal with
        | |- context [FindBackendServices_rules rt app prs ?k st1] =>
            specialize (IH k st1);
            destruct (FindBackendServices_rules rt app prs k st1) as [[l|e] st2]
        end; [|exact IH].
        cbn [fst snd] in *. destruct IH as [Ht Hl].
        rewrite Ht, (call_apiCalls _ _ _ _ Hc), <- app_assoc.
        split; [done|]. rewrite Hl, length_app. simpl. lia.
      * exists e. by right.
Qed.

Lemma FindBackendServices_matchers_calls app pms :
  ∀ lst st,
    match (FindBackendServices_matchers rt app pms lst st).1 with
    | Ok l =>
        apiCalls (trace (FindBackendServices_matchers rt app pms lst st).2)
        = (apiCalls (trace st)
           ++ map (λ pr, BackendServices_Get (project app)
                           (ParseService (PathRule_Service pr)).1.1)
                (concat (map PathMatcher_PathRules pms)))%list
        ∧ length l
          = (length lst + length (concat (map PathMatcher_PathRules pms)))%nat
    | Err e =>
        ∃ cause, e = errors_Wrap cause "failed to parse backend service url"
                 ∨ e = errors_Wrap cause "failed to get backend service"
    end.
Proof.
  induction pms as [|pm pms IH]; intros lst st; simpl.
  - rewrite app_nil_r. split; [done|lia].
  - pose proof (FindBackendServices_rules_calls app (PathMatcher_PathRules pm) lst st) as Hr.
    destruct (FindBackendServices_rules rt app (PathMatcher_PathRules pm) lst st)
      as [[l|e] st1] eqn:Hc; rewrite (bind_eq _ _ _ _ _ Hc); cbv beta iota;
      cbn [fst snd] in Hr; [|exact Hr].
    destruct Hr as [Ht Hl]. specialize (IH l st1).
    destruct (FindBackendServices_matchers rt app pms l st1) as [[l'|e] st2];
      [|exact IH].
    cbn [fst snd] in *. destruct IH as [Ht' Hl'].
    rewrite Ht', Ht, map_app, <- app_assoc. split; [done|].
    rewrite Hl', Hl, length_app. lia.
Qed.

(** X11.  [FindBackendServices] gets one backend service per path rule, in
    the order of the url map: when it succeeds, its calls are the [Get]s
    of the names parsed from the rules' links, one for each rule, and it
    returns as many services as there are rules, a service named by two
    rules being fetched and listed twice.  When it fails, the error is a
    wrapped one: a link that did not parse, or a failed [Get]. *)
Theorem FindBackendServices_one_get_per_rule
    (app : App) (um : UrlMap) (st : State World) :
  match (FindBackendServices rt app um st).1 with
  | Ok services =>
      called (FindBackendServices rt app um) st
      = map (λ pr, BackendServices_Get (project app)
                     (ParseService (PathRule_Service pr)).1.1)
          (concat (map PathMatcher_PathRules (UrlMap_PathMatchers um)))
      ∧ length services
        = length (concat (map PathMatcher_PathRules (UrlMap_PathMatchers um)))
  | Err e =>
      ∃ cause, e = errors_Wrap cause "failed to parse backend service url"
               ∨ e = errors_Wrap cause "failed to get backend service"
  end.
Proof.
  unfold called, FindBackendServices.
  pose proof (FindBackendServices_matchers_calls app (UrlMap_PathMatchers um) [] st) as H.
  destruct (FindBackendServices_matchers rt app (UrlMap_PathMatchers um) [] st)
    as [[l|e] st1]; cbn [fst snd] in *; [|exact H].
  destruct H as [-> ->]. by rewrite drop_app_length.
Qed.

Lemma ListInstancesForService_loop_calls app bs :
  ∀ lst st,
    Forall (λ b, (ParseInstanceGroup (Backend_Group b)).2 = None) bs →
    ∃ l,
      (ListInstancesForService_loop rt app bs lst st).1 = Ok l
      ∧ apiCalls (trace (ListInstancesForService_loop rt app bs lst st).2)
        = (apiCalls (trace st)
           ++ map (λ b, InstanceGroups_ListInstances (project app)
                          (ParseInstanceGroup (Backend_Group b)).1.2
                          (ParseInstanceGroup (Backend_Group b)).1.1 "ALL") bs)%list
      ∧ ((∀ w zone name,
            failure (Do rt (InstanceGroups_ListInstances (project app) zone name "ALL") w).1
            ≠ None) →
         l = lst).
Proof.
  induction bs as [|b bs IH]; intros lst st Hall; simpl.
  - exists lst. by rewrite app_nil_r.
  - apply Forall_cons in Hall as [Hb Hall].
    destruct (ParseInstanceGroup (Backend_Group b)) as [[name zone] err] eqn:Hp.
    simpl in Hb. subst err.
    destruct (call rt (InstanceGroups_ListInstances (project app) zone name "ALL") st)
      as [r st1] eqn:Hc; rewrite (bind_eq _ _ _ _ _ Hc); cbv beta iota.
    pose proof (call_apiCalls _ _ _ _ Hc) as Ht.
    assert (Hr : ∀ items, r = Ok items →
              failure (Do rt (InstanceGroups_ListInstances (project app) zone name "ALL")
                         (world st)).1 = None).
    { intros items ->. unfold call in Hc.
      destruct (Do rt _ (world st)) as [r' w]. by injection Hc as -> _. }
    destruct r as [items|e].
    + destruct (IH (lst ++ map InstanceWithNamedPorts_Instance items)%list st1 Hall)
        as (l & Hl & Hcalls & _).
      exists l. split; [done|]. split.
      * rewrite Hcalls, Ht, <- app_assoc. done.
      * intros Hfail. exfalso. apply (Hfail (world st) zone name). by eapply Hr.
    + destruct (IH lst st1 Hall) as (l & Hl & Hcalls & Hfail).
      exists l. split; [done|]. split; [|done].
      rewrite Hcalls, Ht, <- app_assoc. done.
Qed.

Lemma ListInstancesForService_loop_fails app bs :
  ∀ lst st,
    ¬ Forall (λ b, (ParseInstanceGroup (Backend_Group b)).2 = None) bs →
    ∃ cause,
      (ListInstancesForService_loop rt app bs lst st).1
      = Err (errors_Wrap cause "failed to parse instance group url").
Proof.
  induction bs as [|b bs IH]; intros lst st Hall; simpl.
  - by destruct Hall.
  - destruct (ParseInstanceGroup (Backend_Group b)) as [[name zone] [err|]] eqn:Hp.
    + by exists err.
    + assert (Hrest : ¬ Forall (λ b, (ParseInstanceGroup (Backend_Group b)).2 = None) bs).
      { intros H. apply Hall. constructor; [by rewrite Hp|done]. }
      destruct (call rt (InstanceGroups_ListInstances (project app) zone name "ALL") st)
        as [[items|e] st1] eqn:Hc; rewrite (bind_eq _ _ _ _ _ Hc); cbv beta iota;
        by apply IH.
Qed.

(** X12.  [ListInstancesForService] fails only on a group link that does
    not parse.  When every link parses it succeeds whatever the API
    answers, having listed each group once, in order, with the instance
    state [ALL]; a listing that fails adds nothing, so that a service
    whose listings all fail has no instance.  A link that does not parse
    fails the whole listing. *)
Theorem ListInstancesForService_ignores_api_errors
    (app : App) (s : BackendService) (st : State World) :
  (Forall (λ b, (ParseInstanceGroup (Backend_Group b)).2 = None)
          (BackendService_Backends s) →
   ∃ l,
     (ListInstancesForService rt app s st).1 = Ok l
     ∧ called (ListInstancesForService rt app s) st
       = map (λ b, InstanceGroups_ListInstances (project app)
                     (ParseInstanceGroup (Backend_Group b)).1.2
                     (ParseInstanceGroup (Backend_Group b)).1.1 "ALL")
           (BackendService_Backends s)
     ∧ ((∀ w zone name,
           failure (Do rt (InstanceGroups_ListInstances (project app) zone name "ALL") w).1
           ≠ None) →
        l = []))
  ∧ (¬ Forall (λ b, (ParseInstanceGroup (Backend_Group b)).2 = None)
             (BackendService_Backends s) →
     ∃ cause,
       (ListInstancesForService rt app s st).1
       = Err (errors_Wrap cause "failed to parse instance group url")).
Proof.
  unfold called, ListInstancesForService. split.
  - intros Hall.
    destruct (ListInstancesForService_loop_calls app _ [] st Hall) as (l & Hl & Hc & Hf).
    exists l. split; [done|]. split; [|done]. by rewrite Hc, drop_app_length.
  - apply ListInstancesForService_loop_fails.
Qed.

End Resolver.

(** ** The worker, at its edges *)

Section Deliveries.

Context {World : Type} (rt : Runtime World).

(** X13.  A deletion task whose [expires] value does not parse --- the
    parameter is missing, empty or malformed --- counts as expired: the
    worker answers 204 and leaves the world and the trace as they were. *)
Theorem unparsable_expiry_acknowledged (t : Task) (st : State World) :
  Task_Path t ∈ deletePaths →
  time_Parse_RFC3339 rt (FormValue (deliver t) "expires") = None →
  worker rt t st = (StatusNoContent, st)
  ∧ acknowledged (worker rt t st).1 = true.
Proof.
  intros Hin Hp. destruct (delete_route rt t Hin) as (body & -> & _).
  unfold deleteHandler, isExpired. by rewrite Hp.
Qed.

(** X14.  When the worker cannot build its app, an unexpired deletion
    task is answered with 200: the delivery is acknowledged, no API call
    is made, and the resource stays. *)
Theorem delete_without_app_acknowledged
    (t : Task) (st st1 st2 : State World) (e : error) :
  Task_Path t ∈ deletePaths →
  isExpired rt (deliver t) st = (false, st1) →
  getApp rt st1 = (Err e, st2) →
  worker rt t st = (StatusOK, st2)
  ∧ trace st2 = trace st
  ∧ acknowledged (worker rt t st).1 = true.
Proof.
  intros Hin He Ha. destruct (delete_route rt t Hin) as (body & -> & _).
  assert (Hw : deleteHandler rt body (deliver t) st = (StatusOK, st2)).
  { unfold deleteHandler. rewrite (bind_eq _ _ _ _ _ He). cbv beta iota.
    by rewrite (bind_eq _ _ _ _ _ Ha). }
  rewrite Hw. split; [done|]. split; [|done].
  pose proof (isExpired_trace rt (deliver t) st) as H1.
  pose proof (getApp_trace rt st1) as H2.
  rewrite He in H1. rewrite Ha in H2. simpl in *. congruence.
Qed.

(** The expiry stamp comes back from the form. *)
Lemma FormValue_stamped (t : Task) (expires : string) :
  stamped expires t → FormValue (deliver t) "expires" = expires.
Proof. unfold stamped, FormValue. simpl. by intros ->. Qed.

(** X15.  The expiry stamp, from the planner to the worker: a task
    stamped by a plan made at clock reading [n] is expired for the worker
    exactly when the worker's clock reads later than the instant the
    stamp parses to; where the clock format parses back what it printed,
    that instant is [n] plus 15 minutes.  At that very instant the task
    is still live. *)
Theorem plan_expiry_round_trip
    (t : Task) (n expires : Time) (st : State World) :
  stamped (Time_Format_RFC3339 rt (time.Add (time.UTC n) (15 * time.Minute))) t →
  time_Parse_RFC3339 rt
    (Time_Format_RFC3339 rt (time.Add (time.UTC n) (15 * time.Minute)))
  = Some expires →
  (isExpired rt (deliver t) st).1
  = bool_decide (expires < (time_Now rt (world st)).1).
Proof.
  intros Hs Hp. unfold isExpired. rewrite (FormValue_stamped _ _ Hs), Hp.
  unfold mbind, M_bind, bind, now, mret, M_ret, ret.
  destruct (time_Now rt (world st)) as [n' w]. cbn [fst].
  unfold time.After, time.UTC.
  destruct (Z.ltb_spec expires n');
    [by rewrite bool_decide_eq_true_2|by rewrite bool_decide_eq_false_2 by lia].
Qed.

Lemma ParseBool_FormatBool (b : bool) :
  strconv.ParseBool (strconv.FormatBool b) = (b, None).
Proof. by destruct b. Qed.

Lemma executes_body (t : Task) (body : App → M World Z) (c : App → ApiCall) :
  worker rt t = deleteHandler rt body (deliver t) →
  (∀ app, body app = deleteOr rt (c app) (mret StatusNoContent)) →
  executes rt t c.
Proof.
  intros Hw Hb st st1 st2 app He Ha. rewrite Hw.
  destruct (deleteHandler_live rt body _ st st1 st2 app He Ha) as [-> Htr].
  rewrite Hb. destruct (deleteOr_done rt (c app) st2) as [Ht _].
  by rewrite Ht, Htr.
Qed.

(** X16.  What each of the six kinds of task of a plan does once it is
    delivered unexpired: it makes one delete call, set by its
    parameters.  The proxy task deletes the proxy of its name from the
    HTTPS or the HTTP collection as its flag says; the backend-service
    and forwarding-rule tasks delete from the global collection when
    their region is [global] and from the regional one otherwise; the
    health-check and url-map tasks delete the resource of their name.
    The certificate task does not delete the certificate: its path is
    served by the backend-service handler, and with no region in the
    task the call is the delete of the regional backend service of the
    certificate's name in the region with the empty name. *)
Theorem plan_tasks_execute
    (name region expires : string) (isHTTPs : bool) :
  executes rt
    (NewPOSTTask "/job/target-http-proxies/delete"
       {[ "name" := [name]; "https" := [strconv.FormatBool isHTTPs];
          "expires" := [expires] ]})
    (λ app, if isHTTPs then TargetHttpsProxies_Delete (project app) name
            else TargetHttpProxies_Delete (project app) name)
  ∧ executes rt
      (NewPOSTTask "/job/backend-services/delete"
         {[ "name" := [name]; "region" := [region]; "expires" := [expires] ]})
      (λ app, if String.eqb region "global"
              then BackendServices_Delete (project app) name
              else RegionBackendServices_Delete (project app) region name)
  ∧ executes rt
      (NewPOSTTask "/job/health-checks/delete"
         {[ "name" := [name]; "expires" := [expires] ]})
      (λ app, HealthChecks_Delete (project app) name)
  ∧ executes rt
      (NewPOSTTask "/job/url-maps/delete"
         {[ "name" := [name]; "expires" := [expires] ]})
      (λ app, UrlMaps_Delete (project app) name)
  ∧ executes rt
      (NewPOSTTask "/job/forwarding-rules/delete"
         {[ "name" := [name]; "region" := [region]; "expires" := [expires] ]})
      (λ app, if String.eqb region "global"
              then GlobalForwardingRules_Delete (project app) name
              else ForwardingRules_Delete (project app) region name)
  ∧ executes rt
      (NewPOSTTask "/job/ssl-certificates/delete"
         {[ "name" := [name]; "expires" := [expires] ]})
      (λ app, RegionBackendServices_Delete (project app) "" name).
Proof.
  repeat split.
  - eapply executes_body; [reflexivity|]. intros app. cbv beta zeta.
    assert (Hn : FormValue (deliver (NewPOSTTask "/job/target-http-proxies/delete"
                   {[ "name" := [name]; "https" := [strconv.FormatBool isHTTPs];
                      "expires" := [expires] ]})) "name" = name)
      by (vm_compute; reflexivity).
    assert (Hh : FormValue (deliver (NewPOSTTask "/job/target-http-proxies/delete"
                   {[ "name" := [name]; "https" := [strconv.FormatBool isHTTPs];
                      "expires" := [expires] ]})) "https" = strconv.FormatBool isHTTPs).
    { unfold FormValue, deliver. cbn [Request_Form Task_Params].
      rewrite lookup_insert_ne by done. by rewrite lookup_insert_eq. }
    rewrite Hn, Hh, ParseBool_FormatBool. cbn [fst]. by destruct isHTTPs.
  - eapply executes_body; [reflexivity|]. intros app. cbv beta zeta.
    assert (Hn : FormValue (deliver (NewPOSTTask "/job/backend-services/delete"
                   {[ "name" := [name]; "region" := [region]; "expires" := [expires] ]}))
                   "name" = name) by (vm_compute; reflexivity).
    assert (Hr : FormValue (deliver (NewPOSTTask "/job/backend-services/delete"
                   {[ "name" := [name]; "region" := [region]; "expires" := [expires] ]}))
                   "region" = region) by (vm_compute; reflexivity).
    rewrite Hn, Hr. by destruct (String.eqb region "global").
  - eapply executes_body; [reflexivity|]. intros app. cbv beta zeta.
    assert (Hn : FormValue (deliver (NewPOSTTask "/job/health-checks/delete"
                   {[ "name" := [name]; "expires" := [expires] ]}))
                   "name" = name) by (vm_compute; reflexivity).
    by rewrite Hn.
  - eapply executes_body; [reflexivity|]. intros app. cbv beta zeta.
    assert (Hn : FormValue (deliver (NewPOSTTask "/job/url-maps/delete"
                   {[ "name" := [name]; "expires" := [expires] ]}))
                   "name" = name) by (vm_compute; reflexivity).
    by rewrite Hn.
  - eapply executes_body; [reflexivity|]. intros app. cbv beta zeta.
    assert (Hn : FormValue (deliver (NewPOSTTask "/job/forwarding-rules/delete"
                   {[ "name" := [name]; "region" := [region]; "expires" := [expires] ]}))
                   "name" = name) by (vm_compute; reflexivity).
    assert (Hr : FormValue (deliver (NewPOSTTask "/job/forwarding-rules/delete"
                   {[ "name" := [name]; "region" := [region]; "expires" := [expires] ]}))
                   "region" = region) by (vm_compute; reflexivity).
    rewrite Hn, Hr. by destruct (String.eqb region "global").
  - eapply executes_body; [reflexivity|]. intros app. cbv beta zeta.
    assert (Hn : FormValue (deliver (NewPOSTTask "/job/ssl-certificates/delete"
                   {[ "name" := [name]; "expires" := [expires] ]}))
                   "name" = name) by (vm_compute; reflexivity).
    assert (Hr : FormValue (deliver (NewPOSTTask "/job/ssl-certificates/delete"
                   {[ "name" := [name]; "expires" := [expires] ]}))
                   "region" = "") by (vm_compute; reflexivity).
    by rewrite Hn, Hr.
Qed.

End Deliveries.

(** ** The forwarding-rules pass *)

Section Pass.

Context {World : Type} (rt : Runtime World).

Lemma rules_trace fwrs :
  ∀ h hs (st : State World),
    trace (httpForwardingRulesCheck_rules rt fwrs h hs st).2
    = (trace st
       ++ map (λ fwr, taskqueue_Add (checkTask fwr) (queueName rt))
            (filter targets fwrs))%list.
Proof.
  induction fwrs as [|fwr fwrs IH]; intros h hs st.
  - simpl. by rewrite app_nil_r.
  - rewrite filter_cons. cbn [httpForwardingRulesCheck_rules].
    destruct (decide (targets fwr)) as [Htg|Htg]; unfold targets in Htg.
    + cbn [map].
      destruct (ParseTargetProxy (ForwardingRule_Target fwr))
        as [[[tpname rg] isHTTPs] err] eqn:Hp; cbn [snd] in Htg; subst err.
      unfold mbind, M_bind, bind, taskqueueAdd.
      rewrite IH. cbn [trace]. rewrite <- app_assoc. do 2 f_equal.
      unfold checkTask. by rewrite Hp.
    + destruct (ParseTargetProxy (ForwardingRule_Target fwr))
        as [[[tpname rg] isHTTPs] [err|]] eqn:Hp; [|done]. apply IH.
Qed.

Lemma exists_cons {A} (Q : A → Prop) (x : A) (l : list A) :
  (∃ y, y ∈ x :: l ∧ Q y) ↔ Q x ∨ ∃ y, y ∈ l ∧ Q y.
Proof.
  split.
  - intros (y & Hin & Hq). apply elem_of_cons in Hin as [->|Hin]; [by left|].
    right. by exists y.
  - intros [Hq|(y & Hin & Hq)]; [exists x|exists y]; (split; [|done]);
      [by left|by right].
Qed.

Lemma rules_seen fwrs :
  ∀ h hs (st : State World) name,
    (name ∈ (httpForwardingRulesCheck_rules rt fwrs h hs st).1.1
     ↔ name ∈ h
       ∨ ∃ fwr, fwr ∈ fwrs
                ∧ (targets fwr
                   ∧ (ParseTargetProxy (ForwardingRule_Target fwr)).1.1.1 = name
                   ∧ (ParseTargetProxy (ForwardingRule_Target fwr)).1.2 = false))
    ∧ (name ∈ (httpForwardingRulesCheck_rules rt fwrs h hs st).1.2
       ↔ name ∈ hs
         ∨ ∃ fwr, fwr ∈ fwrs
                  ∧ (targets fwr
                     ∧ (ParseTargetProxy (ForwardingRule_Target fwr)).1.1.1 = name
                     ∧ (ParseTargetProxy (ForwardingRule_Target fwr)).1.2 = true)).
Proof.
  induction fwrs as [|fwr fwrs IH]; intros h hs st name.
  - simpl. split; (split; [by left|]);
      (intros [?|(fwr & Hin & _)]; [done|by apply elem_of_nil in Hin]).
  - rewrite !exists_cons. unfold targets at 1 3.
    cbn [httpForwardingRulesCheck_rules].
    destruct (ParseTargetProxy (ForwardingRule_Target fwr))
      as [[[tpname rg] isHTTPs] [err|]] eqn:Hp; cbn [fst snd].
    + destruct (IH h hs st name) as [-> ->]. split; intuition discriminate.
    + unfold mbind, M_bind, bind, taskqueueAdd.
      match goal with
      | |- context [httpForwardingRulesCheck_rules rt fwrs ?a ?b ?s] =>
          destruct (IH a b s name) as [-> ->]
      end.
      destruct isHTTPs; rewrite elem_of_union, elem_of_singleton;
        split; intuition (subst; auto; discriminate).
Qed.

(** X17.  The first pass of the forwarding-rules check makes no API call
    and enqueues one check job for each forwarding rule whose target
    parses as a proxy link, in order, carrying the rule's name and the
    proxy's name, region and protocol; a rule whose target does not parse
    is passed over.  The proxies of the rules that parsed, and no others,
    are added to the seen set of their protocol. *)
Theorem forwarding_rules_pass
    (fwrs : list ForwardingRule) (h hs : gset string) (st : State World) :
  emitted (httpForwardingRulesCheck_rules rt fwrs h hs) st
  = map checkTask (filter targets fwrs)
  ∧ called (httpForwardingRulesCheck_rules rt fwrs h hs) st = []
  ∧ (∀ name,
       name ∈ (httpForwardingRulesCheck_rules rt fwrs h hs st).1.1
       ↔ name ∈ h
         ∨ ∃ fwr, fwr ∈ fwrs ∧ targets fwr
                  ∧ (ParseTargetProxy (ForwardingRule_Target fwr)).1.1.1 = name
                  ∧ (ParseTargetProxy (ForwardingRule_Target fwr)).1.2 = false)
  ∧ (∀ name,
       name ∈ (httpForwardingRulesCheck_rules rt fwrs h hs st).1.2
       ↔ name ∈ hs
         ∨ ∃ fwr, fwr ∈ fwrs ∧ targets fwr
                  ∧ (ParseTargetProxy (ForwardingRule_Target fwr)).1.1.1 = name
                  ∧ (ParseTargetProxy (ForwardingRule_Target fwr)).1.2 = true).
Proof.
  unfold emitted, called.
  rewrite rules_trace, enqueued_app, apiCalls_app, !drop_app_length.
  split; [|split; [|split; intros name; apply rules_seen]].
  - induction (filter targets fwrs) as [|f fs IH]; simpl; [done|by f_equal].
  - induction (filter targets fwrs) as [|f fs IH]; simpl; [done|exact IH].
Qed.

(** X18.  The check job of a forwarding rule, once delivered, runs the
    check on what the job was made from: the rule's name and the name,
    region and protocol parsed from its target.  With its app, the
    handler answers 204 whatever the check returns. *)
Theorem check_task_runs_check
    (fwr : ForwardingRule) (app : App) (st st1 : State World) :
  getApp rt st = (Ok app, st1) →
  worker rt (checkTask fwr) st
  = (StatusNoContent,
     (checkAndDeleteTargetProxiesIfApplicable rt app
        (ForwardingRule_Name fwr)
        (ParseTargetProxy (ForwardingRule_Target fwr)).1.1.2
        (ParseTargetProxy (ForwardingRule_Target fwr)).1.1.1
        (ParseTargetProxy (ForwardingRule_Target fwr)).1.2 st1).2).
Proof.
  intros Ha. unfold checkTask.
  destruct (ParseTargetProxy (ForwardingRule_Target fwr))
    as [[[tpname rg] isHTTPs] err]. cbn [fst snd].
  set (t := NewPOSTTask _ _).
  assert (Hw : worker rt t = httpTargetPoolCheck rt (deliver t)) by reflexivity.
  assert (H1 : FormValue (deliver t) "tp_name" = tpname) by (vm_compute; reflexivity).
  assert (H2 : FormValue (deliver t) "forwarding_rule" = ForwardingRule_Name fwr)
    by (vm_compute; reflexivity).
  assert (H3 : FormValue (deliver t) "region" = rg) by (vm_compute; reflexivity).
  assert (H4 : FormValue (deliver t) "https" = strconv.FormatBool isHTTPs).
  { unfold FormValue, deliver, t. cbn [Request_Form Task_Params].
    do 3 (rewrite lookup_insert_ne by done). by rewrite lookup_singleton_eq. }
  rewrite Hw. unfold httpTargetPoolCheck.
  rewrite (bind_eq _ _ _ _ _ Ha). cbv beta iota zeta.
  rewrite H1, H2, H3, H4, ParseBool_FormatBool. cbn [fst].
  unfold mbind, M_bind, bind.
  by destruct (checkAndDeleteTargetProxiesIfApplicable rt app _ _ _ _ st1) as [[e|] st2].
Qed.

End Pass.

(** ** The firewall pass, whatever the cloud answers *)

Section Pass2.

Context {World : Type} (rt : Runtime World).

Lemma reads_zones app zones :
  ∀ m, adds reads (ListDanglingFirewalls_zones rt app zones m).
Proof.
  induction zones as [|zone zones IH]; intros m; simpl; [apply adds_ret|].
  case_bool_decide; [apply adds_ret|].
  apply adds_bind; [adds_call rt|]. intros [items|e]; [apply IH|apply adds_ret].
Qed.

(** The scan of the zones only takes entries away, and fails only with a
    wrapped error. *)
Lemma zones_any app zones :
  ∀ m (st : State World),
    match (ListDanglingFirewalls_zones rt app zones m st).1 with
    | Ok m' => ∀ tag l, m' !! tag = Some l → m !! tag = Some l
    | Err e => ∃ cause, e = errors_Wrap cause "failed to list instances"
    end.
Proof.
  induction zones as [|zone zones IH]; intros m st; simpl; [done|].
  case_bool_decide as Hsize; [by cbn|].
  destruct (call rt (Instances_List (project app) (Zone_Name zone)) st)
    as [[items|e] st1] eqn:Hc; rewrite (bind_eq _ _ _ _ _ Hc); cbv beta iota.
  - specialize (IH (foldl tags2fws_drop m items) st1).
    destruct (ListDanglingFirewalls_zones rt app zones _ st1) as [[m'|e] st2];
      cbn [fst] in *; [|exact IH].
    intros tag l Hl. apply IH in Hl.
    by apply tags2fws_drop_all_lookup in Hl as [Hl _].
  - by exists e.
Qed.

Lemma reads_ListDanglingFirewalls app : adds reads (ListDanglingFirewalls rt app).
Proof.
  unfold ListDanglingFirewalls. apply adds_bind; [adds_call rt|].
  intros [items|e]; [|apply adds_ret].
  apply adds_bind; [adds_call rt|]. intros [zones|e]; [|apply adds_ret].
  apply adds_bind; [apply reads_zones|]. intros [m|e]; apply adds_ret.
Qed.

(** Events that delete nothing leave the firewall deletions as they
    were. *)
Lemma reads_deletions {A} (m : M World A) (st : State World) :
  adds reads m → deletions (trace (m st).2) = deletions (trace st).
Proof.
  intros Hm. destruct (Hm st) as (evs & -> & Hp). rewrite deletions_app.
  rewrite <- (app_nil_r (deletions (trace st))) at 2. f_equal.
  induction Hp as [|e evs He _ IH]; [done|]. simpl.
  destruct e as [c|]; [|exact IH]. by destruct c.
Qed.

(** What [ListDanglingFirewalls] can return: rules that were listed and
    carry a [gke-] target tag, or a wrapped error. *)
Lemma ListDanglingFirewalls_any app (st : State World) :
  match (ListDanglingFirewalls rt app st).1 with
  | Ok lst =>
      ∃ fws, (Do rt (Firewalls_List (project app)) (world st)).1 = Ok fws
             ∧ (mapRange_visits_all rt →
                ∀ fw, fw ∈ lst →
                      fw ∈ fws ∧ ∃ tag, tag ∈ Firewall_TargetTags fw ∧ gke tag)
  | Err e =>
      ∃ cause, e = errors_Wrap cause "failed to list firewall rules"
               ∨ e = errors_Wrap cause "faild to list zones"
               ∨ e = errors_Wrap cause "failed to list instances"
  end.
Proof.
  unfold ListDanglingFirewalls.
  pose proof (call_fst rt (Firewalls_List (project app)) st) as Hf.
  destruct (call rt (Firewalls_List (project app)) st) as [[fws|e] st1] eqn:Hc1;
    rewrite (bind_eq _ _ _ _ _ Hc1); cbv beta iota zeta; [|exists e; by left].
  destruct (call rt (Zones_List (project app)) st1) as [[zones|e] st2] eqn:Hc2;
    rewrite (bind_eq _ _ _ _ _ Hc2); cbv beta iota; [|exists e; right; by left].
  pose proof (zones_any app zones (tags2fws_of fws) st2) as Hz.
  destruct (ListDanglingFirewalls_zones rt app zones (tags2fws_of fws) st2)
    as [[m'|e] st3] eqn:Hs; rewrite (bind_eq _ _ _ _ _ Hs); cbv beta iota;
    cbn [fst] in Hz.
  - exists fws. split; [by rewrite <- Hf|]. intros Hrange fw Hin.
    apply elem_of_concat in Hin as (l & Hl & Hin).
    apply list_elem_of_fmap in Hl as ([tag l'] & -> & Hl).
    rewrite (Hrange m') in Hl. apply elem_of_map_to_list in Hl.
    apply Hz in Hl.
    assert (Hk : keyed (tags2fws_of fws) tag fw) by (by exists l').
    apply keyed_tags2fws_of in Hk as (H1 & H2 & H3). split; [done|]. by exists tag.
  - destruct Hz as [cause ->]. exists cause. right. by right.
Qed.

Lemma handleJobError_wrapped (cause : error) (msg : string) :
  handleJobError (errors_Wrap cause msg) = StatusInternalServerError.
Proof. reflexivity. Qed.

(** X19.  When the listing of the dangling rules fails, whatever failed
    and however --- a NotFound from the API included --- the error
    reaches [handleJobError] wrapped: the pass answers 500, is left for
    redelivery, and has deleted nothing. *)
Theorem firewall_listing_failure_not_acknowledged
    (r : Request) (app : App) (st st1 : State World) (e : error) :
  getApp rt st = (Ok app, st1) →
  (ListDanglingFirewalls rt app st1).1 = Err e →
  (∃ cause, e = errors_Wrap cause "failed to list firewall rules"
            ∨ e = errors_Wrap cause "faild to list zones"
            ∨ e = errors_Wrap cause "failed to list instances")
  ∧ (httpFirewallsCheck rt r st).1 = StatusInternalServerError
  ∧ acknowledged (httpFirewallsCheck rt r st).1 = false
  ∧ deleted (httpFirewallsCheck rt r) st = [].
Proof.
  intros Ha He. pose proof (ListDanglingFirewalls_any app st1) as Hany.
  pose proof (reads_deletions _ st1 (reads_ListDanglingFirewalls app)) as Hd.
  pose proof (getApp_trace rt st) as Ht. rewrite Ha in Ht. cbn [snd] in Ht.
  unfold deleted, httpFirewallsCheck. rewrite (bind_eq _ _ _ _ _ Ha). cbv beta iota.
  destruct (ListDanglingFirewalls rt app st1) as [[l|e'] st2] eqn:Hl; [done|].
  cbn [fst snd] in *. injection He as ->.
  rewrite (bind_eq _ _ _ _ _ Hl). cbv beta iota. split; [exact Hany|].
  destruct Hany as (cause & [->|[->| ->]]); cbn [fst snd mret M_ret ret];
    rewrite Hd, Ht, drop_all; done.
Qed.

(** How far the delete loop gets. *)
Lemma httpFirewallsCheck_loop_any app fws :
  ∀ st : State World,
    (deletions (trace (httpFirewallsCheck_loop rt app fws st).2)
     = (deletions (trace st) ++ map Firewall_Name fws)%list
     ∧ (httpFirewallsCheck_loop rt app fws st).1 = StatusNoContent)
    ∨ ∃ fws1 fw fws2 w e,
        fws = (fws1 ++ fw :: fws2)%list
        ∧ deletions (trace (httpFirewallsCheck_loop rt app fws st).2)
          = (deletions (trace st) ++ map Firewall_Name (fws1 ++ [fw]))%list
        ∧ failure (Do rt (Firewalls_Delete (project app) (Firewall_Name fw)) w).1
          = Some e
        ∧ (httpFirewallsCheck_loop rt app fws st).1 = handleJobError e.
Proof.
  induction fws as [|fw fws IH]; intros st; simpl.
  - left. by rewrite app_nil_r.
  - unfold deleteOr.
    destruct (call rt (Firewalls_Delete (project app) (Firewall_Name fw)) st)
      as [r st1] eqn:Hc.
    rewrite (bind_eq _ _ _ _ _ Hc). cbv beta iota.
    assert (Hd : deletions (trace st1)
                 = (deletions (trace st) ++ [Firewall_Name fw])%list).
    { pose proof (call_trace rt (Firewalls_Delete (project app) (Firewall_Name fw)) st)
        as Ht. rewrite Hc in Ht. cbn [snd] in Ht. by rewrite Ht, deletions_app. }
    assert (Hr : failure r
                 = failure (Do rt (Firewalls_Delete (project app) (Firewall_Name fw))
                              (world st)).1).
    { unfold call in Hc. destruct (Do rt _ (world st)) as [r' w].
      by injection Hc as -> _. }
    destruct r as [[]|e].
    + destruct (IH st1) as [[Hall Hs]|(fws1 & fw' & fws2 & w & e & -> & Hsome & Hf & Hs)].
      * left. rewrite Hall, Hd, <- app_assoc. done.
      * right. exists (fw :: fws1), fw', fws2, w, e. split; [done|].
        rewrite Hsome, Hd, <- app_assoc. done.
    + right. exists [], fw, fws, (world st), e. split; [done|].
      cbn [fst snd mret M_ret ret]. split; [by rewrite Hd|].
      split; [symmetry; exact Hr|done].
Qed.

(** X20.  The delete loop of the firewall pass stops at the first delete
    that fails.  Either every rule of the list was asked to be deleted,
    in order, and the answer is 204; or the deletes stop with a rule
    whose delete failed, the rules after it are not attempted, and the
    answer is that of [handleJobError] for the failure: 204 when the
    rule was already gone, 500 otherwise. *)
Theorem firewall_deletes_stop_at_first_failure
    (app : App) (fws : list Firewall) (st : State World) :
  (deleted (httpFirewallsCheck_loop rt app fws) st = map Firewall_Name fws
   ∧ (httpFirewallsCheck_loop rt app fws st).1 = StatusNoContent)
  ∨ ∃ fws1 fw fws2 w e,
      fws = (fws1 ++ fw :: fws2)%list
      ∧ deleted (httpFirewallsCheck_loop rt app fws) st
        = map Firewall_Name (fws1 ++ [fw])
      ∧ failure (Do rt (Firewalls_Delete (project app) (Firewall_Name fw)) w).1
        = Some e
      ∧ (httpFirewallsCheck_loop rt app fws st).1 = handleJobError e
      ∧ (e = googleapi_Error StatusNotFound →
         (httpFirewallsCheck_loop rt app fws st).1 = StatusNoContent)
      ∧ (e ≠ googleapi_Error StatusNotFound →
         (httpFirewallsCheck_loop rt app fws st).1 = StatusInternalServerError).
Proof.
  unfold deleted.
  destruct (httpFirewallsCheck_loop_any app fws st)
    as [[Hall Hs]|(fws1 & fw & fws2 & w & e & Hfws & Hsome & Hf & Hs)].
  - left. by rewrite Hall, drop_app_length.
  - right. exists fws1, fw, fws2, w, e. rewrite Hsome, drop_app_length, Hs.
    repeat (split; [done|]). split.
    + intros ->. apply handleJobError_not_found.
    + apply handleJobError_other.
Qed.

(** The names the loop asks to delete are names of rules of its list. *)
Lemma httpFirewallsCheck_loop_names app fws (st : State World) name :
  name ∈ drop (length (deletions (trace st)))
           (deletions (trace (httpFirewallsCheck_loop rt app fws st).2)) →
  ∃ fw, fw ∈ fws ∧ Firewall_Name fw = name.
Proof.
  destruct (httpFirewallsCheck_loop_any app fws st)
    as [[-> _]|(fws1 & fw & fws2 & w & e & -> & -> & _)];
    rewrite drop_app_length; intros Hin;
    apply list_elem_of_fmap in Hin as (fw' & -> & Hin); exists fw'; (split; [|done]).
  - done.
  - apply elem_of_app in Hin as [Hin|Hin]; apply elem_of_app; [by left|].
    right. apply list_elem_of_singleton in Hin as ->. by left.
Qed.

(** X21.  Whatever the cloud answers about zones and instances, and
    whichever deletes fail, the firewall pass only ever asks to delete a
    rule that the listing of the firewall rules returned and that carries
    a [gke-] target tag. *)
Theorem firewall_deletes_only_listed_gke_rules
    (r : Request) (app : App) (st st1 : State World) (name : string) :
  mapRange_visits_all rt →
  getApp rt st = (Ok app, st1) →
  name ∈ deleted (httpFirewallsCheck rt r) st →
  ∃ fws fw tag,
    (Do rt (Firewalls_List (project app)) (world st1)).1 = Ok fws
    ∧ fw ∈ fws ∧ Firewall_Name fw = name
    ∧ tag ∈ Firewall_TargetTags fw ∧ gke tag.
Proof.
  intros Hrange Ha. pose proof (ListDanglingFirewalls_any app st1) as Hany.
  pose proof (reads_deletions _ st1 (reads_ListDanglingFirewalls app)) as Hd.
  pose proof (getApp_trace rt st) as Ht. rewrite Ha in Ht. cbn [snd] in Ht.
  unfold deleted, httpFirewallsCheck. rewrite (bind_eq _ _ _ _ _ Ha). cbv beta iota.
  destruct (ListDanglingFirewalls rt app st1) as [[l|e'] st2] eqn:Hl;
    rewrite (bind_eq _ _ _ _ _ Hl); cbv beta iota; cbn [fst snd] in *.
  - rewrite <- Ht, <- Hd. intros Hin.
    apply httpFirewallsCheck_loop_names in Hin as (fw & Hin & Hname).
    destruct Hany as (fws & Hfws & Hsafe).
    destruct (Hsafe Hrange fw Hin) as (Hlisted & tag & Htag & Hgke).
    by exists fws, fw, tag.
  - cbn [mret M_ret ret snd]. rewrite Hd, Ht, drop_all.
    by intros ?%elem_of_nil.
Qed.

Lemma tags2fws_add_none m fw :
  Forall (λ tag, ¬ gke tag) (Firewall_TargetTags fw) → tags2fws_add m fw = m.
Proof.
  unfold tags2fws_add. revert m.
  induction (Firewall_TargetTags fw) as [|t ts IH]; intros m Hall; simpl; [done|].
  apply Forall_cons in Hall as [Ht Hall]. unfold gke in Ht.
  destruct (strings.HasPrefix t "gke-"); [done|]. by apply IH.
Qed.

Lemma tags2fws_of_none fws :
  Forall (λ fw, Forall (λ tag, ¬ gke tag) (Firewall_TargetTags fw)) fws →
  tags2fws_of fws = ∅.
Proof.
  unfold tags2fws_of. generalize (∅ : gmap string (list Firewall)).
  induction fws as [|fw fws IH]; intros m Hall; simpl; [done|].
  apply Forall_cons in Hall as [Hfw Hall]. rewrite tags2fws_add_none by done.
  by apply IH.
Qed.

(** X22.  When no listed firewall rule carries a [gke-] target tag, the
    pass lists the firewall rules and the zones and stops there: no
    instance is listed in any zone, nothing is deleted, and the answer is
    204. *)
Theorem firewall_pass_without_gke_rules
    (r : Request) (app : App) (st st1 : State World)
    (fws : list Firewall) (zones : list Zone) (w1 w2 : World) :
  mapRange_visits_all rt →
  getApp rt st = (Ok app, st1) →
  Do rt (Firewalls_List (project app)) (world st1) = (Ok fws, w1) →
  Do rt (Zones_List (project app)) w1 = (Ok zones, w2) →
  Forall (λ fw, Forall (λ tag, ¬ gke tag) (Firewall_TargetTags fw)) fws →
  httpFirewallsCheck rt r st
  = (StatusNoContent,
     {| world := w2;
        trace := (trace st ++ [Api (Firewalls_List (project app));
                               Api (Zones_List (project app))])%list |}).
Proof.
  intros Hrange Ha Hf Hz Hnone.
  pose proof (getApp_trace rt st) as Ht. rewrite Ha in Ht. cbn [snd] in Ht.
  assert (Hempty : mapRange rt ∅ = []).
  { apply Permutation_nil_r. by rewrite (Hrange ∅), map_to_list_empty. }
  unfold httpFirewallsCheck. rewrite (bind_eq _ _ _ _ _ Ha). cbv beta iota.
  unfold ListDanglingFirewalls, mbind, M_bind, bind, call.
  rewrite Hf. cbn [world trace]. rewrite Hz, (tags2fws_of_none fws Hnone).
  destruct zones as [|zone zones]; cbn [ListDanglingFirewalls_zones];
    [|rewrite bool_decide_eq_true_2 by apply map_size_empty];
    unfold mret, M_ret, ret; rewrite Hempty; cbn [map concat httpFirewallsCheck_loop];
    unfold mret, M_ret, ret; rewrite Ht, <- app_assoc; done.
Qed.

End Pass2.

(** ** Links that do not parse, in the plan *)

Section Unparsable.

(** X23.  The planner passes over a certificate link that does not
    parse, but not over a health-check link: every health-check link of
    a service yields a task, and one that does not parse yields a
    health-check deletion task with the empty name.  A service whose own
    link does not parse has its task made with the empty region. *)
Theorem unparsable_links_in_plan
    (service : BackendService) (certificates : list string) (expires : string) :
  length (certificateTasks certificates expires)
  = length (filter (λ cert, (ParseSslCertificates cert).2 = None) certificates)
  ∧ length (serviceTasks service expires)
    = S (length (BackendService_HealthChecks service))
  ∧ (∀ hc, hc ∈ BackendService_HealthChecks service →
           (ParseHealthChecks hc).2 ≠ None →
           NewPOSTTask "/job/health-checks/delete"
             {[ "name" := [""]; "expires" := [expires] ]}
           ∈ serviceTasks service expires)
  ∧ ((ParseBackendServices (BackendService_SelfLink service)).2 ≠ None →
     head (serviceTasks service expires)
     = Some (NewPOSTTask "/job/backend-services/delete"
               {[ "name" := [BackendService_Name service];
                  "region" := [""];
                  "expires" := [expires] ]})).
Proof.
  split; [|split; [|split]].
  - unfold certificateTasks.
    induction certificates as [|cert certs IH]; [done|].
    rewrite filter_cons. cbn [flat_map]. rewrite length_app, IH.
    destruct (decide ((ParseSslCertificates cert).2 = None)) as [Hp|Hp];
      destruct (ParseSslCertificates cert) as [[name rg] [err|]]; done.
  - unfold serviceTasks.
    destruct (ParseBackendServices _) as [[name rg] err].
    cbn [length]. by rewrite length_map.
  - intros hc Hin Hp. unfold serviceTasks.
    destruct (ParseBackendServices _) as [[name rg] err]. right.
    apply list_elem_of_fmap. exists hc. split; [|done].
    pose proof (parseURL_failure hc "healthChecks" Hp) as Hn.
    unfold ParseHealthChecks.
    destruct (parseURL hc "healthChecks") as [[name' rg'] err'].
    by injection Hn as -> _.
  - intros Hp. unfold serviceTasks.
    pose proof (parseURL_failure _ "backendServices" Hp) as Hn.
    unfold ParseBackendServices.
    destruct (parseURL _ "backendServices") as [[name rg] err].
    by injection Hn as _ ->.
Qed.

(** X24.  The project id [AppengineApp] gives its app.  An app id without
    a colon is the project id.  From an app id with a colon --- a
    domain-scoped [domain:project] --- the part from the colon on is
    kept, colon included: the project id then starts with a colon. *)
Theorem AppengineApp_keeps_colon
    (client service : result unit) (id : string) (app : App) :
  AppengineApp_new client id service = Ok app →
  (strings.Index id ":" < 0 → project app = id)
  ∧ (0 <= strings.Index id ":" →
     project app = slice_from id (strings.Index id ":")
     ∧ strings.HasPrefix (project app) ":" = true).
Proof.
  unfold AppengineApp_new, New. destruct client as [[]|e]; [|done].
  destruct service as [[]|e]; [|done]. intros [= <-]. cbn [project]. split.
  - intros Hi. by rewrite (proj2 (Z.ltb_ge _ _)) by lia.
  - intros Hi. pose proof (Index_found id ":" Hi) as Hpre.
    destruct (Z.ltb_spec 0 (strings.Index id ":")) as [Hpos|Hz]; [done|].
    assert (H0 : strings.Index id ":" = 0) by lia.
    rewrite H0, slice_from_0 in Hpre. by rewrite H0, slice_from_0.
Qed.

End Unparsable.

(** ** The properties at work on the fixture *)

Import Fixture.

Lemma balancer_findsProxy (created : string) (instances : list string) :
  findsProxy (runtime (balancer created instances) noon) app "k8s-tps-default-app" true
    start (proxyFound (default time.zero (parse created))) (ran proxyCalls).
Proof. exists created, (ran proxyCalls). split; [|split]; reflexivity. Qed.

Lemma balancer_resolvesTree (created : string) (at_ : Time) :
  resolvesTree (runtime (balancer created []) noon) app (proxyFound at_)
    (ran proxyCalls) tree (ran treeCalls).
Proof.
  exists "global",
    (ran [TargetHttpsProxies_Get p "k8s-tps-default-app";
          UrlMaps_Get p "k8s-um-default-app"]),
    (ran [TargetHttpsProxies_Get p "k8s-tps-default-app";
          UrlMaps_Get p "k8s-um-default-app";
          BackendServices_Get p "k8s-be-30000"]).
  split; [vm_compute; reflexivity|]. split; [vm_compute; reflexivity|].
  split; vm_compute; reflexivity.
Qed.




Lemma expired_task_witness :
  worker dead (urlMapTask "2017-12-01T11:45:00Z") start = (StatusNoContent, start)
  ∧ acknowledged (worker dead (urlMapTask "2017-12-01T11:45:00Z") start).1 = true
  ∧ called (worker dead (urlMapTask "2017-12-01T11:45:00Z")) start = [].
Proof.
  apply (expired_task_acknowledged_without_api_call dead
           (urlMapTask "2017-12-01T11:45:00Z") start (noon - 15 * time.Minute) noon tt).
  - unfold deletePaths. simpl. set_solver.
  - vm_compute. reflexivity.
  - reflexivity.
  - vm_compute. reflexivity.
Defined.

Lemma delete_failure_witness :
  ∃ c : ApiCall,
    is_delete c = true ∧
    trace (worker (runtime (failing (balancer "2017-12-01T09:00:00Z" [])
                              (googleapi_Error StatusNotFound)) noon)
             (urlMapTask "2017-12-01T12:15:00Z") start).2
    = [Api c] ∧
    (worker (runtime (failing (balancer "2017-12-01T09:00:00Z" [])
                        (googleapi_Error StatusNotFound)) noon)
       (urlMapTask "2017-12-01T12:15:00Z") start).1 = StatusNoContent.
Proof.
  destruct (delete_failure_acknowledged_iff_not_found
              (runtime (failing (balancer "2017-12-01T09:00:00Z" [])
                          (googleapi_Error StatusNotFound)) noon)
              (urlMapTask "2017-12-01T12:15:00Z") start start start app)
    as (c & Hdel & Htr & Hout).
  - unfold deletePaths. simpl. set_solver.
  - vm_compute. reflexivity.
  - reflexivity.
  - exists c. split; [exact Hdel|]. split; [exact Htr|].
    apply (Hout (googleapi_Error StatusNotFound)); [|reflexivity].
    clear Hout. destruct c; try discriminate Hdel; reflexivity.
Defined.

Lemma ssl_certificate_task_witness :
  trace (worker dead
           (NewPOSTTask "/job/ssl-certificates/delete"
              {[ "name" := ["k8s-ssl-default-app"];
                 "expires" := ["2017-12-01T12:15:00Z"] ]}) start).2
  = [Api (RegionBackendServices_Delete p "" "k8s-ssl-default-app")]
  ∧ Api (SslCertificates_Delete p "k8s-ssl-default-app")
    ∉ trace (worker dead
               (NewPOSTTask "/job/ssl-certificates/delete"
                  {[ "name" := ["k8s-ssl-default-app"];
                     "expires" := ["2017-12-01T12:15:00Z"] ]}) start).2.
Proof.
  apply (ssl_certificate_task_deletes_backend_service dead
           "k8s-ssl-default-app" "2017-12-01T12:15:00Z" start start start app).
  - vm_compute. reflexivity.
  - reflexivity.
Defined.


Lemma grace_window_witness :
  (checkAndDeleteTargetProxiesIfApplicable young app "k8s-fw-default-app" "global"
     "k8s-tps-default-app" true start = (None, ran proxyCalls)
   ∧ emitted (checkAndDeleteTargetProxiesIfApplicable young app "k8s-fw-default-app"
                "global" "k8s-tps-default-app" true) start = []
   ∧ called (checkAndDeleteTargetProxiesIfApplicable young app "k8s-fw-default-app"
               "global" "k8s-tps-default-app" true) start
     = [proxyGet app "k8s-tps-default-app" true])
  ∧ emitted (checkAndDeleteTargetProxiesIfApplicable twoHours app "k8s-fw-default-app"
               "global" "k8s-tps-default-app" true) start ≠ [].
Proof.
  split.
  - apply (grace_window young app "k8s-fw-default-app" "global" "k8s-tps-default-app"
             true start (ran proxyCalls) (proxyFound (noon - 30 * time.Minute))).
    + apply (balancer_findsProxy "2017-12-01T11:30:00Z" []).
    + vm_compute. reflexivity.
  - apply (proj2 (grace_window twoHours app "k8s-fw-default-app" "global"
                    "k8s-tps-default-app" true start (ran proxyCalls)
                    (proxyFound (noon - 2 * time.Hour))
                    (balancer_findsProxy "2017-12-01T10:00:00Z" []))
             eq_refl tree (ran treeCalls)).
    + apply balancer_resolvesTree.
    + reflexivity.
Defined.

Lemma unparsable_creation_time_witness :
  (checkAndDeleteTargetProxiesIfApplicable undated app "k8s-fw-default-app" "global"
     "k8s-tps-default-app" true start).1 = None
  ∧ emitted (checkAndDeleteTargetProxiesIfApplicable undated app "k8s-fw-default-app"
               "global" "k8s-tps-default-app" true) start ≠ [].
Proof.
  destruct (unparsable_creation_time_passes_grace undated app "k8s-fw-default-app"
              "global" "k8s-tps-default-app" true start (ran proxyCalls) (ran proxyCalls)
              "k8s-tps-default-app"
              [link "global" "sslCertificates" "k8s-ssl-default-app"]
              (link "global" "urlMaps" "k8s-um-default-app") "yesterday" noon)
    as [_ H].
  - reflexivity.
  - reflexivity.
  - reflexivity.
  - vm_compute. discriminate.
  - destruct (H tree (ran treeCalls)) as (H1 & _ & H3).
    + apply (balancer_resolvesTree "yesterday" time.zero).
    + reflexivity.
    + split; [exact H1|exact H3].
Defined.

Lemma plan_order_and_expiry_witness :
  ∃ certs svcs fwd : list Task,
    emitted (checkAndDeleteTargetProxiesIfApplicable dead app "k8s-fw-default-app"
               "global" "k8s-tps-default-app" true) start
    = (NewPOSTTask "/job/target-http-proxies/delete"
         {[ "name" := ["k8s-tps-default-app"];
            "https" := [strconv.FormatBool true];
            "expires" := [format (time.Add noon (15 * time.Minute))] ]}
       :: certs ++ svcs
       ++ NewPOSTTask "/job/url-maps/delete"
            {[ "name" := ["k8s-um-default-app"];
               "expires" := [format (time.Add noon (15 * time.Minute))] ]}
       :: fwd)%list
    ∧ certs
      = [ NewPOSTTask "/job/ssl-certificates/delete"
            {[ "name" := ["k8s-ssl-default-app"];
               "expires" := [format (time.Add noon (15 * time.Minute))] ]} ]
    ∧ svcs
      = [ NewPOSTTask "/job/backend-services/delete"
            {[ "name" := ["k8s-be-30000"];
               "region" := ["global"];
               "expires" := [format (time.Add noon (15 * time.Minute))] ]};
          NewPOSTTask "/job/health-checks/delete"
            {[ "name" := ["k8s-be-30000"];
               "expires" := [format (time.Add noon (15 * time.Minute))] ]} ]
    ∧ Forall (λ t, Task_Path t = "/job/ssl-certificates/delete") certs
    ∧ (true = false → certs = [])
    ∧ map Task_Path svcs
      = flat_map (λ s, "/job/backend-services/delete"
                       :: map (λ _, "/job/health-checks/delete")
                            (BackendService_HealthChecks s))
                 [service]
    ∧ fwd = (if decide ("k8s-fw-default-app" = "") then []
             else [NewPOSTTask "/job/forwarding-rules/delete"
                     {[ "name" := ["k8s-fw-default-app"];
                        "region" := ["global"];
                        "expires" := [format (time.Add noon (15 * time.Minute))] ]}])
    ∧ Forall (stamped (format (time.Add noon (15 * time.Minute))))
        (emitted (checkAndDeleteTargetProxiesIfApplicable dead app "k8s-fw-default-app"
                    "global" "k8s-tps-default-app" true) start).
Proof.
  destruct (plan_order_and_expiry dead app "k8s-fw-default-app" "global"
              "k8s-tps-default-app" true start (ran proxyCalls) (ran treeCalls)
              (proxyFound (noon - 3 * time.Hour)) tree noon tt)
    as (certs & svcs & fwd & He & Hc & Hs & Hrest).
  - apply (balancer_findsProxy "2017-12-01T09:00:00Z" []).
  - vm_compute. discriminate.
  - apply balancer_resolvesTree.
  - reflexivity.
  - reflexivity.
  - exists certs, svcs, fwd. split; [exact He|]. split; [|split; [|exact Hrest]].
    + rewrite Hc. vm_compute. reflexivity.
    + rewrite Hs. vm_compute. reflexivity.
Defined.

(** The end-to-end run: forwarding rule, HTTPS proxy three hours old, url
    map, one backend service whose only instance group has no instance. *)
Example dead_balancer_plan :
  emitted (checkAndDeleteTargetProxiesIfApplicable dead app "k8s-fw-default-app"
             "global" "k8s-tps-default-app" true) start
  = [ NewPOSTTask "/job/target-http-proxies/delete"
        {[ "name" := ["k8s-tps-default-app"]; "https" := ["true"];
           "expires" := ["2017-12-01T12:15:00Z"] ]};
      NewPOSTTask "/job/ssl-certificates/delete"
        {[ "name" := ["k8s-ssl-default-app"]; "expires" := ["2017-12-01T12:15:00Z"] ]};
      NewPOSTTask "/job/backend-services/delete"
        {[ "name" := ["k8s-be-30000"]; "region" := ["global"];
           "expires" := ["2017-12-01T12:15:00Z"] ]};
      NewPOSTTask "/job/health-checks/delete"
        {[ "name" := ["k8s-be-30000"]; "expires" := ["2017-12-01T12:15:00Z"] ]};
      NewPOSTTask "/job/url-maps/delete"
        {[ "name" := ["k8s-um-default-app"]; "expires" := ["2017-12-01T12:15:00Z"] ]};
      NewPOSTTask "/job/forwarding-rules/delete"
        {[ "name" := ["k8s-fw-default-app"]; "region" := ["global"];
           "expires" := ["2017-12-01T12:15:00Z"] ]} ].
Proof. vm_compute. reflexivity. Qed.

Lemma cluster_showsNetwork (tags : list string) :
  showsNetwork (cluster tags) p [rule] [zoneA] (instancesOf tags).
Proof.
  split; [|split]; try (intros; reflexivity).
  intros w zone ->%list_elem_of_singleton. reflexivity.
Qed.

Lemma cluster_ranges_all (tags : list string) : mapRange_visits_all (cluster tags).
Proof. intros m. reflexivity. Qed.

Lemma cluster_deletesSucceed (tags : list string) : deletesSucceed (cluster tags) p.
Proof. intros w name. reflexivity. Qed.

Lemma firewall_deleted_witness :
  (httpFirewallsCheck (cluster ["gke-a"; "gke-b"]) request start).1 = StatusNoContent
  ∧ (∀ tag fw,
       gke tag → ¬ observed [zoneA] (instancesOf ["gke-a"; "gke-b"]) tag →
       fw ∈ [rule] → tag ∈ Firewall_TargetTags fw →
       Firewall_Name fw ∈ deleted (httpFirewallsCheck (cluster ["gke-a"; "gke-b"]) request) start)
  ∧ (∀ name,
       name ∈ deleted (httpFirewallsCheck (cluster ["gke-a"; "gke-b"]) request) start
       ↔ ∃ fw, fw ∈ [rule] ∧ Firewall_Name fw = name
               ∧ dangling [zoneA] (instancesOf ["gke-a"; "gke-b"]) fw).
Proof.
  apply (firewall_deleted_iff_dangling (cluster ["gke-a"; "gke-b"]) request app
           [rule] [zoneA] (instancesOf ["gke-a"; "gke-b"]) start start).
  - apply cluster_ranges_all.
  - reflexivity.
  - apply cluster_showsNetwork.
  - apply cluster_deletesSucceed.
Defined.

(** One instance carries [gke-a]; the rule, which has the target tag
    [gke-a], is deleted all the same, for its other tag [gke-b]. *)
Lemma live_tag_does_not_keep_rule :
  "gke-a" ∈ Firewall_TargetTags rule
  ∧ gke "gke-a"
  ∧ observed [zoneA] (instancesOf ["gke-a"]) "gke-a"
  ∧ deleted (httpFirewallsCheck (cluster ["gke-a"]) request) start = [Firewall_Name rule].
Proof.
  split; [left|]. split; [reflexivity|]. split.
  - exists zoneA, {| Instance_Tags := ["gke-a"] |}. split; [left|]. split; left.
  - vm_compute. reflexivity.
Qed.

Lemma rule_listed_twice_witness :
  (∃ ret st2,
     ListDanglingFirewalls (cluster ["gke-c"]) app start = (Ok ret, st2)
     ∧ ret ≡ₚ flat_map (λ fw, replicate
                                 (length (danglingTags [zoneA] (instancesOf ["gke-c"]) fw))
                                 fw) [rule])
  ∧ deleted (httpFirewallsCheck (cluster ["gke-c"]) request) start
    ≡ₚ flat_map (λ fw, replicate
                         (length (danglingTags [zoneA] (instancesOf ["gke-c"]) fw))
                         (Firewall_Name fw)) [rule]
  ∧ ∀ fw, fw ∈ [rule] →
      replicate (length (danglingTags [zoneA] (instancesOf ["gke-c"]) fw))
        (Firewall_Name fw)
      ⊆+ deleted (httpFirewallsCheck (cluster ["gke-c"]) request) start.
Proof.
  apply (rule_listed_once_per_dangling_tag (cluster ["gke-c"]) request app
           [rule] [zoneA] (instancesOf ["gke-c"]) start start).
  - apply cluster_ranges_all.
  - reflexivity.
  - apply cluster_showsNetwork.
  - apply cluster_deletesSucceed.
Defined.

(** The same pass, run: both tags of the rule dangle, the rule comes back
    twice and is deleted twice. *)
Example rule_deleted_twice :
  danglingTags [zoneA] (instancesOf ["gke-c"]) rule = ["gke-a"; "gke-b"]
  ∧ (ListDanglingFirewalls (cluster ["gke-c"]) app start).1 = Ok [rule; rule]
  ∧ deleted (httpFirewallsCheck (cluster ["gke-c"]) request) start
    = [Firewall_Name rule; Firewall_Name rule].
Proof. repeat split; vm_compute; reflexivity. Qed.

(** ** The further properties at work on the fixture *)

Import Faults.


(** The link of the repository's url map test. *)
Lemma parseURL_well_formed_witness :
  parseURL
    ("https://www.googleapis.com/compute/v1/projects/builderscon-1248" ++ "/"
     ++ "global" ++ "/" ++ "urlMaps" ++ "/" ++ "k8s-um-default-builderscon--c4f34d3824aedd50")
    "urlMaps"
  = ("k8s-um-default-builderscon--c4f34d3824aedd50", "global", None).
Proof. apply parseURL_well_formed; vm_compute; reflexivity. Defined.

Lemma parseURL_shape_witness :
  ∃ a b,
    link "zones/us-central1-a" "instanceGroups" "k8s-ig"
    = a ++ "/" ++ "us-central1-a" ++ b ++ "/" ++ "k8s-ig"
    ∧ strings.HasPrefix (b ++ "/" ++ "k8s-ig") ("/" ++ "instanceGroups") = true
    ∧ strings.Index "us-central1-a" "/" = -1
    ∧ strings.Index "k8s-ig" "/" = -1.
Proof.
  apply (parseURL_shape (link "zones/us-central1-a" "instanceGroups" "k8s-ig")
           "instanceGroups" "k8s-ig" "us-central1-a").
  vm_compute. reflexivity.
Defined.

Lemma parsers_agree_witness :
  ParseTargetProxy (link "global" "targetHttpsProxies" "k8s-tps-default-app")
  = ((parseURL (link "global" "targetHttpsProxies" "k8s-tps-default-app")
        "targetHttpsProxies").1,
     true,
     (parseURL (link "global" "targetHttpsProxies" "k8s-tps-default-app")
        "targetHttpsProxies").2).
Proof.
  apply (parsers_agree_with_parseURL
           (link "global" "targetHttpsProxies" "k8s-tps-default-app"));
    vm_compute; [reflexivity|discriminate].
Defined.

Lemma checks_never_delete_witness :
  is_delete (UrlMaps_Get p "k8s-um-default-app") = false.
Proof.
  apply (checks_never_delete dead app "k8s-fw-default-app" "global"
           "k8s-tps-default-app" true request start).
  left. vm_compute. right. left.
Defined.

Lemma tasks_go_to_configured_queue_witness :
  "default" = if 0 <? len (os_Getenv dead "QUEUE_NAME")
              then os_Getenv dead "QUEUE_NAME" else "default".
Proof.
  apply (tasks_go_to_configured_queue dead request start (checkTask forwardingRule)
           "default").
  left. vm_compute. right. left.
Defined.

Lemma enqueued_tasks_are_routed_witness :
  Task_Path (checkTask forwardingRule) ∈ "/job/target-pools/check" :: deletePaths
  ∧ ∃ h, route (routes dead) (Task_Path (checkTask forwardingRule)) = Some h.
Proof.
  apply (enqueued_tasks_are_routed dead request start (checkTask forwardingRule)).
  left. vm_compute. left.
Defined.

Lemma orphans_fetch_witness :
  TargetHttpsProxies_Get p "k8s-tps-default-app"
  = proxyGet app "k8s-tps-default-app" true
  ∧ "k8s-tps-default-app" ∈ ["default-proxy"; "k8s-tps-default-app"]
  ∧ strings.HasPrefix "k8s-tps-default-app" "k8s-tp" = true
  ∧ "k8s-tps-default-app" ∉ (∅ : gset string).
Proof.
  apply (orphans_fetch_only_unseen_proxies dead app
           ["default-proxy"; "k8s-tps-default-app"] ∅ true start
           (TargetHttpsProxies_Get p "k8s-tps-default-app") p "k8s-tps-default-app").
  - vm_compute. left.
  - by right.
Defined.

Lemma check_all_or_nothing_witness :
  emitted (checkAndDeleteTargetProxiesIfApplicable dead app "" "" "k8s-tp-gone" false)
    start = [].
Proof.
  apply (check_all_or_nothing dead app "" "" "k8s-tp-gone" false start).
  vm_compute. discriminate.
Defined.

Lemma ListInstancesForService_witness :
  ∃ l,
    (ListInstancesForService dead app service start).1 = Ok l
    ∧ called (ListInstancesForService dead app service) start
      = map (λ b, InstanceGroups_ListInstances (project app)
                    (ParseInstanceGroup (Backend_Group b)).1.2
                    (ParseInstanceGroup (Backend_Group b)).1.1 "ALL")
          (BackendService_Backends service)
    ∧ ((∀ w zone name,
          failure (Do dead (InstanceGroups_ListInstances (project app) zone name "ALL") w).1
          ≠ None) →
       l = []).
Proof.
  apply (ListInstancesForService_ignores_api_errors dead app service start).
  constructor; [vm_compute; reflexivity|constructor].
Defined.

Lemma unparsable_expiry_witness :
  worker dead (urlMapTask "in a while") start = (StatusNoContent, start)
  ∧ acknowledged (worker dead (urlMapTask "in a while") start).1 = true.
Proof.
  apply (unparsable_expiry_acknowledged dead (urlMapTask "in a while") start).
  - unfold deletePaths. simpl. set_solver.
  - vm_compute. reflexivity.
Defined.

Lemma delete_without_app_witness :
  worker (withoutApp dead) (urlMapTask "2017-12-01T12:15:00Z") start = (StatusOK, start)
  ∧ trace start = trace start
  ∧ acknowledged (worker (withoutApp dead) (urlMapTask "2017-12-01T12:15:00Z") start).1
    = true.
Proof.
  apply (delete_without_app_acknowledged (withoutApp dead)
           (urlMapTask "2017-12-01T12:15:00Z") start start start
           (errors_Wrap (errors_New "could not find default credentials")
              "failed to create google default client")).
  - unfold deletePaths. simpl. set_solver.
  - vm_compute. reflexivity.
  - reflexivity.
Defined.

Lemma plan_expiry_round_trip_witness :
  (isExpired dead (deliver (urlMapTask (format (noon + 15 * time.Minute)))) start).1
  = bool_decide (noon + 15 * time.Minute < (time_Now dead (world start)).1).
Proof.
  apply (plan_expiry_round_trip dead (urlMapTask (format (noon + 15 * time.Minute)))
           noon (noon + 15 * time.Minute) start).
  - vm_compute. reflexivity.
  - vm_compute. reflexivity.
Defined.

Lemma plan_tasks_execute_witness :
  trace (worker dead
           (NewPOSTTask "/job/target-http-proxies/delete"
              {[ "name" := ["k8s-tps-default-app"];
                 "https" := [strconv.FormatBool true];
                 "expires" := ["2017-12-01T12:15:00Z"] ]}) start).2
  = [Api (TargetHttpsProxies_Delete p "k8s-tps-default-app")].
Proof.
  destruct (plan_tasks_execute dead "k8s-tps-default-app" "global"
              "2017-12-01T12:15:00Z" true) as [H _].
  apply (H start start start app); [vm_compute; reflexivity|reflexivity].
Defined.

Lemma check_task_runs_check_witness :
  worker dead (checkTask forwardingRule) start
  = (StatusNoContent,
     (checkAndDeleteTargetProxiesIfApplicable dead app
        (ForwardingRule_Name forwardingRule)
        (ParseTargetProxy (ForwardingRule_Target forwardingRule)).1.1.2
        (ParseTargetProxy (ForwardingRule_Target forwardingRule)).1.1.1
        (ParseTargetProxy (ForwardingRule_Target forwardingRule)).1.2 start).2).
Proof. apply (check_task_runs_check dead forwardingRule app start start). reflexivity. Defined.

Lemma firewall_listing_failure_witness :
  (∃ cause,
     errors_Wrap (googleapi_Error StatusNotFound) "failed to list instances"
     = errors_Wrap cause "failed to list firewall rules"
     ∨ errors_Wrap (googleapi_Error StatusNotFound) "failed to list instances"
       = errors_Wrap cause "faild to list zones"
     ∨ errors_Wrap (googleapi_Error StatusNotFound) "failed to list instances"
       = errors_Wrap cause "failed to list instances")
  ∧ (httpFirewallsCheck (withoutInstances (cluster [])) request start).1
    = StatusInternalServerError
  ∧ acknowledged (httpFirewallsCheck (withoutInstances (cluster [])) request start).1
    = false
  ∧ deleted (httpFirewallsCheck (withoutInstances (cluster [])) request) start = [].
Proof.
  apply (firewall_listing_failure_not_acknowledged (withoutInstances (cluster []))
           request app start start).
  - reflexivity.
  - vm_compute. reflexivity.
Defined.

Lemma firewall_deletes_only_listed_witness :
  ∃ fws fw tag,
    (Do (cluster []) (Firewalls_List (project app)) (world start)).1 = Ok fws
    ∧ fw ∈ fws ∧ Firewall_Name fw = "gke-cluster-1-vms"
    ∧ tag ∈ Firewall_TargetTags fw ∧ gke tag.
Proof.
  apply (firewall_deletes_only_listed_gke_rules (cluster []) request app start start).
  - apply cluster_ranges_all.
  - reflexivity.
  - vm_compute. left.
Defined.

Lemma firewall_pass_without_gke_rules_witness :
  httpFirewallsCheck unmanaged request start
  = (StatusNoContent,
     {| world := tt;
        trace := (trace start ++ [Api (Firewalls_List (project app));
                                  Api (Zones_List (project app))])%list |}).
Proof.
  apply (firewall_pass_without_gke_rules unmanaged request app start start
           [plain] [zoneA] tt tt).
  - intros m. reflexivity.
  - reflexivity.
  - reflexivity.
  - reflexivity.
  - repeat constructor; vm_compute; discriminate.
Defined.

Lemma unparsable_links_witness :
  NewPOSTTask "/job/health-checks/delete"
    {[ "name" := [""]; "expires" := ["2017-12-01T12:15:00Z"] ]}
  ∈ serviceTasks bare "2017-12-01T12:15:00Z".
Proof.
  apply (unparsable_links_in_plan bare [] "2017-12-01T12:15:00Z") with "k8s-be-30000".
  - left.
  - vm_compute. discriminate.
Defined.

Lemma AppengineApp_keeps_colon_witness :
  (strings.Index "example.com:builderscon-1248" ":" < 0 →
   project {| project := ":builderscon-1248" |} = "example.com:builderscon-1248")
  ∧ (0 <= strings.Index "example.com:builderscon-1248" ":" →
     project {| project := ":builderscon-1248" |}
     = slice_from "example.com:builderscon-1248"
         (strings.Index "example.com:builderscon-1248" ":")
     ∧ strings.HasPrefix (project {| project := ":builderscon-1248" |}) ":" = true).
Proof.
  apply (AppengineApp_keeps_colon (Ok tt) (Ok tt) "example.com:builderscon-1248"
           {| project := ":builderscon-1248" |}).
  vm_compute. reflexivity.
Defined.
